(** * Ingest: the repository-ingestion cache and the chat tool loop

    A shallow embedding of [src/services/repomix.ts] (class
    [RepomixService]), of the chat and pack route handlers and of
    [GroqService], followed by the properties the specification states
    about them.

    Conventions of the embedding.
    - A JavaScript string is a [string]; its characters stand for the
      code units U+0000..U+00FF, so [String.length] is [.length] and
      writing a file as UTF-8 and reading it back is the identity.
    - Everything outside the program is the environment [Env]: the
      network, the subprocesses ([git], [repomix]), the language model,
      the clock and the JSON codec.  An oracle receives the number of
      interactions made so far, so the same call may answer differently
      at different times.
    - The file system is a finite map from path strings to nodes; an
      operation fails for the structural reasons Node reports (a missing
      entry, a directory where a file is expected and conversely).
    - An asynchronous method is a function [World -> Res A * World]: the
      world reached is kept also when the method throws. *)

From Stdlib Require Import NArith ZArith List String Ascii Bool Lia.

From Stdlib Require Import DecimalString DecimalZ Decimal.

From stdpp Require Import base option gmap strings fin_maps.

Import ListNotations.

Local Open Scope string_scope.

(** ** Strings as the source uses them *)

Module Str.

Fixpoint starts_with (pat s : string) : bool :=
  match pat, s with
  | EmptyString, _ => true
  | String a pat', String b s' => Ascii.eqb a b && starts_with pat' s'
  | String _ _, EmptyString => false
  end.

(** [s.includes(pat)] *)
Fixpoint includes (pat s : string) : bool :=
  if starts_with pat s then true
  else match s with
       | EmptyString => false
       | String _ s' => includes pat s'
       end.

Fixpoint drop (n : nat) (s : string) : string :=
  match n, s with
  | O, _ => s
  | S n', String _ s' => drop n' s'
  | S _, EmptyString => EmptyString
  end.

(** [s.replace(pat, rep)] with a string pattern: the first occurrence only. *)
Fixpoint replace (pat rep s : string) : string :=
  if starts_with pat s then rep +:+ drop (String.length pat) s
  else match s with
       | EmptyString => EmptyString
       | String c s' => String c (replace pat rep s')
       end.

(** The longest run of characters other than [sep] at the head of [s],
    and what follows it. *)
Fixpoint span_not (sep : ascii) (s : string) : string * string :=
  match s with
  | EmptyString => (EmptyString, EmptyString)
  | String c s' =>
      if Ascii.eqb c sep then (EmptyString, s)
      else let '(run, rest) := span_not sep s' in (String c run, rest)
  end.

(** [s.split(sep).pop()]: what follows the last [sep]. *)
Fixpoint last_segment (sep : ascii) (s : string) (acc : string) : string :=
  match s with
  | EmptyString => acc
  | String c s' =>
      if Ascii.eqb c sep then last_segment sep s' EmptyString
      else last_segment sep s' (acc +:+ String c EmptyString)
  end.

Definition is_space (c : ascii) : bool :=
  let n := N_of_ascii c in
  ((9 <=? n) && (n <=? 13) || (n =? 32) || (n =? 160))%N.

Fixpoint trim_start (s : string) : string :=
  match s with
  | String c s' => if is_space c then trim_start s' else s
  | EmptyString => EmptyString
  end.

Fixpoint trim_end (s : string) : string :=
  match s with
  | EmptyString => EmptyString
  | String c s' =>
      match trim_end s' with
      | EmptyString => if is_space c then EmptyString else String c EmptyString
      | t => String c t
      end
  end.

(** [s.trim()] *)
Definition trim (s : string) : string := trim_end (trim_start s).

(** A number in a template literal. *)
Definition of_N (n : N) : string := NilZero.string_of_uint (N.to_uint n).

(** [x || fallback] on a string: the empty string is falsy. *)
Definition or_else (x fallback : string) : string :=
  match x with EmptyString => fallback | _ => x end.

End Str.

(** ** SHA-256 ([crypto.createHash('sha256')]) and its hex digest *)

Module Sha256.

Local Open Scope N_scope.

Definition mask32 : N := 0xffffffff.

Definition add32 (x y : N) : N := N.land (x + y) mask32.

Definition rotr (n x : N) : N :=
  N.lor (N.shiftr x n) (N.land (N.shiftl x (32 - n)) mask32).

Definition not32 (x : N) : N := N.lxor x mask32.

Definition ch (x y z : N) : N := N.lxor (N.land x y) (N.land (not32 x) z).

Definition maj (x y z : N) : N :=
  N.lxor (N.lxor (N.land x y) (N.land x z)) (N.land y z).

Definition bsig0 (x : N) : N := N.lxor (N.lxor (rotr 2 x) (rotr 13 x)) (rotr 22 x).

Definition bsig1 (x : N) : N := N.lxor (N.lxor (rotr 6 x) (rotr 11 x)) (rotr 25 x).

Definition ssig0 (x : N) : N := N.lxor (N.lxor (rotr 7 x) (rotr 18 x)) (N.shiftr x 3).

Definition ssig1 (x : N) : N := N.lxor (N.lxor (rotr 17 x) (rotr 19 x)) (N.shiftr x 10).

Definition primes : list N :=
  [ 2; 3; 5; 7; 11; 13; 17; 19; 23; 29; 31; 37; 41; 43; 47; 53;
    59; 61; 67; 71; 73; 79; 83; 89; 97; 101; 103; 107; 109; 113; 127; 131;
    137; 139; 149; 151; 157; 163; 167; 173; 179; 181; 191; 193; 197; 199; 211; 223;
    227; 229; 233; 239; 241; 251; 257; 263; 269; 271; 277; 281; 283; 293; 307; 311 ].

(** The integer cube root, one bit at a time from bit [bits] down. *)
Fixpoint cube_root_from (bits : nat) (n r : N) : N :=
  match bits with
  | O => r
  | S bits' =>
      let r' := r + N.shiftl 1 (N.of_nat bits') in
      cube_root_from bits' n (if r' * r' * r' <=? n then r' else r)
  end.

Definition cube_root (n : N) : N := cube_root_from 40 n 0.

(** The round constants: the first 32 bits of the fractional parts of the
    cube roots of the first 64 primes. *)
Definition K : list N := Eval vm_compute in
  map (fun p => N.land (cube_root (N.shiftl p 96)) mask32) primes.

(** The eight working variables, also the chaining value. *)
Record state := State { sa : N; sb : N; sc : N; sd : N;
                        se : N; sf : N; sg : N; sh : N }.

(** The initial value: the first 32 bits of the fractional parts of the
    square roots of the first 8 primes. *)
Definition frac_sqrt (p : N) : N := N.land (N.sqrt (N.shiftl p 64)) mask32.

Definition H0 : state := Eval vm_compute in
  State (frac_sqrt 2) (frac_sqrt 3) (frac_sqrt 5) (frac_sqrt 7)
        (frac_sqrt 11) (frac_sqrt 13) (frac_sqrt 17) (frac_sqrt 19).

(** Message bytes: one byte for a code unit below 128, two for the rest
    of U+0080..U+00FF (UTF-8, which [hash.update(string)] applies). *)
Fixpoint utf8 (s : string) : list N :=
  match s with
  | EmptyString => []
  | String c s' =>
      let n := N_of_ascii c in
      if n <? 128 then n :: utf8 s'
      else N.lor 0xc0 (N.shiftr n 6) :: N.lor 0x80 (N.land n 0x3f) :: utf8 s'
  end.

Definition be64 (n : N) : list N :=
  map (fun i => N.land (N.shiftr n (8 * i)) 0xff) [7; 6; 5; 4; 3; 2; 1; 0].

(** Padding: a 1 bit, zeros up to 56 modulo 64, the bit length on 64 bits. *)
Definition pad (msg : list N) : list N :=
  let len := N.of_nat (List.length msg) in
  let zeros := N.to_nat ((119 - len mod 64) mod 64) in
  (msg ++ 0x80 :: repeat 0 zeros ++ be64 (8 * len))%list.

Fixpoint words (fuel : nat) (bytes : list N) : list N :=
  match fuel, bytes with
  | S fuel', b0 :: b1 :: b2 :: b3 :: rest =>
      N.lor (N.shiftl b0 24) (N.lor (N.shiftl b1 16) (N.lor (N.shiftl b2 8) b3))
      :: words fuel' rest
  | _, _ => []
  end.

(** The message schedule, extended from 16 to 64 words. *)
Fixpoint extend (n : nat) (w : list N) : list N :=
  match n with
  | O => w
  | S n' =>
      let t := List.length w in
      let at_ k := nth (t - k) w 0 in
      extend n' (w ++ [add32 (add32 (ssig1 (at_ 2%nat)) (at_ 7%nat))
                             (add32 (ssig0 (at_ 15%nat)) (at_ 16%nat))])%list
  end.

Definition round (s : state) (kw : N * N) : state :=
  let '(k, w) := kw in
  let t1 := add32 (add32 (add32 (add32 (sh s) (bsig1 (se s))) (ch (se s) (sf s) (sg s))) k) w in
  let t2 := add32 (bsig0 (sa s)) (maj (sa s) (sb s) (sc s)) in
  State (add32 t1 t2) (sa s) (sb s) (sc s) (add32 (sd s) t1) (se s) (sf s) (sg s).

Definition compress (h : state) (block : list N) : state :=
  let w := extend 48 (words 16 block) in
  let s := fold_left round (combine K w) h in
  State (add32 (sa h) (sa s)) (add32 (sb h) (sb s)) (add32 (sc h) (sc s))
        (add32 (sd h) (sd s)) (add32 (se h) (se s)) (add32 (sf h) (sf s))
        (add32 (sg h) (sg s)) (add32 (sh h) (sh s)).

Fixpoint blocks (fuel : nat) (h : state) (bytes : list N) : state :=
  match fuel, bytes with
  | S fuel', _ :: _ => blocks fuel' (compress h (firstn 64 bytes)) (skipn 64 bytes)
  | _, _ => h
  end.

Definition digest (msg : list N) : state :=
  let p := pad msg in blocks (List.length p) H0 p.

Definition hex_digit (n : N) : ascii :=
  if n <? 10 then ascii_of_N (48 + n) else ascii_of_N (87 + n).

Definition nibble (x : N) (i : N) : ascii :=
  hex_digit (N.land (N.shiftr x (4 * i)) 0xf).

Definition hex32 (x : N) (tail : string) : string :=
  String (nibble x 7) (String (nibble x 6) (String (nibble x 5) (String (nibble x 4)
 (String (nibble x 3) (String (nibble x 2) (String (nibble x 1) (String (nibble x 0)
  tail))))))).

(** [.digest('hex')] *)
Definition hex (s : state) : string :=
  hex32 (sa s) (hex32 (sb s) (hex32 (sc s) (hex32 (sd s)
 (hex32 (se s) (hex32 (sf s) (hex32 (sg s) (hex32 (sh s) EmptyString))))))).

Definition sha256_hex (s : string) : string := hex (digest (utf8 s)).

End Sha256.

(** ** Effects: state passing with exceptions

    [Eff S A] is an [async] function over a state [S]: it returns a value
    or throws an [Error] with a message, and in both cases leaves a
    state behind. *)

Inductive Res (A : Type) : Type :=
| Ok (a : A)
| Err (msg : string).

Arguments Ok {A} a.

Arguments Err {A} msg.

Definition Eff (S A : Type) : Type := S -> Res A * S.

Definition ret {S A} (a : A) : Eff S A := fun s => (Ok a, s).

Definition throw {S A} (msg : string) : Eff S A := fun s => (Err msg, s).

Definition bind {S A B} (m : Eff S A) (k : A -> Eff S B) : Eff S B :=
  fun s => match m s with
           | (Ok a, s') => k a s'
           | (Err e, s') => (Err e, s')
           end.

(** [try { m } catch (error) { h error }] *)
Definition try_catch {S A} (m : Eff S A) (h : string -> Eff S A) : Eff S A :=
  fun s => match m s with
           | (Ok a, s') => (Ok a, s')
           | (Err e, s') => h e s'
           end.

Definition modify {S} (f : S -> S) : Eff S unit := fun s => (Ok tt, f s).

Definition gets {S A} (f : S -> A) : Eff S A := fun s => (Ok (f s), s).

Declare Scope eff_scope.

Delimit Scope eff_scope with eff.

Notation "x <- m ;; k" := (bind m (fun x => k))
  (at level 100, m at next level, right associativity) : eff_scope.

Notation "m ;;; k" := (bind m (fun _ => k))
  (at level 100, right associativity) : eff_scope.

Local Open Scope eff_scope.

(** ** Data model ([src/types/index.ts]) *)

Record RepoMetadata := {
  meta_repoUrl : string;
  meta_commitSha : string;
  meta_size : Z;
  meta_cachedAt : string }.

(** [Partial<RepoMetadata>] *)
Record PartialRepoMetadata := {
  part_repoUrl : option string;
  part_commitSha : option string;
  part_size : option Z;
  part_cachedAt : option string }.

Record CachedRepo := {
  cached_content : string;
  cached_metadata : RepoMetadata }.

Record RepoProcessResult := {
  res_cacheKey : string;
  res_fromCache : bool;
  res_repoUrl : option string;
  res_commitSha : option string;
  res_size : option Z;
  res_cachedAt : option string }.

Inductive Role := system | user | assistant | tool.

Record ToolCall := {
  tc_id : string;
  tc_type : string;
  tc_function_name : string;
  tc_function_arguments : string }.

(** [content] is [None] where the provider sends [null] (an assistant
    message that only carries tool calls). *)
Record ChatMessage := {
  msg_role : Role;
  msg_content : option string;
  msg_tool_call_id : option string;
  msg_tool_calls : option (list ToolCall) }.

(** The two properties of [arguments: Record<string, any>] the program
    reads. *)
Record ToolArguments := {
  arg_repoUrl : string;
  arg_forceRefresh : option bool }.

Record ParsedToolCall := {
  call_id : string;
  call_name : string;
  call_arguments : ToolArguments }.

Record ToolCallResult := {
  tcr_tool : string;
  tcr_arguments : ToolArguments;
  tcr_result : option RepoProcessResult;
  tcr_error : option string }.

Record TokenUsage := {
  prompt_tokens : Z;
  completion_tokens : Z;
  total_tokens : Z }.

Record GroqChatResponse := {
  gr_message : ChatMessage;
  gr_usage : TokenUsage;
  gr_finishReason : string }.

Record ChatRequest := {
  req_message : string;
  req_cacheKey : option string;
  req_apiKey : option string;
  req_conversationHistory : option (list ChatMessage) }.

Record ChatResponse := {
  resp_response : string;
  resp_toolCalls : option (list ToolCallResult);
  resp_usage : option TokenUsage;
  resp_cacheKey : option string }.

Record RepoPackRequest := {
  pack_repoUrl : string;
  pack_forceRefresh : option bool }.

Record RepoPackResponse := {
  pr_success : bool;
  pr_cacheKey : option string;
  pr_fromCache : option bool;
  pr_metadata : option RepoMetadata;
  pr_error : option string }.

Record PropertySpec := {
  ps_type : string;
  ps_description : string;
  ps_default : option bool }.

Record ToolDefinition := {
  td_type : string;
  td_name : string;
  td_description : string;
  td_properties : list (string * PropertySpec);
  td_required : list string }.

(** [src/tools/definitions.ts] *)
Definition toolDefinitions : list ToolDefinition :=
  [ {| td_type := "function";
       td_name := "pack_repository";
       td_description := "Pack a GitHub repository into context for analysis. Use this when the user provides a GitHub URL or asks to analyze a repository.";
       td_properties :=
         [ ("repoUrl",
            {| ps_type := "string";
               ps_description := "The GitHub repository URL (e.g., https://github.com/user/repo)";
               ps_default := None |});
           ("forceRefresh",
            {| ps_type := "boolean";
               ps_description := "Force re-packing even if cached version exists";
               ps_default := Some false |}) ];
       td_required := ["repoUrl"] |} ].

(** ** The world outside the program *)

Inductive Node :=
| File (data : string)
| Dir.

Inductive Level := LogLevel | WarnLevel | ErrorLevel.

(** What [fetch] resolves to: [ok] and what [response.json()] gives, the
    [sha] property of the body or [None] when the body does not parse.
    A body that parses without holding a [sha] is not modelled. *)
Record Response := {
  resp_ok : bool;
  resp_json_sha : option string }.

(** [git clone] either fails or leaves a checkout: the files it holds,
    by their path below the target directory. *)
Inductive CloneOutcome :=
| CloneFailed (msg : string)
| CloneDone (files : list (string * string)).

(** [repomix] either fails or exits normally, having written the output
    file or not. *)
Inductive RepomixOutcome :=
| RepomixFailed (msg : string)
| RepomixDone (output : option string).

Record CompletionChoice := {
  choice_message : ChatMessage;
  choice_finish_reason : option string }.

Record Completion := {
  comp_choices : list CompletionChoice;
  comp_usage : option TokenUsage }.

Record CompletionParams := {
  param_model : string;
  param_messages : list ChatMessage;
  param_temperature : string;
  param_max_tokens : Z;
  param_tools : option (list ToolDefinition);
  param_tool_choice : option string }.

(** Every interaction with the outside, in the order it happened
    (newest first in [trace]); a subprocess is recorded with whether it
    exited normally. *)
Inductive Event :=
| EvMkdir (path : string)
| EvAccess (path : string)
| EvReadFile (path : string)
| EvWriteFile (path data : string)
| EvRm (path : string)
| EvFetch (url : string)
| EvGitClone (url path : string) (ok : bool)
| EvGitRevParse (path : string) (ok : bool)
| EvRepomix (path output : string) (ok : bool)
| EvGroq (params : CompletionParams)
| EvConsole (level : Level) (text : string).

Record Env := {
  env_TEMP_DIR : option string;
  env_CACHE_DIR : option string;
  env_GROQ_API_KEY : option string;
  net_fetch : nat -> string -> Res Response;
  exec_git_clone : nat -> string -> string -> CloneOutcome;
  exec_git_rev_parse : nat -> string -> Res string;
  exec_repomix : nat -> string -> string -> RepomixOutcome;
  groq_create : nat -> string -> CompletionParams -> Res Completion;
  Date_now : nat -> N;
  Date_toISOString : nat -> string;
  JSON_stringify_metadata : RepoMetadata -> string;
  JSON_parse_metadata : string -> option RepoMetadata;
  JSON_stringify_result : RepoProcessResult -> string;
  JSON_parse_arguments : string -> option ToolArguments }.

Record World := {
  fs : gmap string Node;
  trace : list Event }.

Definition M (A : Type) : Type := Eff World A.

Definition emit (e : Event) : M unit :=
  modify (fun w => {| fs := fs w; trace := e :: trace w |}).

(** The number of interactions so far, which the oracles are asked at. *)
Definition tick : M nat := gets (fun w => List.length (trace w)).

Definition set_fs (f : gmap string Node -> gmap string Node) : M unit :=
  modify (fun w => {| fs := f (fs w); trace := trace w |}).

Definition console (level : Level) (text : string) : M unit :=
  emit (EvConsole level text).

(** [value || fallback] for an optional string. *)
Definition string_or (value : option string) (fallback : string) : string :=
  match value with
  | Some s => Str.or_else s fallback
  | None => fallback
  end.

Definition truthy (value : option string) : bool :=
  match value with
  | Some (String _ _) => true
  | _ => false
  end.

(** *** Paths and the file system *)

Module Fs.

(** [path.join(dir, name)]; a path is identified with its string.  The
    string is not normalised: two strings that the operating system
    resolves to one file, as [k] and [./k], are two paths here.  A key
    derived by [generateCacheKey] and a generated workspace name lead
    to no such pair; a key taken from a request may. *)
Definition join (dir name : string) : string := dir +:+ "/" +:+ name.

(** [p] is [root] or lies below it. *)
Definition under (root p : string) : bool :=
  String.eqb p root || Str.starts_with (root +:+ "/") p.

(** The directory part of a path: what precedes its last separator. *)
Fixpoint parent (p : string) : string :=
  match p with
  | EmptyString => EmptyString
  | String c p' =>
      if Str.includes "/" p' then String c (parent p')
      else EmptyString
  end.

(** The proper ancestors of a path, outermost first. *)
Fixpoint ancestors_from (done_ : string) (p : string) : list string :=
  match p with
  | EmptyString => []
  | String c p' =>
      let rest := ancestors_from (done_ +:+ String c EmptyString) p' in
      if Ascii.eqb c "/" then
        match done_ with
        | EmptyString => rest
        | _ => done_ :: rest
        end
      else rest
  end.

Definition ancestors (p : string) : list string := ancestors_from EmptyString p.

Definition is_file (m : gmap string Node) (p : string) : bool :=
  match m !! p with Some (File _) => true | _ => false end.

Definition is_dir (m : gmap string Node) (p : string) : bool :=
  match m !! p with Some Dir => true | _ => false end.

Definition parent_ok (m : gmap string Node) (p : string) : bool :=
  match parent p with
  | EmptyString => true
  | q => is_dir m q
  end.

Definition make_dirs (ps : list string) (m : gmap string Node) : gmap string Node :=
  foldr (fun q acc => <[q := Dir]> acc) m ps.

Definition remove_tree (root : string) (m : gmap string Node) : gmap string Node :=
  filter (fun kv => under root (fst kv) = false) m.

Definition put_files (root : string) (files : list (string * string))
    (m : gmap string Node) : gmap string Node :=
  foldr (fun rd acc => <[join root (fst rd) := File (snd rd)]> acc) m files.

(** [fs.mkdir(p, { recursive: true })]: existing directories are no
    error; a regular file on the way to [p] is [ENOTDIR], one at [p]
    itself is [EEXIST]. *)
Definition mkdir (p : string) : M unit :=
  emit (EvMkdir p) ;;;
  m <- gets fs ;;
  if existsb (is_file m) (ancestors p)
  then throw ("ENOTDIR: not a directory, mkdir '" +:+ p +:+ "'")
  else if is_file m p
  then throw ("EEXIST: file already exists, mkdir '" +:+ p +:+ "'")
  else set_fs (make_dirs (ancestors p ++ [p])%list).

(** [fs.access(p)] *)
Definition access (p : string) : M unit :=
  emit (EvAccess p) ;;;
  m <- gets fs ;;
  match m !! p with
  | Some _ => ret tt
  | None => throw ("ENOENT: no such file or directory, access '" +:+ p +:+ "'")
  end.

(** [fs.readFile(p, 'utf-8')] *)
Definition readFile (p : string) : M string :=
  emit (EvReadFile p) ;;;
  m <- gets fs ;;
  match m !! p with
  | Some (File data) => ret data
  | Some Dir => throw "EISDIR: illegal operation on a directory, read"
  | None => throw ("ENOENT: no such file or directory, open '" +:+ p +:+ "'")
  end.

(** [fs.writeFile(p, data)] *)
Definition writeFile (p data : string) : M unit :=
  emit (EvWriteFile p data) ;;;
  m <- gets fs ;;
  if is_dir m p
  then throw ("EISDIR: illegal operation on a directory, open '" +:+ p +:+ "'")
  else if parent_ok m p
  then set_fs (insert p (File data))
  else throw ("ENOENT: no such file or directory, open '" +:+ p +:+ "'").

(** [fs.rm(p, { recursive: true, force: true })]: with [force] a missing
    path is no error.  The failures the operating system may still
    report for a tree that exists are not modelled. *)
Definition rm (p : string) : M unit :=
  emit (EvRm p) ;;;
  set_fs (remove_tree p).

(** [fs.rm(p, { force: true })]: [force] forgives a missing path and
    nothing else.  A regular file on the way to [p] is [ENOTDIR], and a
    directory at [p] is an error since [recursive] is not set. *)
Definition rm_force (p : string) : M unit :=
  emit (EvRm p) ;;;
  m <- gets fs ;;
  if existsb (is_file m) (ancestors p)
  then throw ("ENOTDIR: not a directory, lstat '" +:+ p +:+ "'")
  else if is_dir m p
  then throw ("Path is a directory: rm returned EISDIR (is a directory) " +:+ p)
  else set_fs (delete p).

End Fs.

(** *** The clock, the network and the subprocesses *)

Definition Date_now_ (env : Env) : M N :=
  n <- tick ;; ret (Date_now env n).

Definition new_Date_toISOString (env : Env) : M string :=
  n <- tick ;; ret (Date_toISOString env n).

Definition fetch (env : Env) (url : string) : M Response :=
  n <- tick ;;
  emit (EvFetch url) ;;;
  match net_fetch env n url with
  | Ok r => ret r
  | Err e => throw e
  end.

(** [response.json()] followed by [.sha] *)
Definition json_sha (r : Response) : M string :=
  match resp_json_sha r with
  | Some sha => ret sha
  | None => throw "Unexpected end of JSON input"
  end.

(** [execAsync(`git clone --depth 1 ${repoUrl} ${repoPath}`)]: the
    command line is taken to hand git the URL and the path as its two
    arguments, as it does for a URL without blanks and shell
    metacharacters, and what the command leaves behind is an oracle's
    answer. *)
Definition git_clone (env : Env) (repoUrl repoPath : string) : M unit :=
  n <- tick ;;
  match exec_git_clone env n repoUrl repoPath with
  | CloneFailed e =>
      emit (EvGitClone repoUrl repoPath false) ;;;
      throw e
  | CloneDone files =>
      emit (EvGitClone repoUrl repoPath true) ;;;
      set_fs (fun m => Fs.put_files repoPath files (<[repoPath := Dir]> m))
  end.

(** [execAsync(`git -C ${repoPath} rev-parse HEAD`)], its [stdout] *)
Definition git_rev_parse (env : Env) (repoPath : string) : M string :=
  n <- tick ;;
  match exec_git_rev_parse env n repoPath with
  | Ok out => emit (EvGitRevParse repoPath true) ;;; ret out
  | Err e => emit (EvGitRevParse repoPath false) ;;; throw e
  end.

(** [execAsync(`repomix ${repoPath} -o ${outputPath}`)] *)
Definition repomix (env : Env) (repoPath outputPath : string) : M unit :=
  n <- tick ;;
  match exec_repomix env n repoPath outputPath with
  | RepomixFailed e =>
      emit (EvRepomix repoPath outputPath false) ;;;
      throw e
  | RepomixDone output =>
      emit (EvRepomix repoPath outputPath true) ;;;
      match output with
      | Some data => set_fs (insert outputPath (File data))
      | None => ret tt
      end
  end.

(** ** [RepomixService] ([src/services/repomix.ts]) *)

Record RepomixService := {
  tempDir : string;
  cacheDir : string }.

(** The constructor: [process.env.TEMP_DIR || './temp'] and
    [process.env.CACHE_DIR || './cache']. *)
Definition new_RepomixService (env : Env) : RepomixService :=
  {| tempDir := string_or (env_TEMP_DIR env) "./temp";
     cacheDir := string_or (env_CACHE_DIR env) "./cache" |}.

Definition init (self : RepomixService) : M unit :=
  Fs.mkdir (tempDir self) ;;;
  Fs.mkdir (cacheDir self).

(** [/github\.com\/([^\/]+)\/([^\/]+)/] tried at the head of [s]: both
    groups are greedy and cannot give a character back, since what must
    follow the first one is the separator it stops at. *)
Definition github_groups_here (s : string) : option (string * string) :=
  if Str.starts_with "github.com/" s then
    let '(owner, rest) := Str.span_not "/" (Str.drop 11 s) in
    match owner, rest with
    | String _ _, String _ rest' =>
        let '(repo, _) := Str.span_not "/" rest' in
        match repo with
        | String _ _ => Some (owner, repo)
        | EmptyString => None
        end
    | _, _ => None
    end
  else None.

(** [repoUrl.match(...)]: the leftmost position at which the pattern
    matches. *)
Fixpoint match_github (s : string) : option (string * string) :=
  match github_groups_here s with
  | Some groups => Some groups
  | None =>
      match s with
      | EmptyString => None
      | String _ s' => match_github s'
      end
  end.

Definition commits_url (owner cleanRepo branch : string) : string :=
  "https://api.github.com/repos/" +:+ owner +:+ "/" +:+ cleanRepo
    +:+ "/commits/" +:+ branch.

Definition getLatestCommitShaFromGithub (env : Env) (repoUrl : string) : M string :=
  try_catch
    (match match_github repoUrl with
     | None => throw "Invalid GitHub URL"
     | Some (owner, repo) =>
         let cleanRepo := Str.replace ".git" EmptyString repo in
         let apiUrl := commits_url owner cleanRepo "main" in
         response <- fetch env apiUrl ;;
         if negb (resp_ok response) then
           masterResponse <- fetch env (commits_url owner cleanRepo "master") ;;
           if negb (resp_ok masterResponse) then
             throw "Could not fetch commit info from GitHub"
           else json_sha masterResponse
         else json_sha response
     end)
    (fun error =>
       console WarnLevel ("Could not get commit SHA from GitHub API: " +:+ error) ;;;
       ret "latest").

(** [commitSha] defaults to ['latest'] when the argument is omitted. *)
Definition generateCacheKey (repoUrl : string) (commitSha : option string) : string :=
  let commitSha := default "latest" commitSha in
  let combined := repoUrl +:+ ":" +:+ commitSha in
  Sha256.sha256_hex combined.

Definition cloneRepo (env : Env) (self : RepomixService) (repoUrl : string) : M string :=
  let repoName :=
    Str.or_else (Str.replace ".git" EmptyString (Str.last_segment "/" repoUrl EmptyString)) "repo" in
  timestamp <- Date_now_ env ;;
  let repoPath := Fs.join (tempDir self) (repoName +:+ "-" +:+ Str.of_N timestamp) in
  try_catch
    (console LogLevel ("Cloning " +:+ repoUrl +:+ " to " +:+ repoPath +:+ "...") ;;;
     git_clone env repoUrl repoPath ;;;
     ret repoPath)
    (fun error => throw ("Failed to clone repository: " +:+ error)).

Definition getCommitSha (env : Env) (repoPath : string) : M string :=
  try_catch
    (stdout <- git_rev_parse env repoPath ;;
     ret (Str.trim stdout))
    (fun error =>
       console WarnLevel ("Could not get commit SHA: " +:+ error) ;;;
       ret "latest").

Definition packRepo (env : Env) (repoPath : string) : M string :=
  try_catch
    (let outputPath := Fs.join repoPath "repomix-output.txt" in
     console LogLevel ("Running repomix on " +:+ repoPath +:+ "...") ;;;
     repomix env repoPath outputPath ;;;
     Fs.access outputPath ;;;
     ret outputPath)
    (fun error => throw ("Failed to pack repository: " +:+ error)).

Definition readPackedRepo (filePath : string) : M string :=
  try_catch
    (content <- Fs.readFile filePath ;;
     ret content)
    (fun error => throw ("Failed to read packed repo: " +:+ error)).

Definition cachePath_of (self : RepomixService) (cacheKey : string) : string :=
  Fs.join (cacheDir self) (cacheKey +:+ ".txt").

Definition metadataPath_of (self : RepomixService) (cacheKey : string) : string :=
  Fs.join (cacheDir self) (cacheKey +:+ ".json").

Definition content_length (content : string) : Z :=
  Z.of_nat (String.length content).

(** [fullMetadata] of [saveToCache]: the caller's [size] is not read. *)
Definition fullMetadata_of (metadata : PartialRepoMetadata) (content now : string)
    : RepoMetadata :=
  {| meta_repoUrl := string_or (part_repoUrl metadata) EmptyString;
     meta_commitSha := string_or (part_commitSha metadata) EmptyString;
     meta_size := content_length content;
     meta_cachedAt := now |}.

Definition saveToCache (env : Env) (self : RepomixService)
    (cacheKey content : string) (metadata : PartialRepoMetadata) : M string :=
  let cachePath := cachePath_of self cacheKey in
  let metadataPath := metadataPath_of self cacheKey in
  try_catch
    (Fs.writeFile cachePath content ;;;
     now <- new_Date_toISOString env ;;
     let fullMetadata := fullMetadata_of metadata content now in
     Fs.writeFile metadataPath (JSON_stringify_metadata env fullMetadata) ;;;
     ret cachePath)
    (fun error => throw ("Failed to save to cache: " +:+ error)).

(** [JSON.parse] at the type the source assigns its result to. *)
Definition JSON_parse_ (env : Env) (text : string) : M RepoMetadata :=
  match JSON_parse_metadata env text with
  | Some m => ret m
  | None => throw "Unexpected token in JSON"
  end.

(** The metadata [loadFromCache] starts from, kept when the sidecar
    cannot be used. *)
Definition synthesized_metadata (content now : string) : RepoMetadata :=
  {| meta_repoUrl := EmptyString;
     meta_commitSha := EmptyString;
     meta_size := content_length content;
     meta_cachedAt := now |}.

Definition loadFromCache (env : Env) (self : RepomixService) (cacheKey : string)
    : M (option CachedRepo) :=
  let cachePath := cachePath_of self cacheKey in
  let metadataPath := metadataPath_of self cacheKey in
  try_catch
    (Fs.access cachePath ;;;
     content <- Fs.readFile cachePath ;;
     now <- new_Date_toISOString env ;;
     let metadata0 := synthesized_metadata content now in
     metadata <- try_catch
                   (metadataContent <- Fs.readFile metadataPath ;;
                    JSON_parse_ env metadataContent)
                   (fun _ => ret metadata0) ;;
     ret (Some {| cached_content := content; cached_metadata := metadata |}))
    (fun _ => ret None).

Definition cleanup (repoPath : string) : M unit :=
  try_catch
    (Fs.rm repoPath ;;;
     console LogLevel ("Cleaned up " +:+ repoPath))
    (fun error =>
       console WarnLevel ("Failed to cleanup " +:+ repoPath +:+ ": " +:+ error)).

(** [{ cacheKey, fromCache: true, ...cached.metadata }] *)
Definition result_from_cache (cacheKey : string) (cached : CachedRepo)
    : RepoProcessResult :=
  let metadata := cached_metadata cached in
  {| res_cacheKey := cacheKey;
     res_fromCache := true;
     res_repoUrl := Some (meta_repoUrl metadata);
     res_commitSha := Some (meta_commitSha metadata);
     res_size := Some (meta_size metadata);
     res_cachedAt := Some (meta_cachedAt metadata) |}.

(** The body of the [try] block of [processRepo] once [repoPath] is
    assigned. *)
Definition processRepo_cloned (env : Env) (self : RepomixService)
    (repoUrl : string) (forceRefresh : bool) (repoPath : string)
    : M RepoProcessResult :=
  commitSha <- getCommitSha env repoPath ;;
  let cacheKey := generateCacheKey repoUrl (Some commitSha) in
  cached <- (if negb forceRefresh then loadFromCache env self cacheKey
             else ret None) ;;
  match cached with
  | Some cached =>
      console LogLevel "Using cached version" ;;;
      cleanup repoPath ;;;
      ret (result_from_cache cacheKey cached)
  | None =>
      packedPath <- packRepo env repoPath ;;
      content <- readPackedRepo packedPath ;;
      let metadata :=
        {| part_repoUrl := Some repoUrl;
           part_commitSha := Some commitSha;
           part_size := Some (content_length content);
           part_cachedAt := None |} in
      saveToCache env self cacheKey content metadata ;;;
      cleanup repoPath ;;;
      ret {| res_cacheKey := cacheKey;
             res_fromCache := false;
             res_repoUrl := Some repoUrl;
             res_commitSha := Some commitSha;
             res_size := Some (content_length content);
             res_cachedAt := None |}
  end.

(** The [try]/[catch] of [processRepo].  [repoPath] is still [undefined]
    when [cloneRepo] is what throws, and then the handler only rethrows;
    once it is assigned the handler cleans it up before rethrowing. *)
Definition processRepo_fetch (env : Env) (self : RepomixService)
    (repoUrl : string) (forceRefresh : bool) : M RepoProcessResult :=
  repoPath <- cloneRepo env self repoUrl ;;
  try_catch
    (processRepo_cloned env self repoUrl forceRefresh repoPath)
    (fun error =>
       (if truthy (Some repoPath) then cleanup repoPath else ret tt) ;;;
       throw error).

Definition processRepo (env : Env) (self : RepomixService)
    (repoUrl : string) (forceRefresh : bool) : M RepoProcessResult :=
  init self ;;;
  commitSha <- getLatestCommitShaFromGithub env repoUrl ;;
  let cacheKey := generateCacheKey repoUrl (Some commitSha) in
  cached <- (if negb forceRefresh then loadFromCache env self cacheKey
             else ret None) ;;
  match cached with
  | Some cached =>
      console LogLevel "Using cached version" ;;;
      ret (result_from_cache cacheKey cached)
  | None => processRepo_fetch env self repoUrl forceRefresh
  end.

(** ** [GroqService] *)

Record GroqService := {
  groq_apiKey : string;
  groq_model : string }.

(** The constructor: [apiKey] defaults to [process.env.GROQ_API_KEY || '']
    when the argument is [undefined]. *)
Definition new_GroqService {S} (env : Env) (apiKey : option string) : Eff S GroqService :=
  let apiKey :=
    match apiKey with
    | Some k => k
    | None => string_or (env_GROQ_API_KEY env) EmptyString
    end in
  match apiKey with
  | EmptyString => throw "Groq API key is required"
  | _ => ret {| groq_apiKey := apiKey; groq_model := "llama-3.3-70b-versatile" |}
  end.

Definition system_message (repoContext : option string) : ChatMessage :=
  {| msg_role := system;
     msg_content :=
       Some (match repoContext with
             | Some (String _ _ as ctx) =>
                 "You are an expert developer assistant. You have access to a packed repository context below. Use this context to answer questions about the codebase accurately.

<REPO_CONTEXT>
" +:+ ctx +:+ "
</REPO_CONTEXT>"
             | _ =>
                 "You are an expert developer assistant. Help users understand and work with their code."
             end);
     msg_tool_call_id := None;
     msg_tool_calls := None |}.

Definition usage_of (u : option TokenUsage) : TokenUsage :=
  match u with
  | Some u => u
  | None => {| prompt_tokens := 0; completion_tokens := 0; total_tokens := 0 |}
  end.

Definition completions_create (env : Env) (self : GroqService)
    (params : CompletionParams) : M Completion :=
  n <- tick ;;
  emit (EvGroq params) ;;;
  match groq_create env n (groq_apiKey self) params with
  | Ok c => ret c
  | Err e => throw e
  end.

Definition chat (env : Env) (self : GroqService) (messages : list ChatMessage)
    (tools : option (list ToolDefinition)) (repoContext : option string)
    : M GroqChatResponse :=
  try_catch
    (let systemMessage := system_message repoContext in
     let allMessages := systemMessage :: messages in
     let with_tools :=
       match tools with
       | Some (_ :: _) => true
       | _ => false
       end in
     let params :=
       {| param_model := groq_model self;
          param_messages := allMessages;
          param_temperature := "0.7";
          param_max_tokens := 8000;
          param_tools := if with_tools then tools else None;
          param_tool_choice := if with_tools then Some "auto" else None |} in
     completion <- completions_create env self params ;;
     match comp_choices completion with
     | [] => throw "Cannot read properties of undefined (reading 'message')"
     | choice :: _ =>
         ret {| gr_message := choice_message choice;
                gr_usage := usage_of (comp_usage completion);
                gr_finishReason := string_or (choice_finish_reason choice) "stop" |}
     end)
    (fun error =>
       console ErrorLevel ("Groq API error: " +:+ error) ;;;
       throw ("Groq API failed: " +:+ error)).

Definition hasToolCalls (message : ChatMessage) : bool :=
  match msg_tool_calls message with
  | Some (_ :: _) => true
  | _ => false
  end.

(** [message.tool_calls.map(...)]: the first [JSON.parse] that throws
    ends the mapping. *)
Fixpoint parse_calls {S} (env : Env) (calls : list ToolCall) : Eff S (list ParsedToolCall) :=
  match calls with
  | [] => ret []
  | call :: rest =>
      match JSON_parse_arguments env (tc_function_arguments call) with
      | None => throw "Unexpected token in JSON"
      | Some args =>
          parsed <- parse_calls env rest ;;
          ret ({| call_id := tc_id call;
                  call_name := tc_function_name call;
                  call_arguments := args |} :: parsed)
      end
  end.

Definition parseToolCalls {S} (env : Env) (message : ChatMessage)
    : Eff S (list ParsedToolCall) :=
  if negb (hasToolCalls message) then ret []
  else parse_calls env (default [] (msg_tool_calls message)).

(** ** The chat route ([POST /api/chat]) *)

(** The variables of the handler that the tool loop assigns. *)
Record Locals := {
  messages : list ChatMessage;
  response : GroqChatResponse;
  toolCalls : list ToolCallResult;
  finalCacheKey : option string }.

(** The handler runs over its variables and the world. *)
Definition H (A : Type) : Type := Eff (Locals * World) A.

(** [await] of a service method inside the handler. *)
Definition await {A} (m : M A) : H A :=
  fun s => let '(r, w) := m (snd s) in (r, (fst s, w)).

Definition assign (f : Locals -> Locals) : H unit :=
  modify (fun s => (f (fst s), snd s)).

Definition read {A} (f : Locals -> A) : H A := gets (fun s => f (fst s)).

Definition push_toolCall (r : ToolCallResult) (l : Locals) : Locals :=
  {| messages := messages l; response := response l;
     toolCalls := (toolCalls l ++ [r])%list; finalCacheKey := finalCacheKey l |}.

Definition push_message (m : ChatMessage) (l : Locals) : Locals :=
  {| messages := (messages l ++ [m])%list; response := response l;
     toolCalls := toolCalls l; finalCacheKey := finalCacheKey l |}.

Definition set_response (r : GroqChatResponse) (l : Locals) : Locals :=
  {| messages := messages l; response := r;
     toolCalls := toolCalls l; finalCacheKey := finalCacheKey l |}.

Definition set_finalCacheKey (k : option string) (l : Locals) : Locals :=
  {| messages := messages l; response := response l;
     toolCalls := toolCalls l; finalCacheKey := k |}.

Definition tool_message (env : Env) (call : ParsedToolCall) (result : RepoProcessResult)
    : ChatMessage :=
  {| msg_role := tool;
     msg_content := Some (JSON_stringify_result env result);
     msg_tool_call_id := Some (call_id call);
     msg_tool_calls := None |}.

(** The body of [for (const call of parsedCalls)]. *)
Definition handle_call (env : Env) (groqService : GroqService)
    (repomixService : RepomixService) (call : ParsedToolCall) : H unit :=
  if String.eqb (call_name call) "pack_repository" then
    try_catch
      (result <- await (processRepo env repomixService
                          (arg_repoUrl (call_arguments call))
                          (default false (arg_forceRefresh (call_arguments call)))) ;;
       assign (push_toolCall
                 {| tcr_tool := call_name call;
                    tcr_arguments := call_arguments call;
                    tcr_result := Some result;
                    tcr_error := None |}) ;;;
       current <- read response ;;
       assign (push_message (gr_message current)) ;;;
       assign (push_message (tool_message env call result)) ;;;
       cachedData <- await (loadFromCache env repomixService (res_cacheKey result)) ;;
       match cachedData with
       | Some cachedData =>
           msgs <- read messages ;;
           second <- await (chat env groqService msgs None
                              (Some (cached_content cachedData))) ;;
           assign (set_response second) ;;;
           assign (set_finalCacheKey (Some (res_cacheKey result)))
       | None => ret tt
       end)
      (fun error =>
         assign (push_toolCall
                   {| tcr_tool := call_name call;
                      tcr_arguments := call_arguments call;
                      tcr_result := None;
                      tcr_error := Some error |}))
  else ret tt.

Fixpoint for_each {S A} (l : list A) (body : A -> Eff S unit) : Eff S unit :=
  match l with
  | [] => ret tt
  | x :: rest => body x ;;; for_each rest body
  end.

Inductive ChatBody :=
| ChatJson (r : ChatResponse)
| ChatError (error : string).

Record ChatHttp := {
  chat_status : nat;
  chat_body : ChatBody }.

(** What follows the first model call: the tool loop and the response. *)
Definition chat_tools_and_reply (env : Env) (groqService : GroqService)
    (repomixService : RepomixService) : H ChatHttp :=
  first <- read response ;;
  (if hasToolCalls (gr_message first) then
     parsedCalls <- parseToolCalls env (gr_message first) ;;
     for_each parsedCalls (handle_call env groqService repomixService)
   else ret tt) ;;;
  l <- read id ;;
  let chatResponse :=
    {| resp_response := string_or (msg_content (gr_message (response l))) EmptyString;
       resp_toolCalls :=
         match toolCalls l with
         | [] => None
         | _ :: _ => Some (toolCalls l)
         end;
       resp_usage := Some (gr_usage (response l));
       resp_cacheKey := finalCacheKey l |} in
  ret {| chat_status := 200; chat_body := ChatJson chatResponse |}.

(** Runs a handler over its variables and gives back a method. *)
Definition with_locals {A} (init_ : Locals) (h : H A) : M A :=
  fun w => let '(r, s) := h (init_, w) in (r, snd s).

Definition chat_handler (env : Env) (body : ChatRequest) : M ChatHttp :=
  try_catch
    (match req_message body with
     | EmptyString =>
         ret {| chat_status := 400; chat_body := ChatError "Message is required" |}
     | message =>
         groqService <- new_GroqService env (req_apiKey body) ;;
         let repomixService := new_RepomixService env in
         let messages0 :=
           (default [] (req_conversationHistory body)
              ++ [ {| msg_role := user; msg_content := Some message;
                      msg_tool_call_id := None; msg_tool_calls := None |} ])%list in
         preload <-
           (if truthy (req_cacheKey body) then
              cached <- loadFromCache env repomixService
                          (default EmptyString (req_cacheKey body)) ;;
              match cached with
              | Some cached => ret (Some (cached_content cached), req_cacheKey body)
              | None => ret (None, None)
              end
            else ret (None, req_cacheKey body)) ;;
         let '(repoContext, currentCacheKey) := preload in
         first <- chat env groqService messages0 (Some toolDefinitions) repoContext ;;
         with_locals
           {| messages := messages0; response := first;
              toolCalls := []; finalCacheKey := currentCacheKey |}
           (chat_tools_and_reply env groqService repomixService)
     end)
    (fun error =>
       console ErrorLevel ("Chat error: " +:+ error) ;;;
       ret {| chat_status := 500; chat_body := ChatError error |}).

(** ** The pack route ([POST /api/repo/pack]) *)

Record PackHttp := {
  pack_status : nat;
  pack_body : RepoPackResponse + string }.

Definition pack_handler (env : Env) (body : RepoPackRequest) : M PackHttp :=
  try_catch
    (let repoUrl := pack_repoUrl body in
     let forceRefresh := default false (pack_forceRefresh body) in
     match repoUrl with
     | EmptyString =>
         ret {| pack_status := 400; pack_body := inr "repoUrl is required" |}
     | _ =>
         if negb (Str.includes "github.com" repoUrl) then
           ret {| pack_status := 400;
                  pack_body := inr "Only GitHub URLs are supported currently" |}
         else
           let repomixService := new_RepomixService env in
           result <- processRepo env repomixService repoUrl forceRefresh ;;
           now <- new_Date_toISOString env ;;
           ret {| pack_status := 200;
                  pack_body :=
                    inl {| pr_success := true;
                           pr_cacheKey := Some (res_cacheKey result);
                           pr_fromCache := Some (res_fromCache result);
                           pr_metadata :=
                             Some {| meta_repoUrl := string_or (res_repoUrl result) EmptyString;
                                     meta_commitSha := string_or (res_commitSha result) EmptyString;
                                     meta_size := default 0%Z (res_size result);
                                     meta_cachedAt := string_or (res_cachedAt result) now |};
                           pr_error := None |} |}
     end)
    (fun error =>
       console ErrorLevel ("Pack error: " +:+ error) ;;;
       ret {| pack_status := 500;
              pack_body := inl {| pr_success := false; pr_cacheKey := None;
                                  pr_fromCache := None; pr_metadata := None;
                                  pr_error := Some error |} |}).

(** ** The cache routes ([GET /api/repo/status/:cacheKey] and
    [DELETE /api/repo/cache/:cacheKey]) *)

Record RepoStatusResponse := {
  st_exists : bool;
  st_cacheKey : string;
  st_metadata : option RepoMetadata }.

Record StatusHttp := {
  status_status : nat;
  status_body : RepoStatusResponse + string }.

Definition status_handler (env : Env) (cacheKey : string) : M StatusHttp :=
  try_catch
    (let repomixService := new_RepomixService env in
     cached <- loadFromCache env repomixService cacheKey ;;
     match cached with
     | None =>
         ret {| status_status := 404;
                status_body := inl {| st_exists := false; st_cacheKey := cacheKey;
                                      st_metadata := None |} |}
     | Some cached =>
         ret {| status_status := 200;
                status_body := inl {| st_exists := true; st_cacheKey := cacheKey;
                                      st_metadata := Some (cached_metadata cached) |} |}
     end)
    (fun error =>
       console ErrorLevel ("Status check error: " +:+ error) ;;;
       ret {| status_status := 500; status_body := inr error |}).

Inductive DeleteBody :=
| DeleteDone (success : bool) (message : string)
| DeleteError (error : string).

Record DeleteHttp := {
  delete_status : nat;
  delete_body : DeleteBody }.

Definition delete_handler (env : Env) (cacheKey : string) : M DeleteHttp :=
  try_catch
    (let repomixService := new_RepomixService env in
     let cachePath := cacheDir repomixService +:+ "/" +:+ cacheKey +:+ ".txt" in
     let metadataPath := cacheDir repomixService +:+ "/" +:+ cacheKey +:+ ".json" in
     Fs.rm_force cachePath ;;;
     Fs.rm_force metadataPath ;;;
     ret {| delete_status := 200;
            delete_body := DeleteDone true "Cache deleted" |})
    (fun error =>
       console ErrorLevel ("Delete cache error: " +:+ error) ;;;
       ret {| delete_status := 500; delete_body := DeleteError error |}).

(** ** A sample environment

    One concrete world for the examples: a JSON codec for the texts
    [JSON.stringify(metadata, null, 2)] writes, tools that answer as a
    small scenario prescribes, and a clock that advances with every
    interaction. *)

Module Sample.

Definition dquote : ascii := "034"%char.

Definition backslash : ascii := "092"%char.

Definition newline : ascii := "010"%char.

Definition hex_nibble (n : N) : ascii :=
  if (n <? 10)%N then ascii_of_N (48 + n) else ascii_of_N (87 + n).

Definition nibble_value (c : ascii) : option N :=
  let n := N_of_ascii c in
  if ((48 <=? n) && (n <=? 57))%N then Some (n - 48)%N
  else if ((97 <=? n) && (n <=? 102))%N then Some (n - 87)%N
  else if ((65 <=? n) && (n <=? 70))%N then Some (n - 55)%N
  else None.

(** How [JSON.stringify] writes one character of a string. *)
Definition escape_char (c : ascii) : string :=
  let n := N_of_ascii c in
  if Ascii.eqb c dquote then String backslash (String dquote EmptyString)
  else if Ascii.eqb c backslash then String backslash (String backslash EmptyString)
  else if (n =? 8)%N then String backslash "b"
  else if (n =? 9)%N then String backslash "t"
  else if (n =? 10)%N then String backslash "n"
  else if (n =? 12)%N then String backslash "f"
  else if (n =? 13)%N then String backslash "r"
  else if (n <? 32)%N then
    String backslash
      (String "u" (String "0" (String "0"
         (String (hex_nibble (n / 16)) (String (hex_nibble (n mod 16)) EmptyString)))))
  else String c EmptyString.

Fixpoint escape (s : string) : string :=
  match s with
  | EmptyString => EmptyString
  | String c s' => escape_char c +:+ escape s'
  end.

Definition quote (s : string) : string :=
  String dquote (escape s +:+ String dquote EmptyString).

Definition unescape_simple (c : ascii) : option ascii :=
  if Ascii.eqb c dquote then Some dquote
  else if Ascii.eqb c backslash then Some backslash
  else if Ascii.eqb c "/" then Some "/"%char
  else if Ascii.eqb c "b" then Some "008"%char
  else if Ascii.eqb c "t" then Some "009"%char
  else if Ascii.eqb c "n" then Some "010"%char
  else if Ascii.eqb c "f" then Some "012"%char
  else if Ascii.eqb c "r" then Some "013"%char
  else None.

Definition cons_char (c : ascii) (r : option (string * string))
    : option (string * string) :=
  match r with
  | Some (s, rest) => Some (String c s, rest)
  | None => None
  end.

(** Reads a JSON string after its opening quote, up to the closing one. *)
Fixpoint read_string (s : string) : option (string * string) :=
  match s with
  | EmptyString => None
  | String c r =>
      if Ascii.eqb c dquote then Some (EmptyString, r)
      else if Ascii.eqb c backslash then
        match r with
        | String e r1 =>
            match unescape_simple e with
            | Some d => cons_char d (read_string r1)
            | None =>
                if Ascii.eqb e "u" then
                  match r1 with
                  | String h1 (String h2 (String h3 (String h4 r5))) =>
                      match nibble_value h1, nibble_value h2,
                            nibble_value h3, nibble_value h4 with
                      | Some 0%N, Some 0%N, Some a, Some b =>
                          cons_char (ascii_of_N (16 * a + b)) (read_string r5)
                      | _, _, _, _ => None
                      end
                  | _ => None
                  end
                else None
            end
        | EmptyString => None
        end
      else if (N_of_ascii c <? 32)%N then None
      else cons_char c (read_string r)
  end.

Definition expect (literal s : string) : option string :=
  if Str.starts_with literal s then Some (Str.drop (String.length literal) s)
  else None.

Definition write_number (z : Z) : string := NilEmpty.string_of_int (Z.to_int z).

Definition read_number (s : string) : option Z :=
  option_map Z.of_int (NilEmpty.int_of_string s).

Definition key_line (name : string) : string :=
  String newline ("  " +:+ String dquote (name +:+ String dquote ": ")).

(** [JSON.stringify(fullMetadata, null, 2)] *)
Definition stringify_metadata (m : RepoMetadata) : string :=
  "{" +:+ key_line "repoUrl" +:+ quote (meta_repoUrl m) +:+ ","
      +:+ key_line "commitSha" +:+ quote (meta_commitSha m) +:+ ","
      +:+ key_line "size" +:+ write_number (meta_size m) +:+ ","
      +:+ key_line "cachedAt" +:+ quote (meta_cachedAt m)
      +:+ String newline "}".

(** [JSON.parse] on such a text. *)
Definition parse_metadata (text : string) : option RepoMetadata :=
  s ← expect ("{" +:+ key_line "repoUrl" +:+ String dquote EmptyString) text;
  '(url, s) ← read_string s;
  s ← expect ("," +:+ key_line "commitSha" +:+ String dquote EmptyString) s;
  '(sha, s) ← read_string s;
  s ← expect ("," +:+ key_line "size") s;
  let '(digits, s) := Str.span_not "," s in
  size ← read_number digits;
  s ← expect ("," +:+ key_line "cachedAt" +:+ String dquote EmptyString) s;
  '(at_, s) ← read_string s;
  s ← expect (String newline "}") s;
  match s with
  | EmptyString =>
      Some {| meta_repoUrl := url; meta_commitSha := sha;
              meta_size := size; meta_cachedAt := at_ |}
  | _ => None
  end.

(** [JSON.stringify(result)] for the tool message. *)
Definition stringify_result (r : RepoProcessResult) : string :=
  "{" +:+ String dquote ("cacheKey" +:+ String dquote ":") +:+ quote (res_cacheKey r)
      +:+ "," +:+ String dquote ("fromCache" +:+ String dquote ":")
      +:+ (if res_fromCache r then "true" else "false") +:+ "}".

(** [JSON.parse] on the arguments of a tool call, written
    [{"repoUrl":"..."}] or with [,"forceRefresh":true] after it. *)
Definition parse_arguments (text : string) : option ToolArguments :=
  s ← expect ("{" +:+ String dquote ("repoUrl" +:+ String dquote ":")
                 +:+ String dquote EmptyString) text;
  '(url, s) ← read_string s;
  match expect "}" s with
  | Some EmptyString => Some {| arg_repoUrl := url; arg_forceRefresh := None |}
  | _ =>
      let flag := "," +:+ String dquote ("forceRefresh" +:+ String dquote ":") in
      match expect (flag +:+ "true}") s, expect (flag +:+ "false}") s with
      | Some EmptyString, _ =>
          Some {| arg_repoUrl := url; arg_forceRefresh := Some true |}
      | _, Some EmptyString =>
          Some {| arg_repoUrl := url; arg_forceRefresh := Some false |}
      | _, _ => None
      end
  end.

Definition arguments_text (url : string) : string :=
  "{" +:+ String dquote ("repoUrl" +:+ String dquote ":") +:+ quote url +:+ "}".

(** What the scenario lets the tools do. *)
Record Scenario := {
  remote : string -> Res Response;
  clone_fails : string -> bool;
  pack_outcome : RepomixOutcome;
  first_answer : ChatMessage }.

Definition answer (text : string) (calls : list ToolCall) : ChatMessage :=
  {| msg_role := assistant;
     msg_content := Some text;
     msg_tool_call_id := None;
     msg_tool_calls := match calls with [] => None | _ => Some calls end |}.

Definition pack_call (id url : string) : ToolCall :=
  {| tc_id := id; tc_type := "function";
     tc_function_name := "pack_repository";
     tc_function_arguments := arguments_text url |}.

Definition completion (m : ChatMessage) : Completion :=
  {| comp_choices := [ {| choice_message := m; choice_finish_reason := Some "stop" |} ];
     comp_usage := Some {| prompt_tokens := 10; completion_tokens := 5;
                           total_tokens := 15 |} |}.

Definition offline (url : string) : Res Response := Err "fetch failed".

(** A clone holds one file and its HEAD is a fixed commit; the model
    answers with the scenario's first message while it is offered tools
    and with a fixed text afterwards. *)
Definition env (sc : Scenario) : Env :=
  {| env_TEMP_DIR := None;
     env_CACHE_DIR := None;
     env_GROQ_API_KEY := Some "gsk_sample";
     net_fetch := fun _ url => remote sc url;
     exec_git_clone := fun _ url _ =>
       if clone_fails sc url then CloneFailed "Command failed: git clone"
       else CloneDone [("README.md", "# sample")];
     exec_git_rev_parse := fun _ _ => Ok ("4f2a9c1e" +:+ String newline EmptyString);
     exec_repomix := fun _ _ _ => pack_outcome sc;
     groq_create := fun _ _ params =>
       match param_tools params with
       | Some _ => Ok (completion (first_answer sc))
       | None => Ok (completion (answer "answer from the repository context" []))
       end;
     Date_now := fun n => (1700000000000 + N.of_nat n)%N;
     Date_toISOString := fun _ => "2023-11-14T22:13:20.000Z";
     JSON_stringify_metadata := stringify_metadata;
     JSON_parse_metadata := parse_metadata;
     JSON_stringify_result := stringify_result;
     JSON_parse_arguments := parse_arguments |}.

Definition service : RepomixService :=
  {| tempDir := "./temp"; cacheDir := "./cache" |}.

Definition repo : string := "https://github.com/octo/demo".

Definition missing_repo : string := "https://github.com/octo/gone".

Definition gitlab_repo : string := "https://gitlab.com/octo/demo".

(** Every tool works and the hosting API is out of reach. *)
Definition all_good : Scenario :=
  {| remote := offline;
     clone_fails := fun _ => false;
     pack_outcome := RepomixDone (Some "packed text");
     first_answer := answer EmptyString [] |}.

(** The packing tool exits with an error. *)
Definition pack_fails : Scenario :=
  {| remote := offline;
     clone_fails := fun _ => false;
     pack_outcome := RepomixFailed "Command failed: repomix";
     first_answer := answer EmptyString [] |}.

(** The repository has no [main] branch but a [master] one. *)
Definition only_master : Scenario :=
  {| remote := fun url =>
       if String.eqb url (commits_url "octo" "demo" "main")
       then Ok {| resp_ok := false; resp_json_sha := None |}
       else Ok {| resp_ok := true; resp_json_sha := Some "9d1c0ffe" |};
     clone_fails := fun _ => false;
     pack_outcome := RepomixDone (Some "packed text");
     first_answer := answer EmptyString [] |}.

(** The repository has neither branch. *)
Definition no_branch : Scenario :=
  {| remote := fun _ => Ok {| resp_ok := false; resp_json_sha := None |};
     clone_fails := fun _ => false;
     pack_outcome := RepomixDone (Some "packed text");
     first_answer := answer EmptyString [] |}.

(** The model asks for two repositories, the second of which cannot
    be cloned. *)
Definition two_calls : Scenario :=
  {| remote := offline;
     clone_fails := String.eqb missing_repo;
     pack_outcome := RepomixDone (Some "packed text");
     first_answer :=
       answer "Let me look at both repositories."
         [pack_call "call_1" repo; pack_call "call_2" missing_repo] |}.

(** The model asks for one repository that cannot be cloned. *)
Definition one_failing_call : Scenario :=
  {| remote := offline;
     clone_fails := String.eqb missing_repo;
     pack_outcome := RepomixDone (Some "packed text");
     first_answer :=
       answer "Let me look at that repository." [pack_call "call_1" missing_repo] |}.

(** The model asks for a repository that is not hosted on GitHub. *)
Definition gitlab_call : Scenario :=
  {| remote := offline;
     clone_fails := fun _ => false;
     pack_outcome := RepomixDone (Some "packed text");
     first_answer :=
       answer "Let me look at that repository." [pack_call "call_1" gitlab_repo] |}.

(** The model asks for a tool the handler does not know. *)
Definition other_tool_call : Scenario :=
  {| remote := offline;
     clone_fails := fun _ => false;
     pack_outcome := RepomixDone (Some "packed text");
     first_answer :=
       answer "Searching."
         [ {| tc_id := "call_1"; tc_type := "function";
              tc_function_name := "search_code";
              tc_function_arguments := arguments_text repo |} ] |}.

Definition empty_world : World := {| fs := ∅; trace := [] |}.

(** The world once the service directories exist. *)
Definition ready_world : World :=
  {| fs := <["./cache" := Dir]> (<["./temp" := Dir]> ∅); trace := [] |}.

Definition request (text : string) : ChatRequest :=
  {| req_message := text; req_cacheKey := None; req_apiKey := None;
     req_conversationHistory := None |}.

Definition groq : GroqService :=
  {| groq_apiKey := "gsk_sample"; groq_model := "llama-3.3-70b-versatile" |}.

(** The variables of the chat handler after the first model call of a
    scenario. *)
Definition after_first_call (sc : Scenario) : Locals :=
  {| messages := [ {| msg_role := user; msg_content := Some "What is in there?";
                      msg_tool_call_id := None; msg_tool_calls := None |} ];
     response := {| gr_message := first_answer sc;
                    gr_usage := {| prompt_tokens := 10; completion_tokens := 5;
                                   total_tokens := 15 |};
                    gr_finishReason := "stop" |};
     toolCalls := [];
     finalCacheKey := None |}.

(** The world after an earlier run cached [content] for [url] at the
    unresolved revision. *)
Definition cached_world (url content : string) : World :=
  {| fs := <[cachePath_of service (generateCacheKey url (Some "latest"))
             := File content]> (<["./cache" := Dir]> ∅);
     trace := [] |}.

Definition sample_metadata : RepoMetadata :=
  {| meta_repoUrl := repo; meta_commitSha := "4f2a9c1e";
     meta_size := 11; meta_cachedAt := "2023-11-14T22:13:20.000Z" |}.

(** A cache whose entry for [key] kept its content while its sidecar
    lost all but its first forty characters. *)
Definition truncated_world (key : string) : World :=
  {| fs := <[metadataPath_of service key
             := File (String.substring 0 40 (stringify_metadata sample_metadata))]>
             (<[cachePath_of service key := File "packed text"]>
                (<["./cache" := Dir]> ∅));
     trace := [] |}.

(** The text of a chat reply and the errors of its tool calls. *)
Definition reply_text (out : Res ChatHttp) : option string :=
  match out with
  | Ok {| chat_status := _; chat_body := ChatJson r |} => Some (resp_response r)
  | _ => None
  end.

Definition reply_status (out : Res ChatHttp) : option nat :=
  match out with
  | Ok http => Some (chat_status http)
  | Err _ => None
  end.

Definition reply_errors (out : Res ChatHttp) : list (option string) :=
  match out with
  | Ok {| chat_status := _; chat_body := ChatJson r |} =>
      map tcr_error (default [] (resp_toolCalls r))
  | _ => []
  end.

(** The workspaces a trace shows as created. *)
Definition workspaces (evs : list Event) : list string :=
  flat_map (fun e => match e with
                     | EvGitClone _ path true => [path]
                     | _ => []
                     end) evs.

End Sample.

(** * The vocabulary of the properties *)

(** ** Reading a run *)

(** [w'] continues [w] by the events [evs], newest first. *)
Definition continues (w : World) (evs : list Event) (w' : World) : Prop :=
  trace w' = (evs ++ trace w)%list.

Definition is_clone (e : Event) : bool :=
  match e with EvGitClone _ _ _ => true | _ => false end.

Definition is_write (e : Event) : bool :=
  match e with EvWriteFile _ _ => true | _ => false end.

Definition is_groq (e : Event) : bool :=
  match e with EvGroq _ => true | _ => false end.

Definition is_cache_read (self : RepomixService) (e : Event) : bool :=
  match e with
  | EvAccess p | EvReadFile p => Str.starts_with (cacheDir self +:+ "/") p
  | _ => false
  end.

(** The events of a run all satisfy [allowed]. *)
Definition only (allowed : Event -> bool) (w w' : World) : Prop :=
  exists evs, continues w evs w' /\ forallb allowed evs = true.

(** Outside the paths [X] the regular files are the same in both worlds. *)
Definition same_files (X : string -> bool) (w w' : World) : Prop :=
  forall p, X p = false ->
    forall d, fs w' !! p = Some (File d) <-> fs w !! p = Some (File d).

(** A method keeps a relation between the world it starts from and the
    world it leaves, whether it returns or throws. *)
Definition preserves {S A} (R : S -> S -> Prop) (m : Eff S A) : Prop :=
  forall s, R s (snd (m s)).

Definition not_clone (e : Event) : bool := negb (is_clone e).

(** What no cache hit performs: a clone, a pack, a write, a removal. *)
Definition is_ingest (e : Event) : bool :=
  match e with
  | EvGitClone _ _ _ | EvGitRevParse _ _ | EvRepomix _ _ _
  | EvWriteFile _ _ | EvRm _ => true
  | _ => false
  end.

Definition not_ingest (e : Event) : bool := negb (is_ingest e).

Definition not_groq (e : Event) : bool := negb (is_groq e).

Definition not_write (e : Event) : bool := negb (is_write e).

Definition is_hex_char (c : ascii) : bool :=
  let n := N_of_ascii c in
  ((48 <=? n) && (n <=? 57) || (97 <=? n) && (n <=? 102))%N.

Fixpoint all_chars (f : ascii -> bool) (s : string) : bool :=
  match s with
  | EmptyString => true
  | String c s' => f c && all_chars f s'
  end.

(** The entry a key denotes in a file system, read at time [now]. *)
Definition lookup_entry (env : Env) (self : RepomixService) (m : gmap string Node)
    (key now : string) : option CachedRepo :=
  match m !! cachePath_of self key with
  | Some (File data) =>
      Some {| cached_content := data;
              cached_metadata :=
                match m !! metadataPath_of self key with
                | Some (File text) =>
                    default (synthesized_metadata data now) (JSON_parse_metadata env text)
                | _ => synthesized_metadata data now
                end |}
  | _ => None
  end.

Definition is_fs_read (e : Event) : bool :=
  match e with EvAccess _ | EvReadFile _ => true | _ => false end.

(** The sidecar of [key] is missing, is no regular file, or holds a text
    [JSON.parse] rejects (as it does a truncated one). *)
Definition sidecar_unusable (env : Env) (self : RepomixService)
    (m : gmap string Node) (key : string) : Prop :=
  match m !! metadataPath_of self key with
  | Some (File text) => JSON_parse_metadata env text = None
  | _ => True
  end.

(** [JSON.parse] gives back the record [JSON.stringify] was applied to. *)
Definition JSON_roundtrip (env : Env) : Prop :=
  forall m, JSON_parse_metadata env (JSON_stringify_metadata env m) = Some m.

(** Nodes, not only regular files, are the same outside [X]. *)
Definition same_nodes (X : string -> bool) (w w' : World) : Prop :=
  forall p, X p = false -> fs w' !! p = fs w !! p.

(** ** Cleanup on every exit *)

(** The run ended with the error [packRepo] throws. *)
Definition pack_threw {A} (out : Res A) : Prop :=
  exists e, out = Err ("Failed to pack repository: " +:+ e).

(** [later_] was emitted after [first]. *)
Definition happens_after (first later_ : Event) (evs : list Event) : Prop :=
  exists newer older, evs = (newer ++ first :: older)%list /\ In later_ newer.

(** ** Forced refresh *)

(** A remote query or a line on the console. *)
Definition is_query (e : Event) : bool :=
  match e with
  | EvFetch _ | EvGitRevParse _ _ | EvConsole _ _ => true
  | _ => false
  end.

Definition not_slash (c : ascii) : bool := negb (Ascii.eqb c "/").

(** Nothing in or below the cache directory lies in a workspace. *)
Definition cache_outside_temp (self : RepomixService) : Prop :=
  forall name p,
    Fs.under (cacheDir self) p = true ->
    Fs.under (Fs.join (tempDir self) name) p = false.

(** No file name of a cache entry is held by a directory. *)
Definition cache_files_free (self : RepomixService) (m : gmap string Node) : Prop :=
  forall key,
    Fs.is_dir m (cachePath_of self key) = false
    /\ Fs.is_dir m (metadataPath_of self key) = false.

Definition no_cache_read (self : RepomixService) (e : Event) : bool :=
  negb (is_cache_read self e).

(** ** The tool loop of the chat route *)

Definition is_pack_call (call : ParsedToolCall) : bool :=
  String.eqb (call_name call) "pack_repository".

(** The reply the handler builds from its variables. *)
Definition reply_of (l : Locals) : ChatResponse :=
  {| resp_response := string_or (msg_content (gr_message (response l))) EmptyString;
     resp_toolCalls :=
       match toolCalls l with
       | [] => None
       | _ :: _ => Some (toolCalls l)
       end;
     resp_usage := Some (gr_usage (response l));
     resp_cacheKey := finalCacheKey l |}.

Definition error_record (call : ParsedToolCall) (error : string) : ToolCallResult :=
  {| tcr_tool := call_name call;
     tcr_arguments := call_arguments call;
     tcr_result := None;
     tcr_error := Some error |}.

Definition result_record (call : ParsedToolCall) (result : RepoProcessResult)
    : ToolCallResult :=
  {| tcr_tool := call_name call;
     tcr_arguments := call_arguments call;
     tcr_result := Some result;
     tcr_error := None |}.

(** The tool calls recorded between two states of the handler, and
    what stays as it was when none of them has a result. *)
Definition recorded (s s' : Locals * World) : Prop :=
  exists new,
    toolCalls (fst s') = (toolCalls (fst s) ++ new)%list
    /\ ((forall t, In t new -> tcr_result t = None) ->
        response (fst s') = response (fst s)
        /\ messages (fst s') = messages (fst s)
        /\ finalCacheKey (fst s') = finalCacheKey (fst s)).

(** Only more tool calls are recorded. *)
Definition appends (s s' : Locals * World) : Prop :=
  exists more, toolCalls (fst s') = (toolCalls (fst s) ++ more)%list.

(** What the [try] block of [handle_call] does once the pipeline has
    returned [result] and the result is on record. *)
Definition after_record (env : Env) (groqService : GroqService)
    (repomixService : RepomixService) (call : ParsedToolCall)
    (result : RepoProcessResult) : H unit :=
  current <- read response ;;
  assign (push_message (gr_message current)) ;;;
  assign (push_message (tool_message env call result)) ;;;
  cachedData <- await (loadFromCache env repomixService (res_cacheKey result)) ;;
  match cachedData with
  | Some cachedData =>
      msgs <- read messages ;;
      second <- await (chat env groqService msgs None
                         (Some (cached_content cachedData))) ;;
      assign (set_response second) ;;;
      assign (set_finalCacheKey (Some (res_cacheKey result)))
  | None => ret tt
  end.

Definition after_result (env : Env) (groqService : GroqService)
    (repomixService : RepomixService) (call : ParsedToolCall)
    (result : RepoProcessResult) : H unit :=
  assign (push_toolCall (result_record call result)) ;;;
  after_record env groqService repomixService call result.

Definition not_comma (c : ascii) : bool := negb (Ascii.eqb c ",").

Definition missing_call : ParsedToolCall :=
  {| call_id := "call_1"; call_name := "pack_repository";
     call_arguments := {| arg_repoUrl := Sample.missing_repo;
                          arg_forceRefresh := None |} |}.

Definition search_call : ParsedToolCall :=
  {| call_id := "call_1"; call_name := "search_code";
     call_arguments := {| arg_repoUrl := Sample.repo; arg_forceRefresh := None |} |}.

(** ** More vocabulary *)

(** [p] is one of the two files of the entry of [key]. *)
Definition is_entry_file (self : RepomixService) (key p : string) : bool :=
  String.eqb p (cachePath_of self key) || String.eqb p (metadataPath_of self key).

(** A removal, if the event is one, is that of [path]. *)
Definition rm_only (path : string) (e : Event) : bool :=
  match e with
  | EvRm p => String.eqb p path
  | _ => true
  end.

Definition not_dot (c : ascii) : bool := negb (Ascii.eqb c ".").

(** The last component of a path. *)
Definition base_name (p : string) : string := Str.last_segment "/" p EmptyString.

(** Neither a run of the packing tool nor a write. *)
Definition no_pack_no_write (e : Event) : bool :=
  match e with
  | EvRepomix _ _ _ | EvWriteFile _ _ => false
  | _ => true
  end.

(** ** The chat route, step by step *)

(** The messages the chat handler starts from: the history, then the
    message of the request. *)
Definition first_messages (body : ChatRequest) : list ChatMessage :=
  (default [] (req_conversationHistory body)
     ++ [ {| msg_role := user; msg_content := Some (req_message body);
             msg_tool_call_id := None; msg_tool_calls := None |} ])%list.

(** The variables of the handler when the tool loop begins. *)
Definition first_locals (body : ChatRequest) (first : GroqChatResponse)
    (currentCacheKey : option string) : Locals :=
  {| messages := first_messages body; response := first;
     toolCalls := []; finalCacheKey := currentCacheKey |}.

(** The context and the key the handler goes on with, given what the
    cache holds under the key of the request. *)
Definition preloaded (body : ChatRequest) (cached : option CachedRepo)
    : option string * option string :=
  if truthy (req_cacheKey body) then
    match cached with
    | Some cached => (Some (cached_content cached), req_cacheKey body)
    | None => (None, None)
    end
  else (None, req_cacheKey body).

(** The answer of the chat route to an error caught at its top. *)
Definition chat_failure (error : string) : ChatHttp :=
  {| chat_status := 500; chat_body := ChatError error |}.

(** The key the constructor of [GroqService] ends up with. *)
Definition effective_apiKey (env : Env) (body : ChatRequest) : string :=
  match req_apiKey body with
  | Some k => k
  | None => string_or (env_GROQ_API_KEY env) EmptyString
  end.

(** The service the handler builds once the key is known. *)
Definition chat_service (env : Env) (body : ChatRequest) : GroqService :=
  {| groq_apiKey := effective_apiKey env body;
     groq_model := "llama-3.3-70b-versatile" |}.

(** The world and the variables when the first model call is made: the
    cache is looked into only when the request carries a key. *)
Definition preload_world (env : Env) (body : ChatRequest) (w : World) : World :=
  if truthy (req_cacheKey body)
  then snd (loadFromCache env (new_RepomixService env)
              (default EmptyString (req_cacheKey body)) w)
  else w.

Definition preload_start (env : Env) (body : ChatRequest) (w : World)
    : option string * option string :=
  preloaded body
    match fst (loadFromCache env (new_RepomixService env)
                 (default EmptyString (req_cacheKey body)) w) with
    | Ok cached => cached
    | Err _ => None
    end.

(** ** Counting *)

(** The model requests among some events. *)
Definition count_groq (evs : list Event) : nat :=
  List.length (List.filter is_groq evs).

Definition has_result (t : ToolCallResult) : bool :=
  match tcr_result t with Some _ => true | None => false end.

(** The records that carry a result. *)
Definition count_results (ts : list ToolCallResult) : nat :=
  List.length (List.filter has_result ts).

Definition not_space (c : ascii) : bool := negb (Str.is_space c).

Definition not_g (c : ascii) : bool := negb (Ascii.eqb c "g").

(** ** More of the sample environment *)

(** What a run returned, or threw. *)
Definition returned {A} (fallback : A) (r : Res A) : A :=
  match r with Ok a => a | Err _ => fallback end.

Definition thrown {A} (r : Res A) : string :=
  match r with Ok _ => EmptyString | Err e => e end.

(** A cache in which a directory sits where the sidecar of [key] is to
    be written. *)
Definition blocked_sidecar_world (key : string) : World :=
  {| fs := <[metadataPath_of Sample.service key := Dir]> (<["./cache" := Dir]> ∅);
     trace := [] |}.

(** What [getCommitSha] returns when [git rev-parse HEAD] answers [rev]:
    the trimmed output, or ["latest"] when the command fails. *)
Definition revision_read (rev : Res string) : string :=
  match rev with
  | Ok stdout => Str.trim stdout
  | Err _ => "latest"
  end.

Definition succeeded {A} (r : Res A) : bool :=
  match r with Ok _ => true | Err _ => false end.

(** A cache left by earlier runs for [Sample.repo]: it holds an entry,
    content and sidecar, under the unresolved revision and another one
    under the revision a clone is at. *)
Definition stale_metadata (sha : string) : RepoMetadata :=
  {| meta_repoUrl := Sample.repo; meta_commitSha := sha;
     meta_size := 10; meta_cachedAt := "2023-01-01T00:00:00.000Z" |}.

Definition stale_world : World :=
  let unresolved := generateCacheKey Sample.repo (Some "latest") in
  let cloned := generateCacheKey Sample.repo (Some "4f2a9c1e") in
  {| fs := <[metadataPath_of Sample.service cloned
             := File (Sample.stringify_metadata (stale_metadata "4f2a9c1e"))]>
           (<[cachePath_of Sample.service cloned := File "stale text"]>
           (<[metadataPath_of Sample.service unresolved
              := File (Sample.stringify_metadata (stale_metadata "latest"))]>
           (<[cachePath_of Sample.service unresolved := File "stale text"]>
           (<["./cache" := Dir]> (<["./temp" := Dir]> ∅)))));
     trace := [] |}.

(** A cache that holds [content] for [url] at the revision [sha]. *)
Definition revision_cached_world (url sha content : string) : World :=
  {| fs := <[cachePath_of Sample.service (generateCacheKey url (Some sha))
             := File content]> (<["./cache" := Dir]> (<["./temp" := Dir]> ∅));
     trace := [] |}.

Definition malformed_tool_call : ToolCall :=
  {| tc_id := "call_2"; tc_type := "function";
     tc_function_name := "pack_repository";
     tc_function_arguments := "{oops" |}.

(** The model asks for a repository and, in a second call, sends
    arguments that are no JSON. *)
Definition malformed_call : Sample.Scenario :=
  {| Sample.remote := Sample.offline;
     Sample.clone_fails := fun _ => false;
     Sample.pack_outcome := RepomixDone (Some "packed text");
     Sample.first_answer :=
       Sample.answer "Let me look at that repository."
         [Sample.pack_call "call_1" Sample.repo; malformed_tool_call] |}.

Definition demo_call : ParsedToolCall :=
  {| call_id := "call_1"; call_name := "pack_repository";
     call_arguments := {| arg_repoUrl := Sample.repo; arg_forceRefresh := None |} |}.

(** The result of a first ingestion of the sample repository. *)
Definition demo_result : RepoProcessResult :=
  {| res_cacheKey := generateCacheKey Sample.repo (Some "4f2a9c1e");
     res_fromCache := false;
     res_repoUrl := Some Sample.repo;
     res_commitSha := Some "4f2a9c1e";
     res_size := Some 11%Z;
     res_cachedAt := None |}.

Definition keyed_request (text key : string) : ChatRequest :=
  {| req_message := text; req_cacheKey := Some key; req_apiKey := None;
     req_conversationHistory := None |}.

Definition sample_first (sc : Sample.Scenario) : GroqChatResponse :=
  {| gr_message := Sample.first_answer sc;
     gr_usage := {| prompt_tokens := 10; completion_tokens := 5; total_tokens := 15 |};
     gr_finishReason := "stop" |}.

Definition demo_partial : PartialRepoMetadata :=
  {| part_repoUrl := Some Sample.repo; part_commitSha := None;
     part_size := None; part_cachedAt := None |}.

(** The packing tool exits normally but writes nothing. *)
Definition silent_pack : Sample.Scenario :=
  {| Sample.remote := Sample.offline;
     Sample.clone_fails := fun _ => false;
     Sample.pack_outcome := RepomixDone None;
     Sample.first_answer := Sample.answer EmptyString [] |}.

(** * Properties *)

(** ** The digest against known answers *)

Example sha256_abc :
  Sha256.sha256_hex "abc"
  = "ba7816bf8f01cfea414140de5dae2223b00361a396177a9cb410ff61f20015ad".
Proof. vm_compute. reflexivity. Qed.

Example sha256_empty :
  Sha256.sha256_hex EmptyString
  = "e3b0c44298fc1c149afbf4c8996fb92427ae41e4649b934ca495991b7852b855".
Proof. vm_compute. reflexivity. Qed.

Example sha256_two_blocks :
  Sha256.sha256_hex "abcdbcdecdefdefgefghfghighijhijkijkljklmklmnlmnomnopnopq"
  = "248d6a61d20638b8e5c026930c3e6039a33ce45964ff2167f6ecedd419db06c1".
Proof. vm_compute. reflexivity. Qed.

Example generateCacheKey_sample :
  generateCacheKey Sample.repo (Some "4f2a9c1e")
  = Sha256.sha256_hex "https://github.com/octo/demo:4f2a9c1e".
Proof. reflexivity. Qed.

(** ** Relations a method keeps *)

Section Preserves.
Context {S : Type} (R : S -> S -> Prop).
Hypothesis R_refl : forall s, R s s.
Hypothesis R_trans : forall s1 s2 s3, R s1 s2 -> R s2 s3 -> R s1 s3.

Lemma preserves_ret {A} (a : A) : preserves R (ret a).
Proof using R_refl. intros s. apply R_refl. Qed.

Lemma preserves_throw {A} e : preserves R (@throw S A e).
Proof using R_refl. intros s. apply R_refl. Qed.

Lemma preserves_gets {A} (f : S -> A) : preserves R (gets f).
Proof using R_refl. intros s. apply R_refl. Qed.

Lemma preserves_bind {A B} (m : Eff S A) (k : A -> Eff S B) :
  preserves R m -> (forall a, preserves R (k a)) -> preserves R (bind m k).
Proof using R_trans.
  intros Hm Hk s. unfold bind. specialize (Hm s).
  destruct (m s) as [[a|e] s1]; simpl in *; [|exact Hm].
  eapply R_trans; [exact Hm|apply Hk].
Qed.

Lemma preserves_try_catch {A} (m : Eff S A) (h : string -> Eff S A) :
  preserves R m -> (forall e, preserves R (h e)) -> preserves R (try_catch m h).
Proof using R_trans.
  intros Hm Hh s. unfold try_catch. specialize (Hm s).
  destruct (m s) as [[a|e] s1]; simpl in *; [exact Hm|].
  eapply R_trans; [exact Hm|apply Hh].
Qed.

Lemma preserves_for_each {A} (l : list A) (body : A -> Eff S unit) :
  (forall a, preserves R (body a)) -> preserves R (for_each l body).
Proof using R_refl R_trans.
  intros Hb. induction l as [|a l IH]; simpl.
  - apply preserves_ret.
  - apply preserves_bind; [apply Hb|intros _; exact IH].
Qed.

End Preserves.

Lemma preserves_run {S A} (R : S -> S -> Prop) (m : Eff S A) s r s' :
  preserves R m -> m s = (r, s') -> R s s'.
Proof. intros H E. specialize (H s). rewrite E in H. exact H. Qed.

Lemma only_refl allowed w : only allowed w w.
Proof. exists []. split; reflexivity. Qed.

Lemma only_trans allowed w1 w2 w3 :
  only allowed w1 w2 -> only allowed w2 w3 -> only allowed w1 w3.
Proof.
  intros (e1 & H1 & F1) (e2 & H2 & F2). exists (e2 ++ e1)%list. split.
  - unfold continues in *. rewrite H2, H1. apply app_assoc.
  - rewrite forallb_app, F1, F2. reflexivity.
Qed.

Lemma same_files_refl X w : same_files X w w.
Proof. intros p _ d. reflexivity. Qed.

Lemma same_files_trans X w1 w2 w3 :
  same_files X w1 w2 -> same_files X w2 w3 -> same_files X w1 w3.
Proof. intros H1 H2 p Hp d. rewrite (H2 p Hp d). apply H1, Hp. Qed.

Lemma same_files_weaken (X Y : string -> bool) w w' :
  (forall p, Y p = false -> X p = false) -> same_files X w w' -> same_files Y w w'.
Proof. intros HXY H p Hp d. apply H, HXY, Hp. Qed.

Lemma only_weaken (a b : Event -> bool) w w' :
  (forall e, a e = true -> b e = true) -> only a w w' -> only b w w'.
Proof.
  intros Hab (evs & Hc & Hf). exists evs. split; [exact Hc|].
  rewrite forallb_forall in *. intros e He. apply Hab, Hf, He.
Qed.

(** *** The events of the primitives *)

Lemma only_emit allowed e : allowed e = true -> preserves (only allowed) (emit e).
Proof.
  intros He w. exists [e]. split; [reflexivity|]. simpl. rewrite He. reflexivity.
Qed.

Lemma only_set_fs allowed f : preserves (only allowed) (set_fs f).
Proof. intros w. exists []. split; reflexivity. Qed.

Lemma same_files_emit X e : preserves (same_files X) (emit e).
Proof. intros w p _ d. reflexivity. Qed.

(** Decomposes a method into its primitives, for a relation that is a
    preorder ([pre] proves its reflexivity and transitivity). *)
Ltac preserves_with pre prim :=
  repeat first
    [ prim
    | apply preserves_ret; pre
    | apply preserves_throw; pre
    | apply preserves_gets; pre
    | apply preserves_bind; [pre| |intros ?]
    | apply preserves_try_catch; [pre| |intros ?]
    | match goal with
      | |- preserves _ (match ?x with _ => _ end) => destruct x
      | |- preserves _ (if ?b then _ else _) => destruct b
      | |- preserves _ (let '(_, _) := ?x in _) => destruct x
      end ].

Create HintDb methods discriminated.

#[export] Hint Unfold
  init getLatestCommitShaFromGithub cloneRepo getCommitSha packRepo
  readPackedRepo saveToCache loadFromCache cleanup JSON_parse_ json_sha
  processRepo processRepo_fetch processRepo_cloned
  Fs.mkdir Fs.access Fs.readFile Fs.writeFile Fs.rm
  fetch git_clone git_rev_parse repomix Date_now_ new_Date_toISOString
  console tick completions_create chat : methods.

Ltac only_tac :=
  autounfold with methods;
  preserves_with
    ltac:(first [ apply only_refl | apply only_trans ])
    ltac:(first [ apply only_set_fs | apply only_emit; reflexivity ]).

Lemma loadFromCache_not_ingest env self key :
  preserves (only not_ingest) (loadFromCache env self key).
Proof. only_tac. Qed.

Lemma getLatest_not_ingest env url :
  preserves (only not_ingest) (getLatestCommitShaFromGithub env url).
Proof. only_tac. Qed.

Lemma processRepo_not_groq env self url force :
  preserves (only not_groq) (processRepo env self url force).
Proof. only_tac. Qed.

Lemma hex_digit_is_hex n : (n < 16)%N -> is_hex_char (Sha256.hex_digit n) = true.
Proof.
  intros Hn.
  assert (Hcases : In n (map N.of_nat (seq 0 16))).
  { apply in_map_iff. exists (N.to_nat n). split; [lia|]. apply in_seq. lia. }
  simpl in Hcases.
  repeat (destruct Hcases as [<-|Hcases]; [reflexivity|]).
  destruct Hcases.
Qed.

Lemma nibble_is_hex x i : is_hex_char (Sha256.nibble x i) = true.
Proof.
  unfold Sha256.nibble. apply hex_digit_is_hex.
  change 15%N with (N.ones 4). rewrite N.land_ones.
  apply N.mod_lt. discriminate.
Qed.

Lemma hex_length st : String.length (Sha256.hex st) = 64.
Proof. reflexivity. Qed.

Lemma hex_all_hex st : all_chars is_hex_char (Sha256.hex st) = true.
Proof.
  unfold Sha256.hex, Sha256.hex32. cbn [all_chars].
  rewrite !nibble_is_hex. reflexivity.
Qed.

Lemma append_inj_l (a b c : string) : a +:+ b = a +:+ c -> b = c.
Proof. induction a as [|x a IH]; simpl; [tauto|]. intros H. injection H. exact IH. Qed.

Lemma utf8_head c s :
  match Sha256.utf8 (String c s) with
  | b1 :: rest =>
      if (b1 <? 128)%N then c = ascii_of_N b1 /\ rest = Sha256.utf8 s
      else match rest with
           | b2 :: rest' =>
               c = ascii_of_N (N.lor (N.shiftl (N.land b1 3) 6) (N.land b2 63))
               /\ rest' = Sha256.utf8 s
           | [] => False
           end
  | [] => False
  end.
Proof.
  destruct c as [[] [] [] [] [] [] [] []]; split; reflexivity.
Qed.

(** Two texts with the same bytes are the same text. *)
Lemma utf8_inj s1 : forall s2, Sha256.utf8 s1 = Sha256.utf8 s2 -> s1 = s2.
Proof.
  induction s1 as [|c1 s1 IH]; intros [|c2 s2] Heq.
  - reflexivity.
  - pose proof (utf8_head c2 s2) as H2. rewrite <- Heq in H2. destruct H2.
  - pose proof (utf8_head c1 s1) as H1. rewrite Heq in H1. destruct H1.
  - pose proof (utf8_head c1 s1) as H1. pose proof (utf8_head c2 s2) as H2.
    rewrite Heq in H1.
    destruct (Sha256.utf8 (String c2 s2)) as [|b1 rest]; [destruct H1|].
    destruct (b1 <? 128)%N.
    + destruct H1 as [-> E1], H2 as [-> E2]. f_equal. apply IH. congruence.
    + destruct rest as [|b2 rest]; [destruct H1|].
      destruct H1 as [-> E1], H2 as [-> E2]. f_equal. apply IH. congruence.
Qed.

(** C4. [generateCacheKey] is a function of its two arguments and of
    nothing else (it takes no world and returns none): equal arguments
    give equal keys.  The key always has the same length, 64 lowercase
    hexadecimal digits, and an absent revision stands for ["latest"].
    The key is the SHA-256 digest, in hexadecimal, of the URL, a colon
    and the revision.  For two different revisions of one repository
    the texts hashed differ, and so do the bytes handed to SHA-256:
    the two keys can only be equal if SHA-256 gives one digest to two
    different messages. *)
Theorem generateCacheKey_deterministic_fixed_length (repoUrl : string)
    (commitSha : option string) :
  String.length (generateCacheKey repoUrl commitSha) = 64
  /\ all_chars is_hex_char (generateCacheKey repoUrl commitSha) = true
  /\ generateCacheKey repoUrl None = generateCacheKey repoUrl (Some "latest")
  /\ (forall repoUrl' commitSha',
        repoUrl' = repoUrl -> commitSha' = commitSha ->
        generateCacheKey repoUrl' commitSha' = generateCacheKey repoUrl commitSha)
  /\ generateCacheKey repoUrl commitSha
     = Sha256.sha256_hex (repoUrl +:+ ":" +:+ default "latest" commitSha)
  /\ (forall rev1 rev2 : string,
        rev1 <> rev2 ->
        repoUrl +:+ ":" +:+ rev1 <> repoUrl +:+ ":" +:+ rev2
        /\ Sha256.utf8 (repoUrl +:+ ":" +:+ rev1)
           <> Sha256.utf8 (repoUrl +:+ ":" +:+ rev2)
        /\ (generateCacheKey repoUrl (Some rev1) = generateCacheKey repoUrl (Some rev2) ->
            Sha256.hex (Sha256.digest (Sha256.utf8 (repoUrl +:+ ":" +:+ rev1)))
            = Sha256.hex (Sha256.digest (Sha256.utf8 (repoUrl +:+ ":" +:+ rev2))))).
Proof.
  split; [apply hex_length|].
  split; [apply hex_all_hex|].
  split; [reflexivity|].
  split; [intros ? ? -> ->; reflexivity|].
  split; [reflexivity|].
  intros rev1 rev2 Hne.
  assert (Htext : repoUrl +:+ ":" +:+ rev1 <> repoUrl +:+ ":" +:+ rev2).
  { intros Heq. apply Hne. do 2 apply append_inj_l in Heq. exact Heq. }
  split; [exact Htext|].
  split; [intros Heq; apply Htext, utf8_inj, Heq|].
  intros Heq. exact Heq.
Qed.

Ltac run :=
  cbv beta iota zeta delta
    [bind try_catch ret throw gets modify emit tick set_fs console
     Fs.access Fs.readFile Fs.writeFile Fs.rm Fs.mkdir
     fetch git_clone git_rev_parse repomix Date_now_ new_Date_toISOString
     JSON_parse_ json_sha fs trace fst snd negb].

Lemma loadFromCache_run env self key w :
  exists evs,
    loadFromCache env self key w
    = (Ok (lookup_entry env self (fs w) key
             (Date_toISOString env (2 + List.length (trace w)))),
       {| fs := fs w; trace := (evs ++ trace w)%list |})
    /\ forallb is_fs_read evs = true
    /\ (evs = [] -> False).
Proof.
  destruct w as [m tr].
  unfold loadFromCache, lookup_entry. run.
  destruct (m !! cachePath_of self key) as [[data|]|] eqn:Ec; rewrite ?Ec; run.
  - destruct (m !! metadataPath_of self key) as [[text|]|] eqn:Em; rewrite ?Em; run.
    + destruct (JSON_parse_metadata env text) as [meta|];
        (eexists [_; _; _]; split; [reflexivity|split; [reflexivity|discriminate]]).
    + eexists [_; _; _]; split; [reflexivity|split; [reflexivity|discriminate]].
    + eexists [_; _; _]; split; [reflexivity|split; [reflexivity|discriminate]].
  - eexists [_; _]; split; [reflexivity|split; [reflexivity|discriminate]].
  - eexists [_]; split; [reflexivity|split; [reflexivity|discriminate]].
Qed.

Lemma loadFromCache_never_throws env self key w :
  exists cached w', loadFromCache env self key w = (Ok cached, w') /\ fs w' = fs w.
Proof.
  destruct (loadFromCache_run env self key w) as (evs & E & _).
  eexists _, _. split; [exact E|reflexivity].
Qed.

(** C5. A bad sidecar never hides the content.  When the content file
    of [key] is a regular file and the sidecar is missing, is no regular
    file, or holds a text [JSON.parse] rejects (a truncated one, say),
    [loadFromCache] does not throw: it returns the content as stored,
    with the metadata record it synthesizes, whose size is the length of
    the content, and it leaves the file system as it was. *)
Theorem loadFromCache_tolerates_bad_sidecar env self key w data :
  fs w !! cachePath_of self key = Some (File data) ->
  sidecar_unusable env self (fs w) key ->
  exists now w',
    loadFromCache env self key w
    = (Ok (Some {| cached_content := data;
                   cached_metadata := synthesized_metadata data now |}), w')
    /\ meta_size (synthesized_metadata data now) = content_length data
    /\ fs w' = fs w.
Proof.
  intros Hc Hs.
  destruct (loadFromCache_run env self key w) as (evs & E & _).
  rewrite E. unfold lookup_entry, sidecar_unusable in *. rewrite Hc.
  exists (Date_toISOString env (2 + List.length (trace w))).
  exists {| fs := fs w; trace := (evs ++ trace w)%list |}.
  split; [|split; reflexivity].
  destruct (fs w !! metadataPath_of self key) as [[text|]|]; rewrite ?Hs; reflexivity.
Qed.

Lemma append_suffix_neq (a b c : string) : b <> c -> a +:+ b <> a +:+ c.
Proof. intros Hne Heq. apply Hne. eapply append_inj_l, Heq. Qed.

Lemma cache_paths_differ self key : cachePath_of self key <> metadataPath_of self key.
Proof.
  unfold cachePath_of, metadataPath_of, Fs.join.
  do 3 apply append_suffix_neq. discriminate.
Qed.

Lemma saveToCache_inv env self key content meta w path w' :
  saveToCache env self key content meta w = (Ok path, w') ->
  let full := fullMetadata_of meta content
                (Date_toISOString env (1 + List.length (trace w))) in
  path = cachePath_of self key
  /\ fs w' = <[metadataPath_of self key := File (JSON_stringify_metadata env full)]>
               (<[cachePath_of self key := File content]> (fs w))
  /\ trace w' = EvWriteFile (metadataPath_of self key) (JSON_stringify_metadata env full)
                  :: EvWriteFile (cachePath_of self key) content :: trace w.
Proof.
  destruct w as [m tr]. unfold saveToCache. run.
  destruct (Fs.is_dir m (cachePath_of self key)); run; [discriminate|].
  destruct (Fs.parent_ok m (cachePath_of self key)); run; [|discriminate].
  destruct (Fs.is_dir _ (metadataPath_of self key)); run; [discriminate|].
  destruct (Fs.parent_ok _ (metadataPath_of self key)); run; [|discriminate].
  intros [= <- <-]. repeat split.
Qed.

(** C3. Round trip.  Once [saveToCache key content meta] has returned,
    [loadFromCache key] returns that very content together with a
    metadata record whose size is the length of the content and whose
    repository and revision are those of [meta].  It is assumed that
    [JSON.parse] reads back the record [JSON.stringify] wrote. *)
Theorem cache_roundtrip env self key content meta w path w' :
  JSON_roundtrip env ->
  saveToCache env self key content meta w = (Ok path, w') ->
  exists metadata w'',
    loadFromCache env self key w'
    = (Ok (Some {| cached_content := content; cached_metadata := metadata |}), w'')
    /\ meta_size metadata = content_length content
    /\ meta_repoUrl metadata = string_or (part_repoUrl meta) EmptyString
    /\ meta_commitSha metadata = string_or (part_commitSha meta) EmptyString.
Proof.
  intros Hjson Hsave.
  apply saveToCache_inv in Hsave as (-> & Hfs & _).
  destruct (loadFromCache_run env self key w') as (evs & E & _).
  eexists _, _. rewrite E. unfold lookup_entry. rewrite Hfs.
  rewrite lookup_insert_ne by (apply not_eq_sym, cache_paths_differ).
  rewrite lookup_insert_eq, lookup_insert_eq, Hjson.
  repeat split.
Qed.

(** ** Paths *)

Lemma append_assoc_ (a b c : string) : (a +:+ b) +:+ c = a +:+ (b +:+ c).
Proof. induction a as [|x a IH]; [reflexivity|]. cbn [String.append]. change (String x ((a +:+ b) +:+ c) = String x (a +:+ b +:+ c)). rewrite IH. reflexivity. Qed.

Lemma starts_with_append (a b : string) : Str.starts_with a (a +:+ b) = true.
Proof.
  induction a as [|x a IH]; [reflexivity|].
  change (Ascii.eqb x x && Str.starts_with a (a +:+ b) = true).
  rewrite Ascii.eqb_refl, IH. reflexivity.
Qed.

Lemma under_self root : Fs.under root root = true.
Proof. unfold Fs.under. rewrite String.eqb_refl. reflexivity. Qed.

Lemma under_join root name : Fs.under root (Fs.join root name) = true.
Proof.
  unfold Fs.under, Fs.join. rewrite <- append_assoc_, starts_with_append.
  apply orb_true_r.
Qed.

Lemma join_nonempty dir name : Fs.join dir name <> EmptyString.
Proof. unfold Fs.join. destruct dir; discriminate. Qed.

(** ** The file system under each primitive *)

Lemma make_dirs_files ps m :
  existsb (Fs.is_file m) ps = false ->
  forall q d, Fs.make_dirs ps m !! q = Some (File d) <-> m !! q = Some (File d).
Proof.
  induction ps as [|p ps IH]; simpl; [tauto|].
  intros H q d. apply orb_false_iff in H as [Hp Hps].
  destruct (decide (p = q)) as [->|Hne].
  - rewrite lookup_insert_eq. unfold Fs.is_file in Hp.
    destruct (m !! q) as [[?|]|]; split; congruence.
  - rewrite lookup_insert_ne by exact Hne. apply IH, Hps.
Qed.

Lemma make_dirs_last ps p m : Fs.make_dirs (ps ++ [p]) m !! p = Some Dir.
Proof.
  induction ps as [|q ps IH]; simpl.
  - apply lookup_insert_eq.
  - destruct (decide (q = p)) as [->|Hne].
    + apply lookup_insert_eq.
    + rewrite lookup_insert_ne by exact Hne. exact IH.
Qed.

Lemma remove_tree_lookup root m p :
  Fs.remove_tree root m !! p = if Fs.under root p then None else m !! p.
Proof.
  unfold Fs.remove_tree. destruct (Fs.under root p) eqn:E.
  - apply map_lookup_filter_None. right. intros x _ H. simpl in H. congruence.
  - destruct (m !! p) as [x|] eqn:Em.
    + apply map_lookup_filter_Some_2; [exact Em|exact E].
    + apply map_lookup_filter_None. left. exact Em.
Qed.

Lemma put_files_lookup root files m p :
  Fs.under root p = false -> Fs.put_files root files m !! p = m !! p.
Proof.
  intros Hp. induction files as [|[rel d] files IH]; simpl; [reflexivity|].
  rewrite lookup_insert_ne; [exact IH|].
  intros <-. rewrite under_join in Hp. discriminate.
Qed.

Lemma same_files_fs X w w' : fs w' = fs w -> same_files X w w'.
Proof. intros E p _ d. rewrite E. reflexivity. Qed.

Lemma same_files_mkdir X p : preserves (same_files X) (Fs.mkdir p).
Proof.
  intros [m tr]. run.
  destruct (existsb (Fs.is_file m) (Fs.ancestors p)) eqn:E; run;
    [apply same_files_fs; reflexivity|].
  destruct (Fs.is_file m p) eqn:E'; run; [apply same_files_fs; reflexivity|].
  intros q _ d. simpl. apply make_dirs_files.
  rewrite existsb_app, E. simpl. rewrite E'. reflexivity.
Qed.

Lemma same_files_writeFile X p data :
  X p = true -> preserves (same_files X) (Fs.writeFile p data).
Proof.
  intros Hp [m tr]. run.
  destruct (Fs.is_dir m p); run; [apply same_files_fs; reflexivity|].
  destruct (Fs.parent_ok m p); run; [|apply same_files_fs; reflexivity].
  intros q Hq d. simpl. rewrite lookup_insert_ne; [reflexivity|congruence].
Qed.

Lemma same_files_rm X p :
  (forall q, Fs.under p q = true -> X q = true) ->
  preserves (same_files X) (Fs.rm p).
Proof.
  intros HX [m tr]. run. intros q Hq d. simpl. rewrite remove_tree_lookup.
  destruct (Fs.under p q) eqn:E; [|reflexivity].
  apply HX in E. congruence.
Qed.

Lemma same_files_git_clone X env url path :
  (forall q, Fs.under path q = true -> X q = true) ->
  preserves (same_files X) (git_clone env url path).
Proof.
  intros HX [m tr]. unfold git_clone. run.
  destruct (exec_git_clone env _ url path) as [e|files]; run.
  - apply same_files_fs; reflexivity.
  - intros q Hq d. simpl.
    assert (Hu : Fs.under path q = false).
    { destruct (Fs.under path q) eqn:E; [|reflexivity]. apply HX in E. congruence. }
    rewrite put_files_lookup by exact Hu.
    rewrite lookup_insert_ne; [reflexivity|].
    intros <-. rewrite under_self in Hu. discriminate.
Qed.

Lemma same_files_repomix X env path out :
  X out = true -> preserves (same_files X) (repomix env path out).
Proof.
  intros HX [m tr]. unfold repomix. run.
  destruct (exec_repomix env _ path out) as [e|[data|]]; run;
    try (apply same_files_fs; reflexivity).
  intros q Hq d. simpl. rewrite lookup_insert_ne; [reflexivity|congruence].
Qed.

Lemma same_files_set_trace X (f : World -> World) :
  (forall w, fs (f w) = fs w) -> preserves (same_files X) (modify f).
Proof. intros Hf w p _ d. simpl. rewrite Hf. reflexivity. Qed.

Ltac same_files_tac :=
  unfold init, getLatestCommitShaFromGithub, cloneRepo, getCommitSha, packRepo,
    readPackedRepo, saveToCache, loadFromCache, cleanup, JSON_parse_, json_sha,
    Fs.access, Fs.readFile, fetch, git_rev_parse, Date_now_,
    new_Date_toISOString, console, tick;
  preserves_with
    ltac:(first [ apply same_files_refl | apply same_files_trans ])
    ltac:(first [ apply same_files_emit
                | apply same_files_mkdir
                | apply same_files_writeFile; assumption
                | apply same_files_rm; assumption
                | apply same_files_git_clone; assumption
                | apply same_files_repomix; assumption ]).

Lemma init_same_files X self : preserves (same_files X) (init self).
Proof. same_files_tac. Qed.

Lemma getLatest_same_files X env url :
  preserves (same_files X) (getLatestCommitShaFromGithub env url).
Proof. same_files_tac. Qed.

Lemma loadFromCache_same_files X env self key :
  preserves (same_files X) (loadFromCache env self key).
Proof. same_files_tac. Qed.

(** ** Stepping through a method *)

Lemma bind_ok {S A B} (m : Eff S A) (k : A -> Eff S B) s a s' :
  m s = (Ok a, s') -> bind m k s = k a s'.
Proof. intros E. unfold bind. rewrite E. reflexivity. Qed.

Lemma bind_err {S A B} (m : Eff S A) (k : A -> Eff S B) s e s' :
  m s = (Err e, s') -> bind m k s = (Err e, s').
Proof. intros E. unfold bind. rewrite E. reflexivity. Qed.

Lemma try_ok {S A} (m : Eff S A) h s a s' :
  m s = (Ok a, s') -> try_catch m h s = (Ok a, s').
Proof. intros E. unfold try_catch. rewrite E. reflexivity. Qed.

Lemma try_err {S A} (m : Eff S A) h s e s' :
  m s = (Err e, s') -> try_catch m h s = h e s'.
Proof. intros E. unfold try_catch. rewrite E. reflexivity. Qed.

Lemma same_nodes_refl X w : same_nodes X w w.
Proof. intros p _. reflexivity. Qed.

Lemma same_nodes_trans X w1 w2 w3 :
  same_nodes X w1 w2 -> same_nodes X w2 w3 -> same_nodes X w1 w3.
Proof. intros H1 H2 p Hp. rewrite (H2 p Hp). apply H1, Hp. Qed.

Lemma same_nodes_files X w w' : same_nodes X w w' -> same_files X w w'.
Proof. intros H p Hp d. rewrite (H p Hp). reflexivity. Qed.

Lemma same_nodes_fs X w w' : fs w' = fs w -> same_nodes X w w'.
Proof. intros E p _. rewrite E. reflexivity. Qed.

Lemma same_nodes_emit X e : preserves (same_nodes X) (emit e).
Proof. intros w. apply same_nodes_fs. reflexivity. Qed.

Lemma same_nodes_writeFile X p data :
  X p = true -> preserves (same_nodes X) (Fs.writeFile p data).
Proof.
  intros Hp [m tr]. run.
  destruct (Fs.is_dir m p); run; [apply same_nodes_fs; reflexivity|].
  destruct (Fs.parent_ok m p); run; [|apply same_nodes_fs; reflexivity].
  intros q Hq. simpl. rewrite lookup_insert_ne; [reflexivity|congruence].
Qed.

Lemma same_nodes_rm X p :
  (forall q, Fs.under p q = true -> X q = true) ->
  preserves (same_nodes X) (Fs.rm p).
Proof.
  intros HX [m tr]. run. intros q Hq. simpl. rewrite remove_tree_lookup.
  destruct (Fs.under p q) eqn:E; [|reflexivity].
  apply HX in E. congruence.
Qed.

Lemma same_nodes_git_clone X env url path :
  (forall q, Fs.under path q = true -> X q = true) ->
  preserves (same_nodes X) (git_clone env url path).
Proof.
  intros HX [m tr]. unfold git_clone. run.
  destruct (exec_git_clone env _ url path) as [e|files]; run.
  - apply same_nodes_fs. reflexivity.
  - intros q Hq. simpl.
    assert (Hu : Fs.under path q = false).
    { destruct (Fs.under path q) eqn:E; [|reflexivity]. apply HX in E. congruence. }
    rewrite put_files_lookup by exact Hu.
    rewrite lookup_insert_ne; [reflexivity|].
    intros <-. rewrite under_self in Hu. discriminate.
Qed.

Lemma same_nodes_repomix X env path out :
  X out = true -> preserves (same_nodes X) (repomix env path out).
Proof.
  intros HX [m tr]. unfold repomix. run.
  destruct (exec_repomix env _ path out) as [e|[data|]]; run;
    try (apply same_nodes_fs; reflexivity).
  intros q Hq. simpl. rewrite lookup_insert_ne; [reflexivity|congruence].
Qed.

Ltac same_nodes_tac :=
  unfold getLatestCommitShaFromGithub, cloneRepo, getCommitSha, packRepo,
    readPackedRepo, saveToCache, loadFromCache, cleanup, JSON_parse_, json_sha,
    Fs.access, Fs.readFile, fetch, git_rev_parse, Date_now_,
    new_Date_toISOString, console, tick;
  preserves_with
    ltac:(first [ apply same_nodes_refl | apply same_nodes_trans ])
    ltac:(first [ apply same_nodes_emit
                | apply same_nodes_writeFile; assumption
                | apply same_nodes_rm; assumption
                | apply same_nodes_git_clone; assumption
                | apply same_nodes_repomix; assumption ]).

Lemma getLatest_same_nodes X env url :
  preserves (same_nodes X) (getLatestCommitShaFromGithub env url).
Proof. same_nodes_tac. Qed.

Lemma loadFromCache_same_nodes X env self key :
  preserves (same_nodes X) (loadFromCache env self key).
Proof. same_nodes_tac. Qed.

Lemma getCommitSha_same_nodes X env path :
  preserves (same_nodes X) (getCommitSha env path).
Proof. same_nodes_tac. Qed.

Lemma packRepo_same_nodes X env path :
  X (Fs.join path "repomix-output.txt") = true ->
  preserves (same_nodes X) (packRepo env path).
Proof. intros H. same_nodes_tac. Qed.

Lemma readPackedRepo_same_nodes X p : preserves (same_nodes X) (readPackedRepo p).
Proof. same_nodes_tac. Qed.

Lemma cleanup_same_nodes X p :
  (forall q, Fs.under p q = true -> X q = true) ->
  preserves (same_nodes X) (cleanup p).
Proof. intros H. same_nodes_tac. Qed.

Lemma saveToCache_same_nodes X env self key content meta :
  X (cachePath_of self key) = true -> X (metadataPath_of self key) = true ->
  preserves (same_nodes X) (saveToCache env self key content meta).
Proof. intros H1 H2. same_nodes_tac. Qed.

(** ** What each step emits *)

Lemma init_not_ingest self : preserves (only not_ingest) (init self).
Proof. only_tac. Qed.

Lemma init_not_clone self : preserves (only not_clone) (init self).
Proof. only_tac. Qed.

Lemma getLatest_not_clone env url :
  preserves (only not_clone) (getLatestCommitShaFromGithub env url).
Proof. only_tac. Qed.

Lemma loadFromCache_not_clone env self key :
  preserves (only not_clone) (loadFromCache env self key).
Proof. only_tac. Qed.

Lemma getCommitSha_not_clone env path : preserves (only not_clone) (getCommitSha env path).
Proof. only_tac. Qed.

Lemma packRepo_not_clone env path : preserves (only not_clone) (packRepo env path).
Proof. only_tac. Qed.

Lemma readPackedRepo_not_clone p : preserves (only not_clone) (readPackedRepo p).
Proof. only_tac. Qed.

Lemma saveToCache_not_clone env self key content meta :
  preserves (only not_clone) (saveToCache env self key content meta).
Proof. only_tac. Qed.

Lemma cleanup_not_clone p : preserves (only not_clone) (cleanup p).
Proof. only_tac. Qed.

Lemma init_not_write self : preserves (only not_write) (init self).
Proof. only_tac. Qed.

Lemma getLatest_not_write env url :
  preserves (only not_write) (getLatestCommitShaFromGithub env url).
Proof. only_tac. Qed.

Lemma loadFromCache_not_write env self key :
  preserves (only not_write) (loadFromCache env self key).
Proof. only_tac. Qed.

Lemma getCommitSha_not_write env path : preserves (only not_write) (getCommitSha env path).
Proof. only_tac. Qed.

Lemma packRepo_not_write env path : preserves (only not_write) (packRepo env path).
Proof. only_tac. Qed.

Lemma cleanup_not_write p : preserves (only not_write) (cleanup p).
Proof. only_tac. Qed.

Lemma cloneRepo_not_write env self url : preserves (only not_write) (cloneRepo env self url).
Proof. only_tac. Qed.

(** ** How each step ends *)

Ltac case_fetch :=
  match goal with
  | |- context [net_fetch ?env ?n ?u] =>
      let E := fresh "E" in
      destruct (net_fetch env n u) as [?r|?e] eqn:E; rewrite ?E; run
  end.

Lemma getLatest_never_throws env url w :
  exists sha w', getLatestCommitShaFromGithub env url w = (Ok sha, w').
Proof.
  destruct w as [m tr]. unfold getLatestCommitShaFromGithub. run.
  destruct (match_github url) as [[owner repo]|]; run; [|eauto].
  case_fetch; [|eauto].
  destruct (resp_ok r); run.
  - destruct (resp_json_sha r); run; eauto.
  - case_fetch; [|eauto].
    destruct (resp_ok r0); run; [|eauto].
    destruct (resp_json_sha r0); run; eauto.
Qed.

Lemma getCommitSha_never_throws env path w :
  exists sha w', getCommitSha env path w = (Ok sha, w').
Proof.
  destruct w as [m tr]. unfold getCommitSha. run.
  destruct (exec_git_rev_parse env _ path); run; eauto.
Qed.

Lemma cleanup_run path w :
  cleanup path w
  = (Ok tt, {| fs := Fs.remove_tree path (fs w);
               trace := EvConsole LogLevel ("Cleaned up " +:+ path)
                          :: EvRm path :: trace w |}).
Proof. destruct w as [m tr]. reflexivity. Qed.

Lemma cloneRepo_inv env self url w r w' :
  cloneRepo env self url w = (r, w') ->
  exists path text,
    (exists e, r = Err ("Failed to clone repository: " +:+ e)
               /\ fs w' = fs w
               /\ trace w' = EvGitClone url path false
                               :: EvConsole LogLevel text :: trace w)
    \/ (exists files,
          r = Ok path /\ path <> EmptyString
          /\ fs w' = Fs.put_files path files (<[path := Dir]> (fs w))
          /\ trace w' = EvGitClone url path true
                          :: EvConsole LogLevel text :: trace w).
Proof.
  destruct w as [m tr]. unfold cloneRepo. run.
  match goal with
  | |- context [exec_git_clone env ?n url ?p] =>
      destruct (exec_git_clone env n url p) as [e|files] eqn:E; rewrite ?E; run
  end; intros [= <- <-]; eexists _, _.
  - left. eexists. repeat split.
  - right. eexists. repeat split. apply join_nonempty.
Qed.

Lemma packRepo_inv env path w r w' :
  packRepo env path w = (r, w') ->
  (exists e, r = Err ("Failed to pack repository: " +:+ e))
  \/ r = Ok (Fs.join path "repomix-output.txt").
Proof.
  destruct w as [m tr]. unfold packRepo. run.
  destruct (exec_repomix env _ path _) as [e|[data|]]; run.
  - intros [= <- <-]. left. eauto.
  - rewrite lookup_insert_eq. run. intros [= <- <-]. right. reflexivity.
  - destruct (m !! _); run; intros [= <- <-]; [right|left]; eauto.
Qed.

Lemma readPackedRepo_inv p w r w' :
  readPackedRepo p w = (r, w') ->
  (exists e, r = Err ("Failed to read packed repo: " +:+ e))
  \/ (exists data, r = Ok data /\ fs w !! p = Some (File data)).
Proof.
  destruct w as [m tr]. unfold readPackedRepo. run.
  destruct (m !! p) as [[data|]|] eqn:E; rewrite ?E; run; intros [= <- <-]; eauto.
Qed.

Lemma saveToCache_err env self key content meta w e w' :
  saveToCache env self key content meta w = (Err e, w') ->
  exists e', e = "Failed to save to cache: " +:+ e'.
Proof.
  destruct w as [m tr]. unfold saveToCache. run.
  destruct (Fs.is_dir m (cachePath_of self key)); run; [intros [= <- <-]; eauto|].
  destruct (Fs.parent_ok m (cachePath_of self key)); run; [|intros [= <- <-]; eauto].
  destruct (Fs.is_dir _ (metadataPath_of self key)); run; [intros [= <- <-]; eauto|].
  destruct (Fs.parent_ok _ (metadataPath_of self key)); run; intros [= <- <-]; eauto.
Qed.

Lemma init_inv self w r w' :
  init self w = (r, w') ->
  same_files (fun _ => false) w w'
  /\ only not_ingest w w'
  /\ (r = Ok tt -> fs w' !! cacheDir self = Some Dir).
Proof.
  intros E. split; [|split].
  - eapply preserves_run; [apply init_same_files|exact E].
  - eapply preserves_run; [apply init_not_ingest|exact E].
  - revert E. destruct w as [m tr]. unfold init. run.
    destruct (existsb _ _); run; [intros [= <- <-]; discriminate|].
    destruct (Fs.is_file _ _); run; [intros [= <- <-]; discriminate|].
    destruct (existsb _ _); run; [intros [= <- <-]; discriminate|].
    destruct (Fs.is_file _ _); run; [intros [= <- <-]; discriminate|].
    intros [= <- <-] _. apply make_dirs_last.
Qed.

Lemma not_ingest_of_read evs :
  forallb is_fs_read evs = true -> forallb not_ingest evs = true.
Proof.
  rewrite !forallb_forall. intros H e He. specialize (H e He).
  destruct e; try discriminate; reflexivity.
Qed.

(** The cache-hit path of [processRepo], from the three steps that lead
    to it. *)
Lemma processRepo_hit env self url w w1 sha w2 data :
  init self w = (Ok tt, w1) ->
  getLatestCommitShaFromGithub env url w1 = (Ok sha, w2) ->
  fs w !! cachePath_of self (generateCacheKey url (Some sha)) = Some (File data) ->
  exists cached w',
    processRepo env self url false w
    = (Ok (result_from_cache (generateCacheKey url (Some sha)) cached), w')
    /\ cached_content cached = data
    /\ only not_ingest w w'
    /\ fs w' = fs w1.
Proof.
  intros Hinit Hlatest Hentry.
  pose proof (init_inv _ _ _ _ Hinit) as (Hf1 & Ho1 & _).
  pose proof (preserves_run _ _ _ _ _ (getLatest_same_nodes (fun _ => false) env url) Hlatest) as Hn2.
  pose proof (preserves_run _ _ _ _ _ (getLatest_not_ingest env url) Hlatest) as Ho2.
  set (key := generateCacheKey url (Some sha)) in *.
  assert (Hentry2 : fs w2 !! cachePath_of self key = Some (File data)).
  { rewrite Hn2 by reflexivity. apply Hf1; [reflexivity|exact Hentry]. }
  destruct (loadFromCache_run env self key w2) as (evs & E & Hev & _).
  unfold lookup_entry in E. rewrite Hentry2 in E.
  unfold processRepo.
  erewrite bind_ok by exact Hinit.
  erewrite bind_ok by exact Hlatest.
  fold key. cbv [negb]. erewrite bind_ok by exact E.
  eexists _, _. split; [reflexivity|]. split; [reflexivity|]. split.
  - eapply only_trans; [exact Ho1|]. eapply only_trans; [exact Ho2|].
    exists (EvConsole LogLevel "Using cached version" :: evs). split.
    + reflexivity.
    + simpl. apply not_ingest_of_read, Hev.
  - simpl. apply map_eq. intros p. apply Hn2. reflexivity.
Qed.

(** C2. Cache-hit short circuit.  When [init] succeeds, the optimistic
    resolution answers [commitSha] and the cache holds a content file
    under the key derived from it, [processRepo] without forced refresh
    returns a result with [fromCache = true] and that key.  The run
    clones nothing, reads no revision from a workspace, packs nothing,
    writes no file and removes none, and it ends in the file system
    [init] left: no workspace was ever created. *)
Theorem cache_hit_short_circuit env self repoUrl w w1 commitSha w2 data :
  init self w = (Ok tt, w1) ->
  getLatestCommitShaFromGithub env repoUrl w1 = (Ok commitSha, w2) ->
  fs w !! cachePath_of self (generateCacheKey repoUrl (Some commitSha))
    = Some (File data) ->
  exists result w',
    processRepo env self repoUrl false w = (Ok result, w')
    /\ res_fromCache result = true
    /\ res_cacheKey result = generateCacheKey repoUrl (Some commitSha)
    /\ only not_ingest w w'
    /\ fs w' = fs w1.
Proof.
  intros Hinit Hlatest Hentry.
  destruct (processRepo_hit _ _ _ _ _ _ _ _ Hinit Hlatest Hentry)
    as (cached & w' & E & _ & Ho & Hfs).
  eexists _, w'. split; [exact E|]. repeat split; assumption.
Qed.

Ltac not_pack :=
  let e := fresh in
  let H := fresh in
  intros [e H]; try destruct H as [H|H];
  first [ discriminate H
        | cbv [String.append] in H; discriminate H
        | injection H; cbv [String.append]; discriminate ].

(** The [try]/[catch] of [processRepo] after the clone: whatever
    happens, the last thing done is [cleanup repoPath]. *)
Lemma cloned_ends_with_cleanup env self url force path w out w' :
  path <> EmptyString ->
  try_catch
    (processRepo_cloned env self url force path)
    (fun error =>
       (if truthy (Some path) then cleanup path else ret tt) ;;;
       throw error) w = (out, w') ->
  exists wk,
    w' = snd (cleanup path wk)
    /\ only not_clone w wk
    /\ (pack_threw out ->
        only not_write w wk /\ same_nodes (Fs.under path) w wk).
Proof.
  intros Hne.
  assert (Htruthy : truthy (Some path) = true).
  { destruct path; [congruence|reflexivity]. }
  rewrite Htruthy. clear Htruthy.
  set (X := Fs.under path).
  assert (HX : forall q, Fs.under path q = true -> X q = true) by (intros q Hq; exact Hq).
  assert (Hout : X (Fs.join path "repomix-output.txt") = true) by apply under_join.
  (* the authoritative revision *)
  destruct (getCommitSha_never_throws env path w) as (sha & w1 & E1).
  pose proof (preserves_run _ _ _ _ _ (getCommitSha_not_clone env path) E1) as C1.
  pose proof (preserves_run _ _ _ _ _ (getCommitSha_not_write env path) E1) as W1.
  pose proof (preserves_run _ _ _ _ _ (getCommitSha_same_nodes X env path) E1) as N1.
  unfold processRepo_cloned.
  set (key := generateCacheKey url (Some sha)).
  (* the second cache check *)
  assert (exists cached w2,
            (if negb force then loadFromCache env self key else ret None) w1
            = (Ok cached, w2)
            /\ only not_clone w w2 /\ only not_write w w2 /\ same_nodes X w w2)
    as (cached & w2 & E2 & C2 & W2 & N2).
  { destruct force; cbv [negb].
    - exists None, w1. repeat split; assumption.
    - destruct (loadFromCache_never_throws env self key w1) as (c & w2 & E & _).
      exists c, w2. split; [exact E|]. split; [|split].
      + eapply only_trans; [exact C1|].
        eapply preserves_run; [apply loadFromCache_not_clone|exact E].
      + eapply only_trans; [exact W1|].
        eapply preserves_run; [apply loadFromCache_not_write|exact E].
      + eapply same_nodes_trans; [exact N1|].
        eapply preserves_run; [apply loadFromCache_same_nodes|exact E]. }
  destruct cached as [cached|].
  - (* hit under the authoritative key *)
    intros Hrun. erewrite try_ok in Hrun.
    2:{ erewrite bind_ok by exact E1. fold key. erewrite bind_ok by exact E2. cbv beta iota.
        unfold console, emit, modify, bind at 1. cbv beta iota.
        erewrite bind_ok by apply cleanup_run. reflexivity. }
    injection Hrun as <- <-.
    exists {| fs := fs w2;
              trace := EvConsole LogLevel "Using cached version" :: trace w2 |}.
    split; [rewrite cleanup_run; reflexivity|]. split.
    + eapply only_trans; [exact C2|]. exists [EvConsole LogLevel "Using cached version"].
      split; reflexivity.
    + not_pack.
  - destruct (packRepo env path w2) as [[packedPath|e] w3] eqn:E3.
    2:{ (* the packing step throws *)
        intros Hrun. erewrite try_err in Hrun.
        2:{ erewrite bind_ok by exact E1. fold key. erewrite bind_ok by exact E2. cbv beta iota.
            erewrite bind_err by exact E3. reflexivity. }
        cbv beta iota in Hrun. erewrite bind_ok in Hrun by apply cleanup_run.
        injection Hrun as <- <-.
        exists w3. split; [rewrite cleanup_run; reflexivity|]. split; [|intros _; split].
        - eapply only_trans; [exact C2|].
          eapply preserves_run; [apply packRepo_not_clone|exact E3].
        - eapply only_trans; [exact W2|].
          eapply preserves_run; [apply packRepo_not_write|exact E3].
        - eapply same_nodes_trans; [exact N2|].
          eapply preserves_run; [apply packRepo_same_nodes; exact Hout|exact E3]. }
    pose proof (preserves_run _ _ _ _ _ (packRepo_not_clone env path) E3) as C3.
    destruct (readPackedRepo packedPath w3) as [[content|e] w4] eqn:E4.
    2:{ (* reading the artifact throws *)
        intros Hrun. erewrite try_err in Hrun.
        2:{ erewrite bind_ok by exact E1. fold key. erewrite bind_ok by exact E2. cbv beta iota.
            erewrite bind_ok by exact E3. erewrite bind_err by exact E4. reflexivity. }
        cbv beta iota in Hrun. erewrite bind_ok in Hrun by apply cleanup_run.
        injection Hrun as <- <-.
        exists w4. split; [rewrite cleanup_run; reflexivity|]. split.
        - eapply only_trans; [exact C2|]. eapply only_trans; [exact C3|].
          eapply preserves_run; [apply readPackedRepo_not_clone|exact E4].
        - apply readPackedRepo_inv in E4 as [[e' [= ->]]|(? & [=] & _)]. not_pack. }
    pose proof (preserves_run _ _ _ _ _ (readPackedRepo_not_clone packedPath) E4) as C4.
    set (meta := {| part_repoUrl := Some url;
                    part_commitSha := Some sha;
                    part_size := Some (content_length content);
                    part_cachedAt := None |}).
    destruct (saveToCache env self key content meta w4) as [[saved|e] w5] eqn:E5;
      pose proof (preserves_run _ _ _ _ _
                    (saveToCache_not_clone env self key content meta) E5) as C5.
    + (* the run returns a fresh result *)
      intros Hrun. erewrite try_ok in Hrun.
      2:{ erewrite bind_ok by exact E1. fold key. erewrite bind_ok by exact E2. cbv beta iota.
          erewrite bind_ok by exact E3. erewrite bind_ok by exact E4.
          erewrite bind_ok by exact E5.
          erewrite bind_ok by apply cleanup_run. reflexivity. }
      injection Hrun as <- <-.
      exists w5. split; [rewrite cleanup_run; reflexivity|]. split.
      * eapply only_trans; [exact C2|]. eapply only_trans; [exact C3|].
        eapply only_trans; [exact C4|exact C5].
      * not_pack.
    + (* the cache write throws *)
      intros Hrun. erewrite try_err in Hrun.
      2:{ erewrite bind_ok by exact E1. fold key. erewrite bind_ok by exact E2. cbv beta iota.
          erewrite bind_ok by exact E3. erewrite bind_ok by exact E4.
          erewrite bind_err by exact E5. reflexivity. }
      cbv beta iota in Hrun. erewrite bind_ok in Hrun by apply cleanup_run.
      injection Hrun as <- <-.
      exists w5. split; [rewrite cleanup_run; reflexivity|]. split.
      * eapply only_trans; [exact C2|]. eapply only_trans; [exact C3|].
        eapply only_trans; [exact C4|exact C5].
      * apply saveToCache_err in E5 as [e' ->]. not_pack.
Qed.

Lemma continues_inj w evs1 evs2 w' :
  continues w evs1 w' -> continues w evs2 w' -> evs1 = evs2.
Proof.
  unfold continues. intros H1 H2. rewrite H1 in H2.
  eapply app_inv_tail, H2.
Qed.

Lemma no_clone_in evs url path ok :
  forallb not_clone evs = true -> In (EvGitClone url path ok) evs -> False.
Proof.
  rewrite forallb_forall. intros H Hin. specialize (H _ Hin). discriminate.
Qed.

Lemma forallb_weaken {A} (f g : A -> bool) l :
  (forall a, f a = true -> g a = true) -> forallb f l = true -> forallb g l = true.
Proof. rewrite !forallb_forall. intros H Hf a Ha. apply H, Hf, Ha. Qed.

Lemma not_ingest_not_clone e : not_ingest e = true -> not_clone e = true.
Proof. destruct e; intros; try discriminate; reflexivity. Qed.

Lemma not_ingest_not_write e : not_ingest e = true -> not_write e = true.
Proof. destruct e; intros; try discriminate; reflexivity. Qed.

Lemma init_err self w e w' :
  init self w = (Err e, w') ->
  exists p, e = "EEXIST: file already exists, mkdir '" +:+ p
            \/ e = "ENOTDIR: not a directory, mkdir '" +:+ p.
Proof.
  destruct w as [m tr]. unfold init. run.
  destruct (existsb _ _); run; [intros [= <- <-]; eauto|].
  destruct (Fs.is_file _ _); run; [intros [= <- <-]; eauto|].
  destruct (existsb _ _); run; [intros [= <- <-]; eauto|].
  destruct (Fs.is_file _ _); run; [intros [= <- <-]; eauto|discriminate].
Qed.

(** What [processRepo] does before it decides to fetch: it creates no
    workspace and writes nothing. *)
Lemma processRepo_prelude env self url force w out w' :
  processRepo env self url force w = (out, w') ->
  (only not_ingest w w' /\ ~ pack_threw out)
  \/ (exists w3,
        only not_ingest w w3
        /\ same_files (fun _ => false) w w3
        /\ processRepo_fetch env self url force w3 = (out, w')).
Proof.
  unfold processRepo.
  destruct (init self w) as [[[]|e0] w1] eqn:E0;
    pose proof (init_inv _ _ _ _ E0) as (F0 & O0 & _).
  2:{ erewrite bind_err by exact E0. intros [= <- <-]. left. split; [exact O0|].
      apply init_err in E0 as [p [-> | ->]]; not_pack. }
  erewrite bind_ok by exact E0.
  destruct (getLatest_never_throws env url w1) as (sha & w2 & E1).
  erewrite bind_ok by exact E1.
  set (key := generateCacheKey url (Some sha)).
  assert (exists cached w3,
            (if negb force then loadFromCache env self key else ret None) w2
            = (Ok cached, w3)
            /\ only not_ingest w w3 /\ same_files (fun _ => false) w w3)
    as (cached & w3 & E2 & O2 & F2).
  { assert (O1 : only not_ingest w w2).
    { eapply only_trans; [exact O0|].
      eapply preserves_run; [apply getLatest_not_ingest|exact E1]. }
    assert (F1 : same_files (fun _ => false) w w2).
    { eapply same_files_trans; [exact F0|].
      eapply preserves_run; [apply getLatest_same_files|exact E1]. }
    destruct force; cbv [negb].
    - exists None, w2. split; [reflexivity|split; assumption].
    - destruct (loadFromCache_never_throws env self key w2) as (c & w3 & E & _).
      exists c, w3. split; [exact E|]. split.
      + eapply only_trans; [exact O1|].
        eapply preserves_run; [apply loadFromCache_not_ingest|exact E].
      + eapply same_files_trans; [exact F1|].
        eapply preserves_run; [apply loadFromCache_same_files|exact E]. }
  erewrite bind_ok by exact E2.
  destruct cached as [cached|]; cbv beta iota.
  - unfold console, emit, modify, bind, ret. cbv beta iota.
    intros [= <- <-]. left. split; [|not_pack].
    eapply only_trans; [exact O2|].
    exists [EvConsole LogLevel "Using cached version"]. split; reflexivity.
  - intros Hrun. right. exists w3. split; [exact O2|split; [exact F2|exact Hrun]].
Qed.

(** C1. Cleanup on every exit of [processRepo].  Whether the run
    returns or throws, each workspace a successful clone created is
    removed later in the same run, and nothing at or below it remains in
    the file system the run ends in.  When the run ends with the error
    of the packing step, it did clone a workspace (to which the above
    applies), it wrote no file, and outside that workspace the regular
    files, the cache entries among them, are those it started with.
    [cleanup] swallows a failure of [fs.rm]; in this model of the file
    system the recursive forced removal cannot fail. *)
Theorem cleanup_on_every_exit env self repoUrl forceRefresh w out w' :
  processRepo env self repoUrl forceRefresh w = (out, w') ->
  exists evs,
    continues w evs w'
    /\ (forall url path,
          In (EvGitClone url path true) evs ->
          happens_after (EvGitClone url path true) (EvRm path) evs
          /\ forall p, Fs.under path p = true -> fs w' !! p = None)
    /\ (pack_threw out ->
          forallb not_write evs = true
          /\ exists path,
               In (EvGitClone repoUrl path true) evs
               /\ same_files (Fs.under path) w w').
Proof.
  intros Hrun.
  apply processRepo_prelude in Hrun as [[(evs & Hc & Hq) Hnp]|(w3 & (evp & Hcp & Hqp) & Fp & Hrun)].
  { exists evs. split; [exact Hc|]. split; [|intros Hp; destruct (Hnp Hp)].
    intros url path Hin. exfalso. eapply no_clone_in; [|exact Hin].
    eapply forallb_weaken; [apply not_ingest_not_clone|exact Hq]. }
  unfold processRepo_fetch in Hrun.
  destruct (cloneRepo env self repoUrl w3) as [r w4] eqn:Ec.
  apply cloneRepo_inv in Ec as Hinv.
  destruct Hinv as (path & text & [(e & -> & Hfs & Htr)|(files & -> & Hne & Hfs & Htr)]).
  - (* the clone step throws: no workspace *)
    erewrite bind_err in Hrun by exact Ec. injection Hrun as <- <-.
    exists (EvGitClone repoUrl path false :: EvConsole LogLevel text :: evp).
    split; [unfold continues in *; rewrite Htr, Hcp; reflexivity|].
    split; [|not_pack].
    intros url p [[=]|[[=]|Hin]]. exfalso. eapply no_clone_in; [|exact Hin].
    eapply forallb_weaken; [apply not_ingest_not_clone|exact Hqp].
  - (* the clone step returns [path] *)
    erewrite bind_ok in Hrun by exact Ec.
    apply cloned_ends_with_cleanup in Hrun as (wk & -> & (evt & Hct & Hqt) & Hpack);
      [|exact Hne].
    rewrite cleanup_run. cbn [fs trace snd].
    exists (EvConsole LogLevel ("Cleaned up " +:+ path) :: EvRm path
              :: evt ++ EvGitClone repoUrl path true :: EvConsole LogLevel text :: evp)%list.
    split; [|split].
    + unfold continues in *. cbn [trace]. rewrite Hct, Htr, Hcp.
      rewrite <- !app_comm_cons, <- app_assoc. reflexivity.
    + intros url p Hin.
      assert (url = repoUrl /\ p = path) as [-> ->].
      { destruct Hin as [[=]|[[=]|Hin]].
        apply in_app_or in Hin as [Hin|[[= -> ->]|[[=]|Hin]]]; [| split; reflexivity |].
        - exfalso. eapply no_clone_in; [exact Hqt|exact Hin].
        - exfalso. eapply no_clone_in; [|exact Hin].
          eapply forallb_weaken; [apply not_ingest_not_clone|exact Hqp]. }
      split.
      * exists (EvConsole LogLevel ("Cleaned up " +:+ path) :: EvRm path :: evt),
               (EvConsole LogLevel text :: evp).
        split; [reflexivity|]. right. left. reflexivity.
      * intros q Hq. rewrite remove_tree_lookup, Hq. reflexivity.
    + intros Hp. destruct (Hpack Hp) as ((evt' & Hct' & Hwt) & Nt).
      assert (evt' = evt) as -> by (eapply continues_inj; eassumption).
      split.
      * cbn [forallb not_write is_write negb andb]. rewrite forallb_app, Hwt.
        cbn [forallb not_write is_write negb andb].
        eapply forallb_weaken; [apply not_ingest_not_write|exact Hqp].
      * exists path. split.
        -- right. right. apply in_or_app. right. left. reflexivity.
        -- eapply same_files_trans;
             [eapply same_files_weaken; [|exact Fp]; reflexivity|].
           apply same_nodes_files. intros q Hq. cbn [fs].
           rewrite remove_tree_lookup, Hq, (Nt q Hq), Hfs.
           rewrite put_files_lookup by exact Hq.
           apply lookup_insert_ne. intros <-. rewrite under_self in Hq. discriminate.
Qed.

Lemma getLatest_run env url w :
  exists sha evs,
    getLatestCommitShaFromGithub env url w
    = (Ok sha, {| fs := fs w; trace := (evs ++ trace w)%list |})
    /\ forallb is_query evs = true.
Proof.
  destruct w as [m tr]. unfold getLatestCommitShaFromGithub. run.
  destruct (match_github url) as [[owner repo]|]; run;
    [|eexists _, [_]; split; reflexivity].
  case_fetch; [|eexists _, [_; _]; split; reflexivity].
  destruct (resp_ok r); run.
  - destruct (resp_json_sha r); run;
      [eexists _, [_]|eexists _, [_; _]]; split; reflexivity.
  - case_fetch; [|eexists _, [_; _; _]; split; reflexivity].
    destruct (resp_ok r0); run; [|eexists _, [_; _; _]; split; reflexivity].
    destruct (resp_json_sha r0); run;
      [eexists _, [_; _]|eexists _, [_; _; _]]; split; reflexivity.
Qed.

Lemma getCommitSha_run env path w :
  exists sha evs,
    getCommitSha env path w
    = (Ok sha, {| fs := fs w; trace := (evs ++ trace w)%list |})
    /\ forallb is_query evs = true.
Proof.
  destruct w as [m tr]. unfold getCommitSha. run.
  destruct (exec_git_rev_parse env _ path); run;
    [eexists _, [_]|eexists _, [_; _]]; split; reflexivity.
Qed.

Lemma getCommitSha_oracle env path w rev :
  (forall n p, exec_git_rev_parse env n p = rev) ->
  exists evs,
    getCommitSha env path w
    = (Ok (revision_read rev), {| fs := fs w; trace := (evs ++ trace w)%list |})
    /\ forallb is_query evs = true
    /\ In (EvGitRevParse path (succeeded rev)) evs.
Proof.
  intros Hrev. destruct w as [m tr]. unfold getCommitSha. run.
  rewrite Hrev. destruct rev as [out|e]; run;
    [exists [EvGitRevParse path true]|eexists [_; EvGitRevParse path false]];
    (split; [reflexivity|split; [reflexivity|]]).
  - left. reflexivity.
  - right. left. reflexivity.
Qed.

Lemma string_or_some s : string_or (Some s) EmptyString = s.
Proof. destruct s; reflexivity. Qed.

Lemma init_ok_run self w w1 :
  init self w = (Ok tt, w1) ->
  trace w1 = EvMkdir (cacheDir self) :: EvMkdir (tempDir self) :: trace w.
Proof.
  destruct w as [m tr]. unfold init. run.
  destruct (existsb _ _); run; [discriminate|].
  destruct (Fs.is_file _ _); run; [discriminate|].
  destruct (existsb _ _); run; [discriminate|].
  destruct (Fs.is_file _ _); run; [discriminate|].
  intros [= <-]. reflexivity.
Qed.

Lemma cloneRepo_ok env self url w :
  (forall n p, exists files, exec_git_clone env n url p = CloneDone files) ->
  exists name files text,
    cloneRepo env self url w
    = (Ok (Fs.join (tempDir self) name),
       {| fs := Fs.put_files (Fs.join (tempDir self) name) files
                  (<[Fs.join (tempDir self) name := Dir]> (fs w));
          trace := EvGitClone url (Fs.join (tempDir self) name) true
                     :: EvConsole LogLevel text :: trace w |}).
Proof.
  intros Hclone. destruct w as [m tr]. unfold cloneRepo. run.
  match goal with
  | |- context [exec_git_clone env ?n url ?p] =>
      destruct (Hclone n p) as [files E]; rewrite E; run
  end.
  eexists _, _, _. reflexivity.
Qed.

Lemma packRepo_ok env path packed w :
  (forall n p o, exec_repomix env n p o = RepomixDone (Some packed)) ->
  exists text,
    packRepo env path w
    = (Ok (Fs.join path "repomix-output.txt"),
       {| fs := <[Fs.join path "repomix-output.txt" := File packed]> (fs w);
          trace := EvAccess (Fs.join path "repomix-output.txt")
                     :: EvRepomix path (Fs.join path "repomix-output.txt") true
                     :: EvConsole LogLevel text :: trace w |}).
Proof.
  intros Hpack. destruct w as [m tr]. unfold packRepo. run.
  rewrite Hpack. run. rewrite lookup_insert_eq. run.
  eexists. reflexivity.
Qed.

Lemma readPackedRepo_ok p data w :
  fs w !! p = Some (File data) ->
  readPackedRepo p w = (Ok data, {| fs := fs w; trace := EvReadFile p :: trace w |}).
Proof.
  intros E. destruct w as [m tr]. unfold readPackedRepo. run.
  cbn [fs] in E. rewrite E. reflexivity.
Qed.

Lemma is_dir_insert_file m p q data :
  Fs.is_dir m p = false -> Fs.is_dir m q = true ->
  Fs.is_dir (<[p := File data]> m) q = true.
Proof.
  unfold Fs.is_dir. intros Hp Hq.
  rewrite lookup_insert_ne; [exact Hq|]. intros <-. congruence.
Qed.

Lemma parent_ok_insert_file m p q data :
  Fs.is_dir m p = false -> Fs.parent_ok m q = true ->
  Fs.parent_ok (<[p := File data]> m) q = true.
Proof.
  unfold Fs.parent_ok. destruct (Fs.parent q); [reflexivity|].
  apply is_dir_insert_file.
Qed.

Lemma saveToCache_ok env self key content meta w :
  Fs.is_dir (fs w) (cachePath_of self key) = false ->
  Fs.is_dir (fs w) (metadataPath_of self key) = false ->
  Fs.parent_ok (fs w) (cachePath_of self key) = true ->
  Fs.parent_ok (fs w) (metadataPath_of self key) = true ->
  exists json,
    saveToCache env self key content meta w
    = (Ok (cachePath_of self key),
       {| fs := <[metadataPath_of self key := File json]>
                  (<[cachePath_of self key := File content]> (fs w));
          trace := EvWriteFile (metadataPath_of self key) json
                     :: EvWriteFile (cachePath_of self key) content :: trace w |})
    /\ exists at_,
         json = JSON_stringify_metadata env
                  (fullMetadata_of meta content (Date_toISOString env at_)).
Proof.
  intros D1 D2 P1 P2. destruct w as [m tr]. cbn [fs] in *.
  unfold saveToCache. run. rewrite D1. run. rewrite P1. run.
  assert (D2' : Fs.is_dir (<[cachePath_of self key := File content]> m)
                  (metadataPath_of self key) = false).
  { unfold Fs.is_dir in *. rewrite lookup_insert_ne; [exact D2|].
    apply cache_paths_differ. }
  rewrite D2'. run.
  rewrite (parent_ok_insert_file _ _ _ _ D1 P2). run.
  eexists. split; [reflexivity|]. eexists. reflexivity.
Qed.

Lemma includes_slash_false s :
  all_chars not_slash s = true -> Str.includes "/" s = false.
Proof.
  induction s as [|c s IH]; [reflexivity|].
  cbn [all_chars]. intros H. apply andb_true_iff in H as [Hc Hs].
  cbn [Str.includes Str.starts_with].
  unfold not_slash in Hc. rewrite Ascii.eqb_sym in Hc.
  destruct (Ascii.eqb "/" c); [discriminate|]. cbn [andb]. apply IH, Hs.
Qed.

Lemma includes_slash_app a b : Str.includes "/" (a +:+ "/" +:+ b) = true.
Proof.
  induction a as [|c a IH]; [reflexivity|].
  change (Str.includes "/" (String c (a +:+ "/" +:+ b)) = true).
  cbn [Str.includes]. rewrite IH. destruct (Str.starts_with _ _); reflexivity.
Qed.

Lemma parent_join dir name :
  Str.includes "/" name = false -> Fs.parent (Fs.join dir name) = dir.
Proof.
  intros H. unfold Fs.join. induction dir as [|c dir IH].
  - change (Fs.parent (String "/" name) = EmptyString). cbn [Fs.parent]. rewrite H. reflexivity.
  - change (Fs.parent (String c (dir +:+ "/" +:+ name)) = String c dir).
    cbn [Fs.parent]. rewrite includes_slash_app, IH. reflexivity.
Qed.

Lemma all_chars_app f a b :
  all_chars f a = true -> all_chars f b = true -> all_chars f (a +:+ b) = true.
Proof.
  intros Ha Hb. induction a as [|c a IH]; [exact Hb|].
  change (all_chars f (String c (a +:+ b)) = true). cbn [all_chars] in *.
  apply andb_true_iff in Ha as [-> Ha]. apply IH, Ha.
Qed.

Lemma all_chars_weaken (f g : ascii -> bool) s :
  (forall c, f c = true -> g c = true) -> all_chars f s = true -> all_chars g s = true.
Proof.
  intros H. induction s as [|c s IH]; [reflexivity|]. cbn [all_chars].
  intros Hs. apply andb_true_iff in Hs as [Hc Hs]. rewrite (H c Hc), (IH Hs). reflexivity.
Qed.

Lemma hex_not_slash c : is_hex_char c = true -> not_slash c = true.
Proof.
  destruct c as [[] [] [] [] [] [] [] []]; intros H; try reflexivity; discriminate H.
Qed.

Lemma key_file_no_slash url sha ext :
  all_chars not_slash ext = true ->
  Str.includes "/" (generateCacheKey url sha +:+ ext) = false.
Proof.
  intros Hext. apply includes_slash_false, all_chars_app; [|exact Hext].
  eapply all_chars_weaken; [apply hex_not_slash|].
  apply hex_all_hex.
Qed.

Lemma cachePath_parent self url sha :
  Fs.parent (cachePath_of self (generateCacheKey url sha)) = cacheDir self.
Proof. apply parent_join, key_file_no_slash. reflexivity. Qed.

Lemma metadataPath_parent self url sha :
  Fs.parent (metadataPath_of self (generateCacheKey url sha)) = cacheDir self.
Proof. apply parent_join, key_file_no_slash. reflexivity. Qed.

Lemma query_no_cache_read self e : is_query e = true -> no_cache_read self e = true.
Proof. destruct e; intros; try discriminate; reflexivity. Qed.

Lemma starts_with_under root p :
  Str.starts_with (root +:+ "/") p = true -> Fs.under root p = true.
Proof. unfold Fs.under. intros ->. apply orb_true_r. Qed.

(** With [forceRefresh] no run answers from the cache. *)
Lemma forced_never_from_cache env self url w result w' :
  processRepo env self url true w = (Ok result, w') ->
  res_fromCache result = false.
Proof.
  unfold processRepo, processRepo_fetch, processRepo_cloned, bind, try_catch.
  cbv [negb ret].
  destruct (init self w) as [[[]|?] ?]; [|discriminate].
  destruct (getLatestCommitShaFromGithub env url _) as [[?|?] ?]; [|discriminate].
  destruct (cloneRepo env self url _) as [[path|?] ?]; [|discriminate].
  destruct (getCommitSha env path _) as [[sha|?] ?].
  2:{ destruct (truthy _); [destruct (cleanup _ _) as [[|] ?]|]; discriminate. }
  destruct (packRepo env path _) as [[?|?] ?].
  2:{ destruct (truthy _); [destruct (cleanup _ _) as [[|] ?]|]; discriminate. }
  destruct (readPackedRepo _ _) as [[?|?] ?].
  2:{ destruct (truthy _); [destruct (cleanup _ _) as [[|] ?]|]; discriminate. }
  destruct (saveToCache _ _ _ _ _ _) as [[?|?] ?].
  2:{ destruct (truthy _); [destruct (cleanup _ _) as [[|] ?]|]; discriminate. }
  destruct (cleanup _ _) as [[|] ?].
  - intros [= <- _]. reflexivity.
  - destruct (truthy _); [destruct (cleanup _ _) as [[|] ?]|]; discriminate.
Qed.

(** C9. Forced refresh.  With [forceRefresh = true] no run of
    [processRepo] returns [fromCache = true], whatever the cache holds.
    When moreover [init] succeeds, the clone and the packing tool
    succeed, [git rev-parse HEAD] answers [rev], the cache directory
    lies outside the workspaces and no directory sits where an entry is
    to be written, the run returns [fromCache = false] with the key
    derived from the URL and the revision read in the workspace (the
    trimmed output of the command, or ["latest"] when it fails).  It
    never looks into the cache; it clones, reads the revision, packs,
    writes the packed text and a sidecar that names the URL, that
    revision and the size under that key, whatever was there before,
    and removes the workspace. *)
Theorem forced_refresh env self repoUrl w :
  (forall result w', processRepo env self repoUrl true w = (Ok result, w') ->
                     res_fromCache result = false)
  /\ forall w1 rev packed,
       init self w = (Ok tt, w1) ->
       cache_outside_temp self ->
       cache_files_free self (fs w1) ->
       (forall n p, exists files, exec_git_clone env n repoUrl p = CloneDone files) ->
       (forall n p, exec_git_rev_parse env n p = rev) ->
       (forall n p o, exec_repomix env n p o = RepomixDone (Some packed)) ->
       let commitSha := revision_read rev in
       let key := generateCacheKey repoUrl (Some commitSha) in
       exists w' repoPath at_ evs,
         let json := JSON_stringify_metadata env
                       {| meta_repoUrl := repoUrl;
                          meta_commitSha := commitSha;
                          meta_size := content_length packed;
                          meta_cachedAt := Date_toISOString env at_ |} in
         processRepo env self repoUrl true w
         = (Ok {| res_cacheKey := key;
                  res_fromCache := false;
                  res_repoUrl := Some repoUrl;
                  res_commitSha := Some commitSha;
                  res_size := Some (content_length packed);
                  res_cachedAt := None |}, w')
         /\ fs w' !! cachePath_of self key = Some (File packed)
         /\ fs w' !! metadataPath_of self key = Some (File json)
         /\ continues w evs w'
         /\ forallb (no_cache_read self) evs = true
         /\ In (EvGitClone repoUrl repoPath true) evs
         /\ In (EvGitRevParse repoPath (succeeded rev)) evs
         /\ In (EvRepomix repoPath (Fs.join repoPath "repomix-output.txt") true) evs
         /\ In (EvWriteFile (cachePath_of self key) packed) evs
         /\ In (EvWriteFile (metadataPath_of self key) json) evs
         /\ In (EvRm repoPath) evs.
Proof.
  split; [intros result w'; apply forced_never_from_cache|].
  intros w1 rev packed Hinit Hsep Hfree Hclone Hrev Hpack sha key.
  pose proof (init_inv _ _ _ _ Hinit) as (_ & _ & Hdir). specialize (Hdir eq_refl).
  pose proof (init_ok_run _ _ _ Hinit) as Htr1.
  destruct (getLatest_run env repoUrl w1) as (sha0 & ev2 & E2 & Q2).
  set (w2 := {| fs := fs w1; trace := (ev2 ++ trace w1)%list |}) in *.
  destruct (cloneRepo_ok env self repoUrl w2 Hclone) as (name & files & text & E3).
  set (path := Fs.join (tempDir self) name) in *.
  set (w3 := {| fs := Fs.put_files path files (<[path := Dir]> (fs w2)); trace := _ |}) in *.
  destruct (getCommitSha_oracle env path w3 rev Hrev) as (ev4 & E4 & Q4 & I4).
  fold sha in E4.
  set (w4 := {| fs := fs w3; trace := (ev4 ++ trace w3)%list |}) in *.
  destruct (packRepo_ok env path packed w4 Hpack) as (text5 & E5).
  set (out := Fs.join path "repomix-output.txt") in *.
  set (w5 := {| fs := <[out := File packed]> (fs w4); trace := _ |}) in *.
  assert (E6 := readPackedRepo_ok out packed w5 (lookup_insert_eq _ _ _)).
  set (w6 := {| fs := fs w5; trace := EvReadFile out :: trace w5 |}) in *.
  (* outside the workspace the file system is the one [init] left *)
  assert (Hout : forall p, Fs.under (cacheDir self) p = true -> fs w6 !! p = fs w1 !! p).
  { intros p Hp. specialize (Hsep name p Hp). fold path in Hsep. cbn [w6 w5 w4 w3 w2 fs].
    rewrite lookup_insert_ne.
    2:{ intros <-. unfold out in Hsep. rewrite under_join in Hsep. discriminate. }
    rewrite put_files_lookup by exact Hsep.
    apply lookup_insert_ne. intros <-. rewrite under_self in Hsep. discriminate. }
  assert (Hcp : Fs.under (cacheDir self) (cachePath_of self key) = true) by apply under_join.
  assert (Hmp : Fs.under (cacheDir self) (metadataPath_of self key) = true) by apply under_join.
  destruct (Hfree key) as [D1 D2].
  assert (Hparent : Fs.is_dir (fs w6) (cacheDir self) = true).
  { unfold Fs.is_dir. rewrite (Hout _ (under_self _)), Hdir. reflexivity. }
  set (meta := {| part_repoUrl := Some repoUrl;
                  part_commitSha := Some sha;
                  part_size := Some (content_length packed);
                  part_cachedAt := None |}).
  destruct (saveToCache_ok env self key packed meta w6) as (json & E7 & at_ & Hjson).
  { unfold Fs.is_dir in *. rewrite (Hout _ Hcp). exact D1. }
  { unfold Fs.is_dir in *. rewrite (Hout _ Hmp). exact D2. }
  { unfold Fs.parent_ok, key. rewrite cachePath_parent.
    destruct (cacheDir self); [reflexivity|exact Hparent]. }
  { unfold Fs.parent_ok, key. rewrite metadataPath_parent.
    destruct (cacheDir self); [reflexivity|exact Hparent]. }
  unfold fullMetadata_of, meta in Hjson. cbn [part_repoUrl part_commitSha] in Hjson.
  rewrite !string_or_some in Hjson. subst json.
  set (json := JSON_stringify_metadata env _) in *.
  set (w7 := {| fs := <[metadataPath_of self key := File json]> _; trace := _ |}) in *.
  exists {| fs := Fs.remove_tree path (fs w7);
            trace := EvConsole LogLevel ("Cleaned up " +:+ path) :: EvRm path :: trace w7 |},
    path, at_,
    (EvConsole LogLevel ("Cleaned up " +:+ path) :: EvRm path
       :: EvWriteFile (metadataPath_of self key) json
       :: EvWriteFile (cachePath_of self key) packed
       :: EvReadFile out :: EvAccess out :: EvRepomix path out true
       :: EvConsole LogLevel text5
       :: ev4 ++ EvGitClone repoUrl path true :: EvConsole LogLevel text
       :: ev2 ++ [EvMkdir (cacheDir self); EvMkdir (tempDir self)])%list.
  cbv zeta. fold json.
  split.
  { unfold processRepo, processRepo_fetch, processRepo_cloned.
    erewrite bind_ok by exact Hinit. erewrite bind_ok by exact E2.
    cbv [negb]. erewrite bind_ok by reflexivity. cbv beta iota.
    erewrite bind_ok by exact E3.
    erewrite try_ok; [reflexivity|].
    erewrite bind_ok by exact E4. cbv [negb].
    erewrite bind_ok by reflexivity. cbv beta iota.
    erewrite bind_ok by exact E5. erewrite bind_ok by exact E6.
    erewrite bind_ok by exact E7.
    erewrite bind_ok by apply cleanup_run. reflexivity. }
  cbn [fs trace].
  split.
  { rewrite remove_tree_lookup. specialize (Hsep name _ Hcp). fold path in Hsep.
    rewrite Hsep. cbn [w7 fs].
    rewrite lookup_insert_ne by (apply not_eq_sym, cache_paths_differ).
    apply lookup_insert_eq. }
  split.
  { rewrite remove_tree_lookup. specialize (Hsep name _ Hmp). fold path in Hsep.
    rewrite Hsep. cbn [w7 fs]. apply lookup_insert_eq. }
  split.
  { unfold continues. cbn [w7 w6 w5 w4 w3 w2 trace]. rewrite Htr1.
    repeat (cbn [app]; rewrite <- ?app_assoc). reflexivity. }
  assert (Hnot : Str.starts_with (cacheDir self +:+ "/") out = false).
  { destruct (Str.starts_with (cacheDir self +:+ "/") out) eqn:E; [|reflexivity].
    apply starts_with_under in E. specialize (Hsep name _ E). fold path in Hsep.
    unfold out in Hsep. rewrite under_join in Hsep. discriminate. }
  split.
  { cbn [forallb]. unfold no_cache_read at 1 2 3 4 5 6 7 8.
    cbn [is_cache_read negb andb]. rewrite Hnot. cbn [negb andb].
    rewrite forallb_app. cbn [forallb]. rewrite forallb_app.
    rewrite (forallb_weaken _ _ _ (query_no_cache_read self) Q4).
    rewrite (forallb_weaken _ _ _ (query_no_cache_read self) Q2). reflexivity. }
  split; [do 8 right; apply in_or_app; right; left; reflexivity|].
  split; [do 8 right; apply in_or_app; left; exact I4|].
  split; [do 6 right; left; reflexivity|].
  split; [do 3 right; left; reflexivity|].
  split; [do 2 right; left; reflexivity|].
  right. left. reflexivity.
Qed.

(** ** Optimistic revision resolution *)

(** C8. [getLatestCommitShaFromGithub] never throws and never touches
    the file system.  A URL that is no GitHub URL gives ["latest"]
    without any query.  Otherwise the [main] branch is asked first and
    its revision returned; on a response that is not OK the [master]
    branch is asked, and when that fails too the answer is ["latest"].
    The sentinel takes part in the derivation of the key like any
    revision: an entry stored under it is a cache hit. *)
Theorem optimistic_resolution_never_raises env repoUrl w :
  (exists commitSha w',
     getLatestCommitShaFromGithub env repoUrl w = (Ok commitSha, w')
     /\ fs w' = fs w)
  /\ (match_github repoUrl = None ->
      exists text,
        getLatestCommitShaFromGithub env repoUrl w
        = (Ok "latest", {| fs := fs w; trace := EvConsole WarnLevel text :: trace w |}))
  /\ (forall owner repo,
        match_github repoUrl = Some (owner, repo) ->
        let main := commits_url owner (Str.replace ".git" EmptyString repo) "main" in
        let master := commits_url owner (Str.replace ".git" EmptyString repo) "master" in
        let n := List.length (trace w) in
        (forall r sha,
           net_fetch env n main = Ok r -> resp_ok r = true ->
           resp_json_sha r = Some sha ->
           getLatestCommitShaFromGithub env repoUrl w
           = (Ok sha, {| fs := fs w; trace := EvFetch main :: trace w |}))
        /\ (forall r,
              net_fetch env n main = Ok r -> resp_ok r = false ->
              (forall r2 sha,
                 net_fetch env (S n) master = Ok r2 -> resp_ok r2 = true ->
                 resp_json_sha r2 = Some sha ->
                 getLatestCommitShaFromGithub env repoUrl w
                 = (Ok sha, {| fs := fs w;
                               trace := EvFetch master :: EvFetch main :: trace w |}))
              /\ (forall r2,
                    net_fetch env (S n) master = Ok r2 -> resp_ok r2 = false ->
                    exists text,
                      getLatestCommitShaFromGithub env repoUrl w
                      = (Ok "latest",
                         {| fs := fs w;
                            trace := EvConsole WarnLevel text :: EvFetch master
                                       :: EvFetch main :: trace w |}))))
  /\ (forall self w0 w1 w2 data,
        init self w0 = (Ok tt, w1) ->
        getLatestCommitShaFromGithub env repoUrl w1 = (Ok "latest", w2) ->
        fs w0 !! cachePath_of self (generateCacheKey repoUrl (Some "latest"))
          = Some (File data) ->
        exists result w',
          processRepo env self repoUrl false w0 = (Ok result, w')
          /\ res_fromCache result = true
          /\ res_cacheKey result = generateCacheKey repoUrl (Some "latest")).
Proof.
  split; [|split; [|split]].
  - destruct (getLatest_run env repoUrl w) as (sha & evs & E & _).
    eexists _, _. split; [exact E|reflexivity].
  - intros Hm. destruct w as [m tr]. unfold getLatestCommitShaFromGithub. run.
    rewrite Hm. run. eexists. reflexivity.
  - intros owner repo Hm main master n. destruct w as [m tr].
    subst main master n. cbn [trace fs].
    split; [|intros r E1 Hok1; split].
    + intros r sha E1 Hok Hsha. unfold getLatestCommitShaFromGithub. run.
      rewrite Hm. run. rewrite E1. run. rewrite Hok. run. rewrite Hsha. reflexivity.
    + intros r2 sha E2 Hok2 Hsha. unfold getLatestCommitShaFromGithub. run.
      rewrite Hm. run. rewrite E1. run. rewrite Hok1. run.
      cbn [List.length]. rewrite E2. run. rewrite Hok2. run. rewrite Hsha. reflexivity.
    + intros r2 E2 Hok2. unfold getLatestCommitShaFromGithub. run.
      rewrite Hm. run. rewrite E1. run. rewrite Hok1. run.
      cbn [List.length]. rewrite E2. run. rewrite Hok2. run. eexists. reflexivity.
  - intros self w0 w1 w2 data Hinit Hlatest Hentry.
    destruct (processRepo_hit _ _ _ _ _ _ _ _ Hinit Hlatest Hentry)
      as (cached & w' & E & _).
    eexists _, w'. split; [exact E|]. split; reflexivity.
Qed.

Lemma handle_call_other env groqService repomixService call s :
  call_name call <> "pack_repository" ->
  handle_call env groqService repomixService call s = (Ok tt, s).
Proof.
  intros Hne. unfold handle_call.
  apply String.eqb_neq in Hne. rewrite Hne. reflexivity.
Qed.

Lemma for_each_filter env groqService repomixService calls s :
  for_each calls (handle_call env groqService repomixService) s
  = for_each (List.filter is_pack_call calls) (handle_call env groqService repomixService) s.
Proof.
  revert s. induction calls as [|call calls IH]; intros s; [reflexivity|].
  cbn [for_each List.filter]. unfold is_pack_call at 1.
  destruct (String.eqb (call_name call) "pack_repository") eqn:E.
  - cbn [for_each]. unfold bind.
    destruct (handle_call _ _ _ call s) as [[[]|e] s1]; [apply IH|reflexivity].
  - erewrite bind_ok; [apply IH|].
    apply handle_call_other, String.eqb_neq, E.
Qed.

Lemma parseToolCalls_state {S} env message (s : S) r s' :
  parseToolCalls env message s = (r, s') -> s' = s.
Proof.
  unfold parseToolCalls. destruct (negb (hasToolCalls message)).
  - intros [= _ <-]. reflexivity.
  - generalize (default [] (msg_tool_calls message)). intros calls.
    revert r. induction calls as [|c calls IH]; intros r; cbn [parse_calls].
    + intros [= _ <-]. reflexivity.
    + destruct (JSON_parse_arguments env _); [|intros [= _ <-]; reflexivity].
      unfold bind. destruct (parse_calls env calls s) as [[p|e] s1] eqn:E.
      * intros [= _ <-]. eapply IH. reflexivity.
      * intros [= _ <-]. eapply IH. reflexivity.
Qed.

Lemma chat_tools_and_reply_run env groqService repomixService l w calls s' :
  parseToolCalls env (gr_message (response l)) (l, w) = (Ok calls, (l, w)) ->
  for_each calls (handle_call env groqService repomixService) (l, w) = (Ok tt, s') ->
  chat_tools_and_reply env groqService repomixService (l, w)
  = (Ok {| chat_status := 200; chat_body := ChatJson (reply_of (fst s')) |}, s').
Proof.
  intros Hparse Hloop. unfold chat_tools_and_reply, read, gets, bind at 1.
  cbn [fst snd].
  destruct (hasToolCalls (gr_message (response l))) eqn:Hh.
  - erewrite bind_ok; [reflexivity|].
    erewrite bind_ok by exact Hparse. exact Hloop.
  - assert (calls = []) as ->.
    { unfold parseToolCalls in Hparse. rewrite Hh in Hparse.
      cbn [negb] in Hparse. injection Hparse as <-. reflexivity. }
    cbn [for_each] in Hloop. injection Hloop as <-. reflexivity.
Qed.

(** C10. An invocation of a tool other than [pack_repository] is
    skipped in silence: [handle_call] returns at once and leaves the
    variables of the handler (the tool calls on record, the messages,
    the response, the cache key) and the world as they are, so no
    pipeline runs.  The loop over the invocations is the loop over the
    [pack_repository] ones, and a turn all of whose invocations name
    other tools answers from the variables as they were before the
    loop, which it leaves untouched.
    [pack_repository] is the only tool the model is offered. *)
Theorem other_tools_silently_skipped env groqService repomixService :
  (forall call s,
     call_name call <> "pack_repository" ->
     handle_call env groqService repomixService call s = (Ok tt, s))
  /\ (forall calls s,
        for_each calls (handle_call env groqService repomixService) s
        = for_each (List.filter is_pack_call calls)
            (handle_call env groqService repomixService) s)
  /\ (forall l w calls,
        parseToolCalls env (gr_message (response l)) (l, w) = (Ok calls, (l, w)) ->
        Forall (fun call => call_name call <> "pack_repository") calls ->
        chat_tools_and_reply env groqService repomixService (l, w)
        = (Ok {| chat_status := 200; chat_body := ChatJson (reply_of l) |}, (l, w)))
  /\ map td_name toolDefinitions = ["pack_repository"].
Proof.
  split; [|split; [|split; [|reflexivity]]].
  - intros call s. apply handle_call_other.
  - intros calls s. apply for_each_filter.
  - intros l w calls Hparse Hall.
    rewrite (chat_tools_and_reply_run _ _ _ _ _ calls (l, w) Hparse); [reflexivity|].
    clear Hparse. induction Hall as [|call calls Hc _ IH]; [reflexivity|].
    cbn [for_each]. erewrite bind_ok; [exact IH|].
    apply handle_call_other, Hc.
Qed.

Lemma handle_call_failed env groqService repomixService call l w e w1 :
  call_name call = "pack_repository" ->
  processRepo env repomixService (arg_repoUrl (call_arguments call))
    (default false (arg_forceRefresh (call_arguments call))) w = (Err e, w1) ->
  handle_call env groqService repomixService call (l, w)
  = (Ok tt, (push_toolCall (error_record call e) l, w1)).
Proof.
  intros Hname Hrun. unfold handle_call.
  assert (Heq : String.eqb (call_name call) "pack_repository" = true)
    by (rewrite Hname; reflexivity).
  rewrite Heq. erewrite try_err.
  2:{ erewrite bind_err; [reflexivity|].
      unfold await. cbn [fst snd]. rewrite Hrun. reflexivity. }
  reflexivity.
Qed.

Lemma handle_call_total env groqService repomixService call s :
  exists s', handle_call env groqService repomixService call s = (Ok tt, s').
Proof.
  unfold handle_call. destruct (String.eqb _ _); [|eexists; reflexivity].
  unfold try_catch.
  match goal with |- context [match ?m s with _ => _ end] =>
    destruct (m s) as [[[]|e] s1] end; eexists; reflexivity.
Qed.

Lemma for_each_total env groqService repomixService calls s :
  exists s', for_each calls (handle_call env groqService repomixService) s = (Ok tt, s').
Proof.
  revert s. induction calls as [|call calls IH]; intros s; [eexists; reflexivity|].
  destruct (handle_call_total env groqService repomixService call s) as [s1 E].
  destruct (IH s1) as [s' E']. exists s'.
  cbn [for_each]. erewrite bind_ok by exact E. exact E'.
Qed.

Lemma recorded_refl s : recorded s s.
Proof. exists []. split; [symmetry; apply app_nil_r|]. intros _. repeat split. Qed.

Lemma recorded_trans s1 s2 s3 : recorded s1 s2 -> recorded s2 s3 -> recorded s1 s3.
Proof.
  intros (n1 & T1 & K1) (n2 & T2 & K2). exists (n1 ++ n2)%list. split.
  - rewrite T2, T1. symmetry. apply app_assoc.
  - intros Hall.
    destruct K1 as (R1 & M1 & F1);
      [intros t Ht; apply Hall, in_or_app; left; exact Ht|].
    destruct K2 as (R2 & M2 & F2);
      [intros t Ht; apply Hall, in_or_app; right; exact Ht|].
    split; [|split]; congruence.
Qed.

Lemma appends_refl s : appends s s.
Proof. exists []. symmetry. apply app_nil_r. Qed.

Lemma appends_trans s1 s2 s3 : appends s1 s2 -> appends s2 s3 -> appends s1 s3.
Proof.
  intros (n1 & T1) (n2 & T2). exists (n1 ++ n2)%list.
  rewrite T2, T1. symmetry. apply app_assoc.
Qed.

Lemma appends_await {A} (m : M A) : preserves appends (await m).
Proof.
  intros [l w]. unfold await. cbn [snd]. destruct (m w) as [r w'].
  exists []. symmetry. apply app_nil_r.
Qed.

Lemma appends_assign f :
  (forall l, exists more, toolCalls (f l) = (toolCalls l ++ more)%list) ->
  preserves appends (assign f).
Proof. intros Hf [l w]. exact (Hf l). Qed.

Lemma handle_call_pack env groqService repomixService call :
  call_name call = "pack_repository" ->
  handle_call env groqService repomixService call
  = try_catch
      (result <- await (processRepo env repomixService
                          (arg_repoUrl (call_arguments call))
                          (default false (arg_forceRefresh (call_arguments call)))) ;;
       after_result env groqService repomixService call result)
      (fun error => assign (push_toolCall (error_record call error))).
Proof.
  intros Hname. unfold handle_call.
  assert (Heq : String.eqb (call_name call) "pack_repository" = true)
    by (rewrite Hname; reflexivity).
  rewrite Heq. reflexivity.
Qed.

Ltac appends_tac :=
  repeat first
    [ apply appends_await
    | apply appends_assign; intros ?;
        first [ exists []; symmetry; apply app_nil_r | eexists [_]; reflexivity ]
    | apply preserves_ret; apply appends_refl
    | apply preserves_gets; apply appends_refl
    | apply preserves_bind; [apply appends_trans| |intros ?]
    | apply preserves_try_catch; [apply appends_trans| |intros ?]
    | match goal with
      | |- preserves _ (match ?x with _ => _ end) => destruct x
      end ].

Lemma after_record_appends env groqService repomixService call result :
  preserves appends
    (try_catch (after_record env groqService repomixService call result)
       (fun error => assign (push_toolCall (error_record call error)))).
Proof.
  unfold after_record at 1. unfold read. appends_tac.
Qed.

Lemma handle_call_recorded env groqService repomixService call :
  preserves recorded (handle_call env groqService repomixService call).
Proof.
  intros [l w].
  destruct (String.eqb (call_name call) "pack_repository") eqn:Heq.
  2:{ rewrite handle_call_other by (apply String.eqb_neq, Heq). apply recorded_refl. }
  apply String.eqb_eq in Heq. rewrite handle_call_pack by exact Heq.
  unfold try_catch at 1, bind at 1, await at 1. cbn [fst snd].
  destruct (processRepo _ _ _ _ w) as [[result|e] w1].
  - (* the pipeline returned: whatever follows, its result is on record *)
    pose proof (after_record_appends env groqService repomixService call result
                  (push_toolCall (result_record call result) l, w1)) as (more & Hm).
    change (after_result env groqService repomixService call result (l, w1))
      with (after_record env groqService repomixService call result
              (push_toolCall (result_record call result) l, w1)).
    unfold try_catch in Hm.
    destruct (after_record _ _ _ _ _ _) as [[[]|e] [l2 w2]];
      (exists (result_record call result :: more);
       split; [rewrite Hm; cbn [fst push_toolCall toolCalls];
               rewrite <- app_assoc; reflexivity|];
       intros Hnone; specialize (Hnone _ (or_introl eq_refl)); discriminate Hnone).
  - exists [error_record call e]. split; [reflexivity|]. intros _.
    split; [|split]; reflexivity.
Qed.

Lemma for_each_recorded env groqService repomixService calls :
  preserves recorded (for_each calls (handle_call env groqService repomixService)).
Proof.
  apply preserves_for_each;
    [apply recorded_refl|apply recorded_trans|intros call; apply handle_call_recorded].
Qed.

(** C7, amended.  An invocation of [pack_repository] whose pipeline
    throws is put on record with the message of the error and no
    result; from its start to its end no model call is made; the loop
    over the invocations never throws, and the turn answers with status
    200.  The text of the reply is that of the first model call, and
    the cache key the one the turn began with, when no invocation of
    the turn has a result. *)
Theorem failed_invocation_recorded env groqService repomixService :
  (forall call l w e w1,
     call_name call = "pack_repository" ->
     processRepo env repomixService (arg_repoUrl (call_arguments call))
       (default false (arg_forceRefresh (call_arguments call))) w = (Err e, w1) ->
     handle_call env groqService repomixService call (l, w)
     = (Ok tt, (push_toolCall (error_record call e) l, w1))
     /\ only not_groq w w1)
  /\ (forall calls s,
        exists s',
          for_each calls (handle_call env groqService repomixService) s = (Ok tt, s'))
  /\ (forall l w calls,
        parseToolCalls env (gr_message (response l)) (l, w) = (Ok calls, (l, w)) ->
        toolCalls l = [] ->
        exists reply s',
          chat_tools_and_reply env groqService repomixService (l, w)
          = (Ok {| chat_status := 200; chat_body := ChatJson reply |}, s')
          /\ ((forall t, In t (default [] (resp_toolCalls reply)) ->
                         tcr_result t = None) ->
              resp_response reply
              = string_or (msg_content (gr_message (response l))) EmptyString
              /\ resp_cacheKey reply = finalCacheKey l)).
Proof.
  split; [|split].
  - intros call l w e w1 Hname Hrun. split.
    + apply handle_call_failed; assumption.
    + eapply preserves_run; [apply processRepo_not_groq|exact Hrun].
  - intros calls s. apply for_each_total.
  - intros l w calls Hparse Hnil.
    destruct (for_each_total env groqService repomixService calls (l, w)) as [s' Hloop].
    pose proof (preserves_run _ _ _ _ _
                  (for_each_recorded env groqService repomixService calls) Hloop)
      as (new & Hnew & Hkeep).
    eexists _, s'. split; [eapply chat_tools_and_reply_run; eassumption|].
    cbn [fst] in *. rewrite Hnil in Hnew. cbn [app] in Hnew.
    intros Hnone. unfold reply_of in *. cbn [resp_response resp_cacheKey resp_toolCalls] in *.
    destruct Hkeep as (-> & _ & ->); [|split; reflexivity].
    intros t Ht. apply Hnone. rewrite Hnew.
    destruct new; [destruct Ht|exact Ht].
Qed.

(** ** The sample JSON codec *)

Lemma read_escape_char c rest :
  Sample.read_string (Sample.escape_char c +:+ rest)
  = Sample.cons_char c (Sample.read_string rest).
Proof.
  destruct c as [[] [] [] [] [] [] [] []]; reflexivity.
Qed.

Lemma read_escaped s rest :
  Sample.read_string ((Sample.escape s +:+ String Sample.dquote EmptyString) +:+ rest)
  = Some (s, rest).
Proof.
  induction s as [|c s IH]; [reflexivity|].
  cbn [Sample.escape]. rewrite !append_assoc_, read_escape_char.
  rewrite <- append_assoc_, IH. reflexivity.
Qed.

Lemma span_not_app sep a rest :
  all_chars (fun c => negb (Ascii.eqb c sep)) a = true ->
  Str.span_not sep (a +:+ String sep rest) = (a, String sep rest).
Proof.
  induction a as [|c a IH]; intros H.
  - change (Str.span_not sep (String sep rest) = (EmptyString, String sep rest)).
    cbn [Str.span_not]. rewrite Ascii.eqb_refl. reflexivity.
  - cbn [all_chars] in H. apply andb_true_iff in H as [Hc Ha].
    change (Str.span_not sep (String c (a +:+ String sep rest))
            = (String c a, String sep rest)).
    cbn [Str.span_not]. destruct (Ascii.eqb c sep); [discriminate|].
    rewrite (IH Ha). reflexivity.
Qed.

Lemma uint_no_comma d : all_chars not_comma (NilEmpty.string_of_uint d) = true.
Proof. induction d; cbn [NilEmpty.string_of_uint all_chars]; rewrite ?IHd; reflexivity. Qed.

Lemma number_no_comma z : all_chars not_comma (Sample.write_number z) = true.
Proof.
  unfold Sample.write_number. destruct (Z.to_int z); cbn [NilEmpty.string_of_int all_chars];
    rewrite uint_no_comma; reflexivity.
Qed.

Lemma read_written_number z : Sample.read_number (Sample.write_number z) = Some z.
Proof.
  unfold Sample.read_number, Sample.write_number.
  rewrite NilEmpty.isi. cbn [option_map]. rewrite DecimalZ.of_to. reflexivity.
Qed.

Lemma app_cons c a b : String c a +:+ b = String c (a +:+ b).
Proof. reflexivity. Qed.

Lemma app_nil b : EmptyString +:+ b = b.
Proof. reflexivity. Qed.

Lemma expect_cons c literal s :
  Sample.expect (String c literal) (String c s) = Sample.expect literal s.
Proof.
  unfold Sample.expect. cbn [Str.starts_with String.length Str.drop].
  rewrite Ascii.eqb_refl. reflexivity.
Qed.

Lemma expect_nil s : Sample.expect EmptyString s = Some s.
Proof. reflexivity. Qed.

Ltac read_text :=
  repeat (rewrite ?app_cons, ?app_nil, ?expect_cons, ?expect_nil, ?read_escaped;
          cbn [mbind option_bind]).

Lemma sample_JSON_roundtrip sc : JSON_roundtrip (Sample.env sc).
Proof.
  intros [url sha size at_]. cbn [Sample.env JSON_parse_metadata JSON_stringify_metadata].
  unfold Sample.parse_metadata, Sample.stringify_metadata, Sample.quote.
  cbn [meta_repoUrl meta_commitSha meta_size meta_cachedAt].
  unfold Sample.key_line. read_text.
  rewrite (span_not_app "," _ _ (number_no_comma size)).
  rewrite read_written_number. read_text. reflexivity.
Qed.

(** ** The properties at work in the sample environment *)

Lemma generateCacheKey_witness :
  generateCacheKey Sample.repo (Some "4f2a9c1e")
  = "f30957c257f137549562fea264efc49302a894f1d859280a100595e1f33a5473"
  /\ generateCacheKey Sample.repo (Some "9d1c0ffe")
     = "35b3067dae06bb7ee2e4acdc9ba5f84e4a782d62bcffea8e84f92bda845afc9a"
  /\ generateCacheKey Sample.repo None
     = "cd4f2e814faf1fbee5a5c8b633839fea396aa74b2d215667693215c8244c8758"
  /\ "4f2a9c1e" <> "9d1c0ffe"
  /\ Sha256.utf8 (Sample.repo +:+ ":" +:+ "4f2a9c1e")
     <> Sha256.utf8 (Sample.repo +:+ ":" +:+ "9d1c0ffe").
Proof.
  pose proof (generateCacheKey_deterministic_fixed_length Sample.repo (Some "4f2a9c1e"))
    as (_ & _ & _ & _ & Hkey1 & Hrev).
  pose proof (generateCacheKey_deterministic_fixed_length Sample.repo (Some "9d1c0ffe"))
    as (_ & _ & _ & _ & Hkey2 & _).
  pose proof (generateCacheKey_deterministic_fixed_length Sample.repo None)
    as (_ & _ & _ & _ & Hkey3 & _).
  assert (Hne : "4f2a9c1e" <> "9d1c0ffe") by discriminate.
  split; [rewrite Hkey1; vm_compute; reflexivity|].
  split; [rewrite Hkey2; vm_compute; reflexivity|].
  split; [rewrite Hkey3; vm_compute; reflexivity|].
  split; [exact Hne|]. apply (Hrev _ _ Hne).
Defined.

Lemma cleanup_on_every_exit_witness :
  let run := processRepo (Sample.env Sample.pack_fails) Sample.service
               Sample.repo false Sample.empty_world in
  pack_threw (fst run)
  /\ exists evs,
       continues Sample.empty_world evs (snd run)
       /\ (forall url path,
             In (EvGitClone url path true) evs ->
             happens_after (EvGitClone url path true) (EvRm path) evs
             /\ forall p, Fs.under path p = true -> fs (snd run) !! p = None)
       /\ (pack_threw (fst run) ->
             forallb not_write evs = true
             /\ exists path,
                  In (EvGitClone Sample.repo path true) evs
                  /\ same_files (Fs.under path) Sample.empty_world (snd run)).
Proof.
  intros run. split.
  - exists "Command failed: repomix". vm_compute. reflexivity.
  - apply (cleanup_on_every_exit (Sample.env Sample.pack_fails) Sample.service
             Sample.repo false Sample.empty_world (fst run) (snd run)).
    vm_compute. reflexivity.
Defined.

Lemma cache_hit_short_circuit_witness :
  let env := Sample.env Sample.all_good in
  let w := Sample.cached_world Sample.repo "cached text" in
  let w1 := snd (init Sample.service w) in
  exists result w',
    processRepo env Sample.service Sample.repo false w = (Ok result, w')
    /\ res_fromCache result = true
    /\ res_cacheKey result = generateCacheKey Sample.repo (Some "latest")
    /\ only not_ingest w w'
    /\ fs w' = fs w1.
Proof.
  intros env w w1.
  apply (cache_hit_short_circuit env Sample.service Sample.repo w w1 "latest"
           (snd (getLatestCommitShaFromGithub env Sample.repo w1)) "cached text");
    vm_compute; reflexivity.
Defined.

Lemma cache_roundtrip_witness :
  let env := Sample.env Sample.all_good in
  let meta := {| part_repoUrl := Some Sample.repo; part_commitSha := None;
                 part_size := Some 3%Z; part_cachedAt := None |} in
  let saved := saveToCache env Sample.service "0a1b" "packed text" meta
                 Sample.ready_world in
  exists metadata w'',
    loadFromCache env Sample.service "0a1b" (snd saved)
    = (Ok (Some {| cached_content := "packed text"; cached_metadata := metadata |}), w'')
    /\ meta_size metadata = content_length "packed text"
    /\ meta_repoUrl metadata = string_or (part_repoUrl meta) EmptyString
    /\ meta_commitSha metadata = string_or (part_commitSha meta) EmptyString.
Proof.
  intros env meta saved.
  apply (cache_roundtrip env Sample.service "0a1b" "packed text" meta
           Sample.ready_world (cachePath_of Sample.service "0a1b") (snd saved)).
  - apply sample_JSON_roundtrip.
  - vm_compute. reflexivity.
Defined.

Lemma loadFromCache_tolerates_bad_sidecar_witness :
  let env := Sample.env Sample.all_good in
  let w := Sample.truncated_world "0a1b" in
  exists now w',
    loadFromCache env Sample.service "0a1b" w
    = (Ok (Some {| cached_content := "packed text";
                   cached_metadata := synthesized_metadata "packed text" now |}), w')
    /\ meta_size (synthesized_metadata "packed text" now) = content_length "packed text"
    /\ fs w' = fs w.
Proof.
  intros env w.
  apply (loadFromCache_tolerates_bad_sidecar env Sample.service "0a1b" w "packed text").
  - vm_compute. reflexivity.
  - vm_compute. reflexivity.
Defined.

Lemma sample_cache_outside_temp : cache_outside_temp Sample.service.
Proof.
  intros name p Hp.
  assert (Hhead : exists rest, p = String "." (String "/" (String "c" rest))).
  { unfold Fs.under in Hp. cbn [Sample.service cacheDir] in Hp.
    apply orb_true_iff in Hp as [Hp|Hp].
    - apply String.eqb_eq in Hp as ->. eexists. reflexivity.
    - rewrite !app_cons in Hp.
      destruct p as [|c1 p]; [discriminate|]. cbn [Str.starts_with] in Hp.
      apply andb_true_iff in Hp as [->%Ascii.eqb_eq Hp].
      destruct p as [|c2 p]; [discriminate|]. cbn [Str.starts_with] in Hp.
      apply andb_true_iff in Hp as [->%Ascii.eqb_eq Hp].
      destruct p as [|c3 p]; [discriminate|]. cbn [Str.starts_with] in Hp.
      apply andb_true_iff in Hp as [->%Ascii.eqb_eq Hp].
      eexists. reflexivity. }
  destruct Hhead as [rest ->].
  unfold Fs.under, Fs.join. cbn [Sample.service tempDir].
  rewrite !app_cons. reflexivity.
Qed.

Lemma not_dir_insert_file m k d p :
  Fs.is_dir m p = false -> Fs.is_dir (<[k := File d]> m) p = false.
Proof.
  unfold Fs.is_dir. intros H. destruct (decide (k = p)) as [->|Hne].
  - rewrite lookup_insert_eq. reflexivity.
  - rewrite lookup_insert_ne by exact Hne. exact H.
Qed.

Lemma sample_cache_files_free :
  cache_files_free Sample.service (fs (snd (init Sample.service Sample.empty_world))).
Proof.
  assert (Hfs : fs (snd (init Sample.service Sample.empty_world))
                = <["./cache" := Dir]> (<["./temp" := Dir]> (<["." := Dir]> ∅)))
    by (vm_compute; reflexivity).
  rewrite Hfs. intros key. unfold Fs.is_dir, cachePath_of, metadataPath_of, Fs.join.
  cbn [Sample.service cacheDir]. rewrite !app_cons.
  split.
  all: rewrite !lookup_insert_ne by discriminate; rewrite lookup_empty; reflexivity.
Qed.

Lemma stale_cache_files_free :
  cache_files_free Sample.service (fs (snd (init Sample.service stale_world))).
Proof.
  assert (Hfs : fs (snd (init Sample.service stale_world))
                = <["./cache" := Dir]> (<["./temp" := Dir]> (<["." := Dir]>
                    (fs stale_world))))
    by (vm_compute; reflexivity).
  rewrite Hfs. intros key.
  assert (Hdirs : forall p,
            p <> "./cache" -> p <> "./temp" -> p <> "." ->
            Fs.is_dir (<["./cache" := Dir]> (<["./temp" := Dir]> (<["." := Dir]>
                         (fs stale_world)))) p = false).
  { intros p H1 H2 H3. unfold Fs.is_dir at 1.
    rewrite !lookup_insert_ne by (apply not_eq_sym; assumption).
    change (Fs.is_dir (fs stale_world) p = false).
    unfold stale_world. cbn [fs]. do 4 apply not_dir_insert_file.
    unfold Fs.is_dir. rewrite !lookup_insert_ne by (apply not_eq_sym; assumption).
    rewrite lookup_empty. reflexivity. }
  unfold cachePath_of, metadataPath_of, Fs.join.
  cbn [Sample.service cacheDir]. rewrite !app_cons.
  split; apply Hdirs; discriminate.
Qed.

Lemma forced_refresh_witness :
  let env := Sample.env Sample.all_good in
  let key := "f30957c257f137549562fea264efc49302a894f1d859280a100595e1f33a5473" in
  fs stale_world !! cachePath_of Sample.service key = Some (File "stale text")
  /\ fs stale_world !! metadataPath_of Sample.service key
     = Some (File (Sample.stringify_metadata (stale_metadata "4f2a9c1e")))
  /\ exists w' repoPath evs,
       processRepo env Sample.service Sample.repo true stale_world
       = (Ok {| res_cacheKey := key;
                res_fromCache := false;
                res_repoUrl := Some Sample.repo;
                res_commitSha := Some "4f2a9c1e";
                res_size := Some 11%Z;
                res_cachedAt := None |}, w')
       /\ fs w' !! cachePath_of Sample.service key = Some (File "packed text")
       /\ fs w' !! metadataPath_of Sample.service key
          = Some (File (Sample.stringify_metadata Sample.sample_metadata))
       /\ continues stale_world evs w'
       /\ forallb (no_cache_read Sample.service) evs = true
       /\ In (EvGitClone Sample.repo repoPath true) evs
       /\ In (EvGitRevParse repoPath true) evs
       /\ In (EvRepomix repoPath (Fs.join repoPath "repomix-output.txt") true) evs
       /\ In (EvWriteFile (cachePath_of Sample.service key) "packed text") evs
       /\ In (EvRm repoPath) evs.
Proof.
  intros env key.
  split; [vm_compute; reflexivity|].
  split; [vm_compute; reflexivity|].
  destruct (forced_refresh env Sample.service Sample.repo stale_world) as [_ Hrun].
  destruct (Hrun (snd (init Sample.service stale_world))
              (Ok ("4f2a9c1e" +:+ String Sample.newline EmptyString)) "packed text")
    as (w' & repoPath & at_ & evs & H).
  - vm_compute. reflexivity.
  - apply sample_cache_outside_temp.
  - apply stale_cache_files_free.
  - intros n p. eexists. reflexivity.
  - intros n p. reflexivity.
  - intros n p o. reflexivity.
  - assert (Hkey : generateCacheKey Sample.repo
                     (Some (revision_read
                              (Ok ("4f2a9c1e" +:+ String Sample.newline EmptyString))))
                   = key) by (vm_compute; reflexivity).
    cbv zeta in H. rewrite Hkey in H.
    destruct H as (Hp & Hc & Hm & Ht & Hq & I1 & I2 & I3 & I4 & _ & I6).
    exists w', repoPath, evs.
    split; [exact Hp|]. split; [exact Hc|]. split; [exact Hm|].
    split; [exact Ht|]. split; [exact Hq|]. split; [exact I1|].
    split; [exact I2|]. split; [exact I3|]. split; [exact I4|]. exact I6.
Defined.

Lemma optimistic_resolution_witness :
  let env := Sample.env Sample.only_master in
  let offline := Sample.env Sample.all_good in
  let main := commits_url "octo" "demo" "main" in
  let master := commits_url "octo" "demo" "master" in
  getLatestCommitShaFromGithub env Sample.repo Sample.empty_world
  = (Ok "9d1c0ffe", {| fs := ∅; trace := [EvFetch master; EvFetch main] |})
  /\ (exists text,
        getLatestCommitShaFromGithub (Sample.env Sample.no_branch) Sample.repo
          Sample.empty_world
        = (Ok "latest",
           {| fs := ∅;
              trace := [EvConsole WarnLevel text; EvFetch master; EvFetch main] |}))
  /\ (exists text,
        getLatestCommitShaFromGithub env "git@example.org:octo/demo" Sample.empty_world
        = (Ok "latest", {| fs := ∅; trace := [EvConsole WarnLevel text] |}))
  /\ (exists result w',
        processRepo offline Sample.service Sample.repo false
          (Sample.cached_world Sample.repo "cached text") = (Ok result, w')
        /\ res_fromCache result = true
        /\ res_cacheKey result = generateCacheKey Sample.repo (Some "latest")).
Proof.
  intros env offline main master.
  split; [|split; [|split]].
  - destruct (optimistic_resolution_never_raises env Sample.repo Sample.empty_world)
      as (_ & _ & H & _).
    destruct (H "octo" "demo" eq_refl) as (_ & H2).
    destruct (H2 {| resp_ok := false; resp_json_sha := None |} eq_refl eq_refl)
      as (H3 & _).
    exact (H3 {| resp_ok := true; resp_json_sha := Some "9d1c0ffe" |} "9d1c0ffe"
             eq_refl eq_refl eq_refl).
  - destruct (optimistic_resolution_never_raises (Sample.env Sample.no_branch)
                Sample.repo Sample.empty_world) as (_ & _ & H & _).
    destruct (H "octo" "demo" eq_refl) as (_ & H2).
    destruct (H2 {| resp_ok := false; resp_json_sha := None |} eq_refl eq_refl)
      as (_ & H3).
    exact (H3 {| resp_ok := false; resp_json_sha := None |} eq_refl eq_refl).
  - destruct (optimistic_resolution_never_raises env "git@example.org:octo/demo"
                Sample.empty_world) as (_ & H & _).
    exact (H eq_refl).
  - destruct (optimistic_resolution_never_raises offline Sample.repo Sample.empty_world)
      as (_ & _ & _ & H).
    apply (H Sample.service (Sample.cached_world Sample.repo "cached text")
             (snd (init Sample.service (Sample.cached_world Sample.repo "cached text")))
             (snd (getLatestCommitShaFromGithub offline Sample.repo
                     (snd (init Sample.service
                             (Sample.cached_world Sample.repo "cached text")))))
             "cached text"); vm_compute; reflexivity.
Defined.

Lemma failed_invocation_recorded_witness :
  let sc := Sample.one_failing_call in
  let env := Sample.env sc in
  let l := Sample.after_first_call sc in
  let failed := processRepo env Sample.service Sample.missing_repo false
                  Sample.empty_world in
  (handle_call env Sample.groq Sample.service missing_call (l, Sample.empty_world)
   = (Ok tt,
      (push_toolCall
         (error_record missing_call
            "Failed to clone repository: Command failed: git clone") l,
       snd failed))
   /\ only not_groq Sample.empty_world (snd failed))
  /\ exists reply s',
       chat_tools_and_reply env Sample.groq Sample.service (l, Sample.empty_world)
       = (Ok {| chat_status := 200; chat_body := ChatJson reply |}, s')
       /\ resp_response reply = "Let me look at that repository."
       /\ resp_cacheKey reply = None.
Proof.
  intros sc env l failed.
  destruct (failed_invocation_recorded env Sample.groq Sample.service)
    as (Hfail & _ & Hreply).
  split.
  - apply (Hfail missing_call l Sample.empty_world
             "Failed to clone repository: Command failed: git clone" (snd failed)).
    + reflexivity.
    + vm_compute. reflexivity.
  - destruct (Hreply l Sample.empty_world [missing_call]) as (reply & s' & Hrun & Hkeep).
    + vm_compute. reflexivity.
    + reflexivity.
    + exists reply, s'. split; [exact Hrun|].
      apply Hkeep.
      assert (Hrun' : chat_tools_and_reply env Sample.groq Sample.service
                        (l, Sample.empty_world)
                      = (Ok {| chat_status := 200;
                               chat_body :=
                                 ChatJson
                                   (reply_of
                                      (push_toolCall
                                         (error_record missing_call
                                            "Failed to clone repository: Command failed: git clone")
                                         l)) |},
                         (push_toolCall
                            (error_record missing_call
                               "Failed to clone repository: Command failed: git clone")
                            l, snd failed)))
        by (vm_compute; reflexivity).
      rewrite Hrun' in Hrun. injection Hrun as <- _.
      intros t [<-|[]]. reflexivity.
Defined.

(** C7 as stated does not hold.  In a turn whose first invocation
    succeeds and whose second one throws, the failure is on record and
    the status is 200, but the text of the reply is that of the second
    model call, not that of the first. *)
Lemma failed_invocation_text_counterexample :
  let sc := Sample.two_calls in
  let env := Sample.env sc in
  let out := fst (chat_handler env (Sample.request "What is in there?")
                    Sample.empty_world) in
  fst (chat env Sample.groq
         [ {| msg_role := user; msg_content := Some "What is in there?";
              msg_tool_call_id := None; msg_tool_calls := None |} ]
         (Some toolDefinitions) None Sample.empty_world)
  = Ok {| gr_message := Sample.first_answer sc;
          gr_usage := {| prompt_tokens := 10; completion_tokens := 5;
                         total_tokens := 15 |};
          gr_finishReason := "stop" |}
  /\ msg_content (Sample.first_answer sc) = Some "Let me look at both repositories."
  /\ Sample.reply_status out = Some 200
  /\ Sample.reply_errors out
     = [None; Some "Failed to clone repository: Command failed: git clone"]
  /\ Sample.reply_text out = Some "answer from the repository context"
  /\ Sample.reply_text out <> Some "Let me look at both repositories.".
Proof.
  intros sc env out.
  split; [vm_compute; reflexivity|].
  split; [reflexivity|].
  split; [vm_compute; reflexivity|].
  split; [vm_compute; reflexivity|].
  assert (E : Sample.reply_text out = Some "answer from the repository context")
    by (vm_compute; reflexivity).
  split; [exact E|]. rewrite E. discriminate.
Qed.

Lemma pack_handler_rejects env body w :
  pack_repoUrl body <> EmptyString ->
  Str.includes "github.com" (pack_repoUrl body) = false ->
  pack_handler env body w
  = (Ok {| pack_status := 400;
           pack_body := inr "Only GitHub URLs are supported currently" |}, w).
Proof.
  intros Hne Hno. unfold pack_handler, try_catch.
  destruct (pack_repoUrl body) as [|c rest]; [congruence|].
  rewrite Hno. reflexivity.
Qed.

(** C6. [processRepo] does not validate its source.  The pack route
    refuses a GitLab URL with status 400 and touches nothing, but the
    test is in the route: [processRepo] called on that URL clones it
    into a workspace, packs it and returns a fresh result, and a chat
    turn in which the model asks for that URL runs the whole pipeline,
    records a result without an error and answers with status 200. *)
Theorem chat_path_ingests_unsupported_source :
  let env := Sample.env Sample.gitlab_call in
  let packed := pack_handler env {| pack_repoUrl := Sample.gitlab_repo;
                                    pack_forceRefresh := None |} Sample.empty_world in
  let run := processRepo env Sample.service Sample.gitlab_repo false
               Sample.empty_world in
  let turn := chat_handler env (Sample.request "What is in there?")
                Sample.empty_world in
  Str.includes "github.com" Sample.gitlab_repo = false
  /\ match_github Sample.gitlab_repo = None
  /\ packed = (Ok {| pack_status := 400;
                     pack_body := inr "Only GitHub URLs are supported currently" |},
               Sample.empty_world)
  /\ fst run
     = Ok {| res_cacheKey := generateCacheKey Sample.gitlab_repo (Some "4f2a9c1e");
             res_fromCache := false;
             res_repoUrl := Some Sample.gitlab_repo;
             res_commitSha := Some "4f2a9c1e";
             res_size := Some 11%Z;
             res_cachedAt := None |}
  /\ Sample.workspaces (trace (snd run)) = ["./temp/demo-1700000000004"]
  /\ Sample.reply_status (fst turn) = Some 200
  /\ Sample.reply_errors (fst turn) = [None]
  /\ Sample.workspaces (trace (snd turn)) = ["./temp/demo-1700000000005"].
Proof.
  intros env packed run turn.
  repeat split; vm_compute; reflexivity.
Qed.

Lemma other_tools_silently_skipped_witness :
  let sc := Sample.other_tool_call in
  let env := Sample.env sc in
  let l := Sample.after_first_call sc in
  handle_call env Sample.groq Sample.service search_call (l, Sample.empty_world)
  = (Ok tt, (l, Sample.empty_world))
  /\ chat_tools_and_reply env Sample.groq Sample.service (l, Sample.empty_world)
     = (Ok {| chat_status := 200; chat_body := ChatJson (reply_of l) |},
        (l, Sample.empty_world)).
Proof.
  intros sc env l.
  destruct (other_tools_silently_skipped env Sample.groq Sample.service)
    as (Hskip & _ & Hreply & _).
  split.
  - apply Hskip. discriminate.
  - apply (Hreply l Sample.empty_world [search_call]).
    + vm_compute. reflexivity.
    + constructor; [discriminate|constructor].
Defined.

(** ** What follows the last separator *)

Lemma last_segment_no_sep sep t acc :
  all_chars (fun c => negb (Ascii.eqb c sep)) t = true ->
  Str.last_segment sep t acc = acc +:+ t.
Proof.
  revert acc. induction t as [|c t IH]; intros acc H.
  - cbn [Str.last_segment]. induction acc as [|x acc IHa]; [reflexivity|].
    rewrite app_cons, <- IHa. reflexivity.
  - cbn [all_chars] in H. apply andb_true_iff in H as [Hc Ht].
    cbn [Str.last_segment]. apply negb_true_iff in Hc. rewrite Hc.
    rewrite IH by exact Ht. rewrite append_assoc_. reflexivity.
Qed.

Lemma last_segment_app sep a t acc :
  Str.last_segment sep (a +:+ String sep t) acc = Str.last_segment sep t EmptyString.
Proof.
  revert acc. induction a as [|c a IH]; intros acc.
  - rewrite app_nil. cbn [Str.last_segment]. rewrite Ascii.eqb_refl. reflexivity.
  - rewrite app_cons. cbn [Str.last_segment].
    destruct (Ascii.eqb c sep); apply IH.
Qed.

Lemma last_segment_suffix sep a t acc :
  all_chars (fun c => negb (Ascii.eqb c sep)) t = true ->
  Str.last_segment sep (a +:+ String sep t) acc = t.
Proof.
  intros H. rewrite last_segment_app, last_segment_no_sep by exact H.
  apply app_nil.
Qed.

Lemma length_app (a b : string) :
  String.length (a +:+ b) = String.length a + String.length b.
Proof.
  induction a as [|x a IH]; [rewrite app_nil; reflexivity|].
  rewrite app_cons. cbn [String.length]. rewrite IH. reflexivity.
Qed.

Lemma append_inj_r (a b c : string) : a +:+ c = b +:+ c -> a = b.
Proof.
  revert b. induction a as [|x a IH]; intros [|y b] H.
  - reflexivity.
  - apply (f_equal String.length) in H. rewrite app_nil, app_cons in H.
    cbn [String.length] in H. rewrite length_app in H. lia.
  - apply (f_equal String.length) in H. rewrite app_nil, app_cons in H.
    cbn [String.length] in H. rewrite length_app in H. lia.
  - rewrite !app_cons in H. injection H as -> H. f_equal. apply IH, H.
Qed.

(** ** The files of two entries *)

Lemma cachePath_inj self key key' :
  cachePath_of self key = cachePath_of self key' -> key = key'.
Proof.
  unfold cachePath_of, Fs.join. intros H.
  do 2 apply append_inj_l in H. apply append_inj_r in H. exact H.
Qed.

Lemma metadataPath_inj self key key' :
  metadataPath_of self key = metadataPath_of self key' -> key = key'.
Proof.
  unfold metadataPath_of, Fs.join. intros H.
  do 2 apply append_inj_l in H. apply append_inj_r in H. exact H.
Qed.

Lemma cache_sidecar_differ self key key' :
  cachePath_of self key <> metadataPath_of self key'.
Proof.
  unfold cachePath_of, metadataPath_of, Fs.join. intros H.
  do 2 apply append_inj_l in H.
  apply (f_equal (fun s => Str.last_segment "." s EmptyString)) in H.
  change (key +:+ ".txt") with (key +:+ String "." "txt") in H.
  change (key' +:+ ".json") with (key' +:+ String "." "json") in H.
  rewrite !last_segment_suffix in H by reflexivity. discriminate.
Qed.

(** ** The cache routes *)

Lemma lookup_entry_other env self m m' key now :
  m' !! cachePath_of self key = m !! cachePath_of self key ->
  m' !! metadataPath_of self key = m !! metadataPath_of self key ->
  lookup_entry env self m' key now = lookup_entry env self m key now.
Proof. intros H1 H2. unfold lookup_entry. rewrite H1, H2. reflexivity. Qed.

Lemma status_handler_run env cacheKey w :
  exists evs,
    status_handler env cacheKey w
    = (Ok match lookup_entry env (new_RepomixService env) (fs w) cacheKey
                  (Date_toISOString env (2 + List.length (trace w))) with
          | Some cached =>
              {| status_status := 200;
                 status_body := inl {| st_exists := true; st_cacheKey := cacheKey;
                                       st_metadata := Some (cached_metadata cached) |} |}
          | None =>
              {| status_status := 404;
                 status_body := inl {| st_exists := false; st_cacheKey := cacheKey;
                                       st_metadata := None |} |}
          end,
       {| fs := fs w; trace := (evs ++ trace w)%list |})
    /\ forallb is_fs_read evs = true.
Proof.
  destruct (loadFromCache_run env (new_RepomixService env) cacheKey w) as (evs & E & Hr & _).
  exists evs. split; [|exact Hr].
  unfold status_handler, try_catch, bind. rewrite E.
  destruct (lookup_entry _ _ _ _ _); reflexivity.
Qed.

(** X1. The status route never answers 500 and touches nothing: it answers
    404 exactly when the content file of the key is no regular file,
    and otherwise 200 with the metadata of the entry, which is the
    record in the sidecar whenever that one parses. *)
Theorem status_reports_entry env cacheKey w :
  let self := new_RepomixService env in
  exists http w',
    status_handler env cacheKey w = (Ok http, w')
    /\ fs w' = fs w
    /\ only is_fs_read w w'
    /\ match fs w !! cachePath_of self cacheKey with
       | Some (File data) =>
           exists metadata,
             http = {| status_status := 200;
                       status_body := inl {| st_exists := true; st_cacheKey := cacheKey;
                                             st_metadata := Some metadata |} |}
             /\ (forall text m,
                   fs w !! metadataPath_of self cacheKey = Some (File text) ->
                   JSON_parse_metadata env text = Some m -> metadata = m)
             /\ (sidecar_unusable env self (fs w) cacheKey ->
                 meta_size metadata = content_length data)
       | _ =>
           http = {| status_status := 404;
                     status_body := inl {| st_exists := false; st_cacheKey := cacheKey;
                                           st_metadata := None |} |}
       end.
Proof.
  intros self.
  destruct (status_handler_run env cacheKey w) as (evs & E & Hr).
  eexists _, _. split; [exact E|]. split; [reflexivity|].
  split; [exists evs; split; [reflexivity|exact Hr]|].
  unfold lookup_entry. fold self.
  destruct (fs w !! cachePath_of self cacheKey) as [[data|]|]; [|reflexivity..].
  eexists. split; [reflexivity|]. cbn [cached_metadata]. split.
  - intros text m Ht Hm. rewrite Ht, Hm. reflexivity.
  - unfold sidecar_unusable. intros Hs.
    destruct (fs w !! metadataPath_of self cacheKey) as [[text|]|];
      rewrite ?Hs; reflexivity.
Qed.

Lemma ancestors_from_no_slash done_ s :
  all_chars not_slash s = true -> Fs.ancestors_from done_ s = [].
Proof.
  revert done_. induction s as [|c s IH]; intros done_ H; [reflexivity|].
  cbn [all_chars] in H. apply andb_true_iff in H as [Hc Hs].
  cbn [Fs.ancestors_from]. unfold not_slash in Hc. apply negb_true_iff in Hc.
  rewrite Hc. apply IH, Hs.
Qed.

Lemma ancestors_from_app done_ a b :
  all_chars not_slash b = true ->
  Fs.ancestors_from done_ (a +:+ b) = Fs.ancestors_from done_ a.
Proof.
  intros Hb. revert done_. induction a as [|c a IH]; intros done_.
  - rewrite app_nil. apply ancestors_from_no_slash, Hb.
  - rewrite app_cons. cbn [Fs.ancestors_from]. rewrite IH. reflexivity.
Qed.

(** The directories on the way to a file of a key are those on the way
    into the cache directory. *)
Lemma ancestors_key_file dir key ext :
  all_chars is_hex_char key = true ->
  all_chars not_slash ext = true ->
  Fs.ancestors (dir +:+ "/" +:+ key +:+ ext) = Fs.ancestors (dir +:+ "/").
Proof.
  intros Hk He. unfold Fs.ancestors.
  rewrite <- (append_assoc_ dir "/" (key +:+ ext)).
  apply ancestors_from_app, all_chars_app; [|exact He].
  eapply all_chars_weaken; [apply hex_not_slash|exact Hk].
Qed.

Lemma no_file_after_delete m p l :
  existsb (Fs.is_file m) l = false -> existsb (Fs.is_file (delete p m)) l = false.
Proof.
  induction l as [|q l IH]; [reflexivity|]. cbn [existsb].
  intros H. apply orb_false_iff in H as [Hq Hl]. rewrite (IH Hl), orb_false_r.
  unfold Fs.is_file in *. destruct (decide (p = q)) as [->|Hne].
  - rewrite lookup_delete_eq. reflexivity.
  - rewrite lookup_delete_ne by exact Hne. exact Hq.
Qed.

Lemma delete_handler_run env cacheKey w :
  all_chars is_hex_char cacheKey = true ->
  let self := new_RepomixService env in
  let cachePath := cachePath_of self cacheKey in
  let metadataPath := metadataPath_of self cacheKey in
  let blocked := existsb (Fs.is_file (fs w)) (Fs.ancestors (cacheDir self +:+ "/")) in
  Fs.ancestors cachePath = Fs.ancestors (cacheDir self +:+ "/")
  /\ exists http evs,
    delete_handler env cacheKey w
    = (Ok http,
       {| fs := if blocked then fs w
                else if Fs.is_dir (fs w) cachePath then fs w
                else if Fs.is_dir (fs w) metadataPath then delete cachePath (fs w)
                else delete metadataPath (delete cachePath (fs w));
          trace := (evs ++ trace w)%list |})
    /\ (delete_status http = 500 /\ (exists e, delete_body http = DeleteError e)
        /\ blocked || Fs.is_dir (fs w) cachePath || Fs.is_dir (fs w) metadataPath = true
        \/ http = {| delete_status := 200;
                     delete_body := DeleteDone true "Cache deleted" |}
           /\ blocked || Fs.is_dir (fs w) cachePath || Fs.is_dir (fs w) metadataPath
              = false).
Proof.
  intros Hkey self cachePath metadataPath blocked.
  assert (A1 : Fs.ancestors cachePath = Fs.ancestors (cacheDir self +:+ "/"))
    by (apply ancestors_key_file; [exact Hkey|reflexivity]).
  assert (A2 : Fs.ancestors metadataPath = Fs.ancestors (cacheDir self +:+ "/"))
    by (apply ancestors_key_file; [exact Hkey|reflexivity]).
  split; [exact A1|].
  destruct w as [m tr]. cbn [fs] in blocked.
  unfold delete_handler, Fs.rm_force. fold self.
  change (cacheDir self +:+ "/" +:+ cacheKey +:+ ".txt") with cachePath.
  change (cacheDir self +:+ "/" +:+ cacheKey +:+ ".json") with metadataPath.
  run. rewrite A1, A2. fold blocked.
  destruct blocked eqn:E0; run.
  { eexists _, [_; _]. split; [reflexivity|]. left. cbn. eauto. }
  destruct (Fs.is_dir m cachePath) eqn:E1; run.
  { eexists _, [_; _]. split; [reflexivity|]. left. cbn. eauto. }
  rewrite (no_file_after_delete m cachePath _ E0).
  assert (E2 : Fs.is_dir (delete cachePath m) metadataPath = Fs.is_dir m metadataPath).
  { unfold Fs.is_dir. rewrite lookup_delete_ne; [reflexivity|].
    apply cache_sidecar_differ. }
  rewrite E2. destruct (Fs.is_dir m metadataPath) eqn:E3; run.
  - eexists _, [_; _; _]. split; [reflexivity|]. left. cbn. eauto.
  - eexists _, [_; _]. split; [reflexivity|]. right. split; reflexivity.
Qed.

(** X2. The delete route never throws, for a key of lowercase
    hexadecimal digits as [generateCacheKey] derives them.  It answers
    200 also for a key that was never cached.  It answers 500 exactly
    when a regular file sits on the way to the files of the key or a
    directory sits where one of the two files would be.  Whatever it
    answers, the entry of every other such key is what it was.  After
    a 200 neither file exists.  When only the sidecar path is a
    directory, the content file is gone although the answer is 500. *)
Theorem delete_handler_outcomes env cacheKey w :
  all_chars is_hex_char cacheKey = true ->
  let self := new_RepomixService env in
  let cachePath := cachePath_of self cacheKey in
  let metadataPath := metadataPath_of self cacheKey in
  let blocked := existsb (Fs.is_file (fs w)) (Fs.ancestors cachePath) in
  exists http w',
    delete_handler env cacheKey w = (Ok http, w')
    /\ (forall key now,
          all_chars is_hex_char key = true -> key <> cacheKey ->
          lookup_entry env self (fs w') key now = lookup_entry env self (fs w) key now)
    /\ (delete_status http = 200 \/ delete_status http = 500)
    /\ (delete_status http = 500 <->
        blocked = true
        \/ Fs.is_dir (fs w) cachePath = true \/ Fs.is_dir (fs w) metadataPath = true)
    /\ (delete_status http = 200 ->
        delete_body http = DeleteDone true "Cache deleted"
        /\ fs w' !! cachePath = None /\ fs w' !! metadataPath = None)
    /\ (blocked = false ->
        Fs.is_dir (fs w) cachePath = false ->
        Fs.is_dir (fs w) metadataPath = true ->
        fs w' !! cachePath = None /\ fs w' !! metadataPath = Some Dir).
Proof.
  intros Hkey self cachePath metadataPath blocked.
  destruct (delete_handler_run env cacheKey w Hkey) as (Ha & http & evs & E & Hout).
  fold self cachePath metadataPath in Ha, E, Hout.
  unfold blocked. rewrite Ha. clear blocked.
  set (blocked := existsb _ _) in *.
  assert (Hne : cachePath <> metadataPath) by apply cache_sidecar_differ.
  eexists _, _. split; [exact E|]. cbn [fs].
  split.
  { intros key now _ Hk. apply lookup_entry_other.
    - destruct blocked; [reflexivity|].
      destruct (Fs.is_dir (fs w) cachePath); [reflexivity|].
      assert (cachePath <> cachePath_of self key)
        by (intros Heq; apply Hk; symmetry; apply (cachePath_inj self), Heq).
      assert (metadataPath <> cachePath_of self key)
        by (intros Heq; symmetry in Heq; revert Heq; apply cache_sidecar_differ).
      destruct (Fs.is_dir (fs w) metadataPath);
        rewrite ?lookup_delete_ne by assumption; reflexivity.
    - destruct blocked; [reflexivity|].
      destruct (Fs.is_dir (fs w) cachePath); [reflexivity|].
      assert (cachePath <> metadataPath_of self key) by apply cache_sidecar_differ.
      assert (metadataPath <> metadataPath_of self key)
        by (intros Heq; apply Hk; symmetry; apply (metadataPath_inj self), Heq).
      destruct (Fs.is_dir (fs w) metadataPath);
        rewrite ?lookup_delete_ne by assumption; reflexivity. }
  destruct Hout as [(Hs & _ & Hd)|(-> & Hd)]; cbn [delete_status delete_body].
  - rewrite Hs. split; [right; reflexivity|]. split.
    { split; [intros _|reflexivity].
      apply orb_true_iff in Hd as [Hd|Hd]; [|right; right; exact Hd].
      apply orb_true_iff in Hd as [Hd|Hd]; [left|right; left]; exact Hd. }
    split; [discriminate|].
    intros H0 H1 H2. rewrite H0, H1, H2. split.
    + apply lookup_delete_eq.
    + rewrite lookup_delete_ne by congruence.
      unfold Fs.is_dir in H2. destruct (fs w !! metadataPath) as [[|]|]; congruence.
  - apply orb_false_iff in Hd as [Hd H2]. apply orb_false_iff in Hd as [H0 H1].
    rewrite H0, H1, H2.
    split; [left; reflexivity|]. split.
    { split; [discriminate|intros [?|[?|?]]; congruence]. }
    split; [|congruence].
    intros _. split; [reflexivity|]. split.
    + rewrite lookup_delete_ne by congruence. apply lookup_delete_eq.
    + apply lookup_delete_eq.
Qed.

(** X3. After the delete route answered 200 for a key of lowercase
    hexadecimal digits, the key is a miss for [loadFromCache] and a 404
    for the status route, while the entry of every other such key is
    what it was. *)
Theorem delete_then_miss env cacheKey w http w' :
  let self := new_RepomixService env in
  all_chars is_hex_char cacheKey = true ->
  delete_handler env cacheKey w = (Ok http, w') ->
  delete_status http = 200 ->
  (exists w'', loadFromCache env self cacheKey w' = (Ok None, w''))
  /\ (exists w'',
        status_handler env cacheKey w'
        = (Ok {| status_status := 404;
                 status_body := inl {| st_exists := false; st_cacheKey := cacheKey;
                                       st_metadata := None |} |}, w''))
  /\ (forall key now,
        all_chars is_hex_char key = true ->
        key <> cacheKey ->
        lookup_entry env self (fs w') key now = lookup_entry env self (fs w) key now).
Proof.
  intros self Hkey Hrun Hok.
  destruct (delete_handler_run env cacheKey w Hkey) as (_ & http0 & evs & E & Hout).
  fold self in E, Hout.
  rewrite Hrun in E. injection E as <- ->.
  destruct Hout as [(Hs & _)|(_ & Hd)]; [congruence|].
  apply orb_false_iff in Hd as [Hd H2]. apply orb_false_iff in Hd as [H0 H1].
  unfold self in H0. cbn [new_RepomixService cacheDir] in H0.
  cbn [fs]. rewrite H0, H1, H2.
  assert (Hne : cachePath_of self cacheKey <> metadataPath_of self cacheKey)
    by apply cache_sidecar_differ.
  assert (Hc : delete (metadataPath_of self cacheKey)
                 (delete (cachePath_of self cacheKey) (fs w))
               !! cachePath_of self cacheKey = None).
  { rewrite lookup_delete_ne by congruence. apply lookup_delete_eq. }
  split; [|split].
  - destruct (loadFromCache_run env self cacheKey
                {| fs := delete (metadataPath_of self cacheKey)
                           (delete (cachePath_of self cacheKey) (fs w));
                   trace := (evs ++ trace w)%list |}) as (evs' & E & _).
    eexists. rewrite E. unfold lookup_entry. cbn [fs]. rewrite Hc. reflexivity.
  - destruct (status_handler_run env cacheKey
                {| fs := delete (metadataPath_of self cacheKey)
                           (delete (cachePath_of self cacheKey) (fs w));
                   trace := (evs ++ trace w)%list |}) as (evs' & E & _).
    eexists. rewrite E. unfold lookup_entry. fold self. cbn [fs]. rewrite Hc. reflexivity.
  - intros key now _ Hk.
    apply lookup_entry_other; rewrite !lookup_delete_ne; try reflexivity.
    + intros H. apply Hk. symmetry. apply (cachePath_inj self), H.
    + intros H. symmetry in H. revert H. apply cache_sidecar_differ.
    + apply cache_sidecar_differ.
    + intros H. apply Hk. symmetry. apply (metadataPath_inj self), H.
Qed.

Ltac run_in H :=
  cbv beta iota zeta delta
    [bind try_catch ret throw gets modify emit tick set_fs console
     Fs.access Fs.readFile Fs.writeFile Fs.rm Fs.mkdir
     fetch git_clone git_rev_parse repomix Date_now_ new_Date_toISOString
     JSON_parse_ json_sha fs trace fst snd negb] in H.

(** ** Reading and writing entries *)

(** X4. [loadFromCache] never throws and only reads.  It returns [null]
    exactly when the content path holds no regular file (nothing, or a
    directory); otherwise the content is that of the file, and a
    sidecar that parses is returned as it is, whatever it says. *)
Theorem loadFromCache_miss_or_entry env self key w :
  exists cached w',
    loadFromCache env self key w = (Ok cached, w')
    /\ fs w' = fs w
    /\ only is_fs_read w w'
    /\ (cached = None <-> Fs.is_file (fs w) (cachePath_of self key) = false)
    /\ (forall entry,
          cached = Some entry ->
          fs w !! cachePath_of self key = Some (File (cached_content entry))
          /\ forall text m,
               fs w !! metadataPath_of self key = Some (File text) ->
               JSON_parse_metadata env text = Some m ->
               cached_metadata entry = m).
Proof.
  destruct (loadFromCache_run env self key w) as (evs & E & Hr & _).
  eexists _, _. split; [exact E|]. split; [reflexivity|].
  split; [exists evs; split; [reflexivity|exact Hr]|].
  unfold lookup_entry, Fs.is_file.
  destruct (fs w !! cachePath_of self key) as [[data|]|].
  - split; [split; discriminate|].
    intros entry [= <-]. split; [reflexivity|].
    intros text m Ht Hm. cbn [cached_metadata]. rewrite Ht, Hm. reflexivity.
  - split; [split; reflexivity|discriminate].
  - split; [split; reflexivity|discriminate].
Qed.

Lemma is_entry_file_false self key p :
  is_entry_file self key p = false ->
  p <> cachePath_of self key /\ p <> metadataPath_of self key.
Proof.
  unfold is_entry_file. intros H. apply orb_false_iff in H as [H1 H2].
  split; intros ->; rewrite String.eqb_refl in *; discriminate.
Qed.

Lemma other_entry_files self key key' :
  key' <> key ->
  is_entry_file self key (cachePath_of self key') = false
  /\ is_entry_file self key (metadataPath_of self key') = false.
Proof.
  intros Hne. unfold is_entry_file. split; apply orb_false_iff; split;
    apply String.eqb_neq.
  - intros H. apply Hne, (cachePath_inj self), H.
  - apply cache_sidecar_differ.
  - apply not_eq_sym, cache_sidecar_differ.
  - intros H. apply Hne, (metadataPath_inj self), H.
Qed.

(** X5. For keys of lowercase hexadecimal digits, as [generateCacheKey]
    derives them, writing the entry of one key leaves the entry of
    every other key as it was, whether [saveToCache] returns or
    throws. *)
Theorem saveToCache_keeps_other_entries env self key content meta w r w' key' now :
  all_chars is_hex_char key = true ->
  all_chars is_hex_char key' = true ->
  saveToCache env self key content meta w = (r, w') ->
  key' <> key ->
  lookup_entry env self (fs w') key' now = lookup_entry env self (fs w) key' now.
Proof.
  intros _ _ Hrun Hne.
  pose proof (preserves_run _ _ _ _ _
                (saveToCache_same_nodes (is_entry_file self key) env self key content meta
                   ltac:(unfold is_entry_file; rewrite String.eqb_refl; reflexivity)
                   ltac:(unfold is_entry_file; rewrite String.eqb_refl; apply orb_true_r))
                Hrun) as Hsame.
  destruct (other_entry_files self key key' Hne) as [H1 H2].
  apply lookup_entry_other; apply Hsame; assumption.
Qed.

(** X6. When [saveToCache] throws, the error carries its prefix and the
    sidecar has not been written.  Either nothing was written at all,
    or the content file was: the entry is then visible to
    [loadFromCache] without its sidecar, with synthesized metadata when
    a directory is what stood in the way of the sidecar. *)
Theorem saveToCache_failure_leaves_content env self key content meta w e w' :
  saveToCache env self key content meta w = (Err e, w') ->
  (exists e', e = "Failed to save to cache: " +:+ e')
  /\ fs w' !! metadataPath_of self key = fs w !! metadataPath_of self key
  /\ (fs w' = fs w
      \/ fs w' = <[cachePath_of self key := File content]> (fs w)
         /\ (exists entry w'',
               loadFromCache env self key w' = (Ok (Some entry), w'')
               /\ cached_content entry = content)
         /\ (Fs.is_dir (fs w) (metadataPath_of self key) = true ->
             exists now w'',
               loadFromCache env self key w'
               = (Ok (Some {| cached_content := content;
                              cached_metadata := synthesized_metadata content now |}),
                  w''))).
Proof.
  intros Hrun. split; [eapply saveToCache_err, Hrun|].
  assert (Hne : cachePath_of self key <> metadataPath_of self key)
    by apply cache_sidecar_differ.
  destruct w as [m tr]. unfold saveToCache in Hrun. run_in Hrun.
  destruct (Fs.is_dir m (cachePath_of self key)); run_in Hrun.
  { injection Hrun as _ <-. split; [reflexivity|left; reflexivity]. }
  destruct (Fs.parent_ok m (cachePath_of self key)); run_in Hrun.
  2:{ injection Hrun as _ <-. split; [reflexivity|left; reflexivity]. }
  destruct (Fs.is_dir _ (metadataPath_of self key)) eqn:Ed; run_in Hrun.
  2:{ destruct (Fs.parent_ok _ (metadataPath_of self key)); run_in Hrun;
        [discriminate|].
      injection Hrun as _ <-. cbn [fs].
      split; [apply lookup_insert_ne; congruence|]. right.
      split; [reflexivity|]. split.
      - match goal with |- context [loadFromCache _ _ _ ?w0] =>
          destruct (loadFromCache_run env self key w0) as (evs & E & _) end.
        rewrite E. unfold lookup_entry. cbn [fs]. rewrite lookup_insert_eq.
        eexists _, _. split; [reflexivity|reflexivity].
      - intros Hd. exfalso. unfold Fs.is_dir in Ed, Hd.
        rewrite lookup_insert_ne in Ed by congruence.
        destruct (m !! metadataPath_of self key) as [[|]|]; discriminate. }
  injection Hrun as _ <-. cbn [fs].
  split; [apply lookup_insert_ne; congruence|]. right.
  split; [reflexivity|].
  match goal with |- context [loadFromCache _ _ _ ?w0] =>
    destruct (loadFromCache_run env self key w0) as (evs & E & _) end.
  rewrite E. unfold lookup_entry. cbn [fs]. rewrite lookup_insert_eq.
  split; [eexists _, _; split; reflexivity|].
  intros _. unfold Fs.is_dir in Ed.
  destruct (_ !! metadataPath_of self key) as [[|]|] eqn:El; try discriminate.
  eexists _, _. reflexivity.
Qed.

(** ** The service directories *)

Lemma make_dirs_in ps m q : In q ps -> Fs.make_dirs ps m !! q = Some Dir.
Proof.
  induction ps as [|p ps IH]; [intros []|]. intros [->|Hin]; cbn [Fs.make_dirs foldr].
  - apply lookup_insert_eq.
  - destruct (decide (p = q)) as [->|Hne]; [apply lookup_insert_eq|].
    rewrite lookup_insert_ne by exact Hne. apply IH, Hin.
Qed.

Lemma make_dirs_keeps_dir ps m q :
  m !! q = Some Dir -> Fs.make_dirs ps m !! q = Some Dir.
Proof.
  intros H. induction ps as [|p ps IH]; [exact H|]. cbn [Fs.make_dirs foldr].
  destruct (decide (p = q)) as [->|Hne]; [apply lookup_insert_eq|].
  rewrite lookup_insert_ne by exact Hne. exact IH.
Qed.

Lemma make_dirs_id ps m :
  (forall q, In q ps -> m !! q = Some Dir) -> Fs.make_dirs ps m = m.
Proof.
  induction ps as [|p ps IH]; intros H; [reflexivity|]. cbn [Fs.make_dirs foldr].
  change (foldr _ m ps) with (Fs.make_dirs ps m).
  rewrite IH by (intros q Hq; apply H; right; exact Hq).
  apply insert_id, H. left. reflexivity.
Qed.

Lemma no_file_among_dirs ps m :
  (forall q, In q ps -> m !! q = Some Dir) -> existsb (Fs.is_file m) ps = false.
Proof.
  induction ps as [|p ps IH]; intros H; [reflexivity|]. cbn [existsb].
  unfold Fs.is_file at 1. rewrite (H p) by (left; reflexivity).
  apply IH. intros q Hq. apply H. right. exact Hq.
Qed.

Lemma mkdir_existing p w :
  (forall q, In q (Fs.ancestors p ++ [p])%list -> fs w !! q = Some Dir) ->
  Fs.mkdir p w = (Ok tt, {| fs := fs w; trace := EvMkdir p :: trace w |}).
Proof.
  intros H. destruct w as [m tr]. run. cbn [fs] in H.
  rewrite no_file_among_dirs
    by (intros q Hq; apply H, in_or_app; left; exact Hq).
  unfold Fs.is_file. rewrite (H p) by (apply in_or_app; right; left; reflexivity).
  run. rewrite make_dirs_id by exact H. reflexivity.
Qed.

Lemma is_file_make_dirs ps m q :
  existsb (Fs.is_file m) ps = false ->
  Fs.is_file (Fs.make_dirs ps m) q = Fs.is_file m q.
Proof.
  intros H. pose proof (make_dirs_files ps m H) as Hq. unfold Fs.is_file.
  destruct (Fs.make_dirs ps m !! q) as [[d|]|] eqn:E.
  - apply Hq in E. rewrite E. reflexivity.
  - destruct (m !! q) as [[d|]|] eqn:E'; [|reflexivity..].
    apply Hq in E'. congruence.
  - destruct (m !! q) as [[d|]|] eqn:E'; [|reflexivity..].
    apply Hq in E'. congruence.
Qed.

Lemma existsb_ext_ {A} (f g : A -> bool) l :
  (forall a, f a = g a) -> existsb f l = existsb g l.
Proof. intros H. induction l as [|a l IH]; [reflexivity|]. cbn. rewrite H, IH. reflexivity. Qed.

Lemma no_file_on_the_way m p :
  existsb (Fs.is_file m) (Fs.ancestors p) = false ->
  Fs.is_file m p = false ->
  existsb (Fs.is_file m) (Fs.ancestors p ++ [p]) = false.
Proof. intros H1 H2. rewrite existsb_app, H1. cbn. rewrite H2. reflexivity. Qed.

(** X7. [init] creates what is missing and destroys nothing.  When it
    returns, both service directories are directories and the regular
    files are those there were; a directory stays one; and running it
    again succeeds and changes nothing.  It throws only for one of the
    two paths it is to create: [ENOTDIR] when a regular file sits on
    the way to that path, [EEXIST] when one sits at the path itself;
    and then too no regular file has changed. *)
Theorem init_is_idempotent self w r w1 :
  init self w = (r, w1) ->
  (forall p d, fs w1 !! p = Some (File d) <-> fs w !! p = Some (File d))
  /\ (forall p, fs w !! p = Some Dir -> fs w1 !! p = Some Dir)
  /\ (forall e, r = Err e ->
        exists p,
          (p = tempDir self \/ p = cacheDir self)
          /\ (e = "ENOTDIR: not a directory, mkdir '" +:+ p +:+ "'"
              /\ existsb (Fs.is_file (fs w)) (Fs.ancestors p) = true
              \/ e = "EEXIST: file already exists, mkdir '" +:+ p +:+ "'"
                 /\ existsb (Fs.is_file (fs w)) (Fs.ancestors p) = false
                 /\ Fs.is_file (fs w) p = true))
  /\ (r = Ok tt ->
        fs w1 !! tempDir self = Some Dir
        /\ fs w1 !! cacheDir self = Some Dir
        /\ exists w2, init self w1 = (Ok tt, w2) /\ fs w2 = fs w1).
Proof.
  destruct w as [m tr]. unfold init. run.
  set (pt := (Fs.ancestors (tempDir self) ++ [tempDir self])%list).
  set (pc := (Fs.ancestors (cacheDir self) ++ [cacheDir self])%list).
  destruct (existsb (Fs.is_file m) (Fs.ancestors (tempDir self))) eqn:Et1; run.
  { intros [= <- <-]. cbn [fs].
    split; [reflexivity|]. split; [tauto|]. split; [|discriminate].
    intros e [= <-]. exists (tempDir self). split; [left; reflexivity|].
    left. split; [reflexivity|exact Et1]. }
  destruct (Fs.is_file m (tempDir self)) eqn:Et2; run.
  { intros [= <- <-]. cbn [fs].
    split; [reflexivity|]. split; [tauto|]. split; [|discriminate].
    intros e [= <-]. exists (tempDir self). split; [left; reflexivity|].
    right. split; [reflexivity|]. split; [exact Et1|exact Et2]. }
  pose proof (no_file_on_the_way _ _ Et1 Et2) as Et. fold pt in Et.
  rewrite (existsb_ext_ _ (Fs.is_file m) _ (fun q => is_file_make_dirs pt m q Et)).
  rewrite (is_file_make_dirs pt m _ Et).
  destruct (existsb (Fs.is_file m) (Fs.ancestors (cacheDir self))) eqn:Ec1; run.
  { intros [= <- <-]. cbn [fs].
    split; [apply make_dirs_files, Et|].
    split; [intros p; apply make_dirs_keeps_dir|]. split; [|discriminate].
    intros e [= <-]. exists (cacheDir self). split; [right; reflexivity|].
    left. split; [reflexivity|exact Ec1]. }
  destruct (Fs.is_file m (cacheDir self)) eqn:Ec2; run.
  { intros [= <- <-]. cbn [fs].
    split; [apply make_dirs_files, Et|].
    split; [intros p; apply make_dirs_keeps_dir|]. split; [|discriminate].
    intros e [= <-]. exists (cacheDir self). split; [right; reflexivity|].
    right. split; [reflexivity|]. split; [exact Ec1|exact Ec2]. }
  pose proof (no_file_on_the_way _ _ Ec1 Ec2) as Ec0. fold pc in Ec0.
  assert (Ec : existsb (Fs.is_file (Fs.make_dirs pt m)) pc = false).
  { rewrite (existsb_ext_ _ (Fs.is_file m) _ (fun q => is_file_make_dirs pt m q Et)).
    exact Ec0. }
  intros [= <- <-]. cbn [fs].
  split.
  { intros p d. rewrite (make_dirs_files pc _ Ec). apply make_dirs_files, Et. }
  split; [intros p Hp; apply make_dirs_keeps_dir, make_dirs_keeps_dir, Hp|].
  split; [discriminate|]. intros _.
  assert (Ht : forall q, In q pt -> Fs.make_dirs pc (Fs.make_dirs pt m) !! q = Some Dir).
  { intros q Hq. apply make_dirs_keeps_dir, make_dirs_in, Hq. }
  assert (Hc : forall q, In q pc -> Fs.make_dirs pc (Fs.make_dirs pt m) !! q = Some Dir).
  { intros q Hq. apply make_dirs_in, Hq. }
  split; [apply Ht, in_or_app; right; left; reflexivity|].
  split; [apply Hc, in_or_app; right; left; reflexivity|].
  assert (Ft : Fs.is_file (Fs.make_dirs pc (Fs.make_dirs pt m)) (tempDir self) = false).
  { unfold Fs.is_file. rewrite Ht by (apply in_or_app; right; left; reflexivity).
    reflexivity. }
  assert (Fc : Fs.is_file (Fs.make_dirs pc (Fs.make_dirs pt m)) (cacheDir self) = false).
  { unfold Fs.is_file. rewrite Hc by (apply in_or_app; right; left; reflexivity).
    reflexivity. }
  rewrite (no_file_among_dirs (Fs.ancestors (tempDir self)))
    by (intros q Hq; apply Ht, in_or_app; left; exact Hq).
  rewrite Ft. run.
  fold pt. rewrite (make_dirs_id pt) by exact Ht.
  rewrite (no_file_among_dirs (Fs.ancestors (cacheDir self)))
    by (intros q Hq; apply Hc, in_or_app; left; exact Hq).
  rewrite Fc. run.
  fold pc. rewrite (make_dirs_id pc) by exact Hc.
  eexists. split; reflexivity.
Qed.

(** ** The name of a workspace *)

Lemma all_chars_snoc f a c :
  all_chars f a = true -> f c = true -> all_chars f (a +:+ String c EmptyString) = true.
Proof.
  intros Ha Hc. apply all_chars_app; [exact Ha|]. cbn [all_chars]. rewrite Hc. reflexivity.
Qed.

Lemma last_segment_no_slash s acc :
  all_chars not_slash acc = true ->
  all_chars not_slash (Str.last_segment "/" s acc) = true.
Proof.
  revert acc. induction s as [|c s IH]; intros acc Hacc; [exact Hacc|].
  cbn [Str.last_segment]. destruct (Ascii.eqb c "/") eqn:E.
  - apply IH. reflexivity.
  - apply IH, all_chars_snoc; [exact Hacc|]. unfold not_slash. rewrite E. reflexivity.
Qed.

Lemma all_chars_drop f n s :
  all_chars f s = true -> all_chars f (Str.drop n s) = true.
Proof.
  revert s. induction n as [|n IH]; intros s H; [destruct s; exact H|].
  destruct s as [|c s]; [reflexivity|]. cbn [Str.drop].
  cbn [all_chars] in H. apply andb_true_iff in H as [_ H]. apply IH, H.
Qed.

Lemma replace_keeps f pat s :
  all_chars f s = true -> all_chars f (Str.replace pat EmptyString s) = true.
Proof.
  induction s as [|c s IH]; intros H.
  - cbn [Str.replace]. destruct (Str.starts_with pat EmptyString); [|reflexivity].
    rewrite app_nil. apply all_chars_drop. reflexivity.
  - cbn [Str.replace]. destruct (Str.starts_with pat (String c s)).
    + rewrite app_nil. apply all_chars_drop, H.
    + cbn [all_chars] in *. apply andb_true_iff in H as [Hc H].
      rewrite Hc, IH by exact H. reflexivity.
Qed.

Lemma replace_absent pat rep s :
  Str.includes pat s = false -> Str.replace pat rep s = s.
Proof.
  induction s as [|c s IH]; cbn [Str.includes Str.replace];
    destruct (Str.starts_with pat _); try discriminate; [reflexivity|].
  intros H. rewrite IH by exact H. reflexivity.
Qed.

Lemma uint_no_slash d : all_chars not_slash (NilZero.string_of_uint d) = true.
Proof.
  assert (H : forall d, all_chars not_slash (NilEmpty.string_of_uint d) = true).
  { induction d0; cbn [NilEmpty.string_of_uint all_chars]; rewrite ?IHd0; reflexivity. }
  unfold NilZero.string_of_uint. destruct d; try apply H; reflexivity.
Qed.

Lemma or_else_no_slash x fallback :
  all_chars not_slash x = true -> all_chars not_slash fallback = true ->
  all_chars not_slash (Str.or_else x fallback) = true.
Proof. destruct x; intros; assumption. Qed.

Lemma cloneRepo_run env self url w :
  exists repoName n text,
    all_chars not_slash repoName = true
    /\ repoName
       = Str.or_else
           (Str.replace ".git" EmptyString (Str.last_segment "/" url EmptyString)) "repo"
    /\ let name := repoName +:+ "-" +:+ Str.of_N (Date_now env (List.length (trace w))) in
       let path := Fs.join (tempDir self) name in
       all_chars not_slash name = true
       /\ cloneRepo env self url w
          = match exec_git_clone env n url path with
            | CloneFailed e =>
                (Err ("Failed to clone repository: " +:+ e),
                 {| fs := fs w;
                    trace := EvGitClone url path false
                               :: EvConsole LogLevel text :: trace w |})
            | CloneDone files =>
                (Ok path,
                 {| fs := Fs.put_files path files (<[path := Dir]> (fs w));
                    trace := EvGitClone url path true
                               :: EvConsole LogLevel text :: trace w |})
            end.
Proof.
  destruct w as [m tr]. eexists _, _, _.
  assert (Hn : all_chars not_slash
                 (Str.or_else
                    (Str.replace ".git" EmptyString (Str.last_segment "/" url EmptyString))
                    "repo") = true).
  { apply or_else_no_slash; [|reflexivity].
    apply replace_keeps, last_segment_no_slash. reflexivity. }
  split; [exact Hn|]. split; [reflexivity|]. cbv zeta. split.
  - apply all_chars_app; [exact Hn|].
    change ("-" +:+ ?x) with (String "-" x). cbn [all_chars].
    unfold Str.of_N. rewrite uint_no_slash. reflexivity.
  - unfold cloneRepo. run.
    match goal with
    | |- context [exec_git_clone env ?n url ?p] =>
        destruct (exec_git_clone env n url p) as [e|files] eqn:E; run
    end.
    + rewrite E. reflexivity.
    + rewrite E. reflexivity.
Qed.

Lemma replace_first_git a b :
  all_chars not_dot a = true ->
  Str.replace ".git" EmptyString (a +:+ ".git" +:+ b) = a +:+ b.
Proof.
  induction a as [|c a IH]; intros H.
  - rewrite !app_nil. reflexivity.
  - cbn [all_chars] in H. apply andb_true_iff in H as [Hc H].
    change (String c a +:+ ".git" +:+ b) with (String c (a +:+ ".git" +:+ b)).
    change (String c a +:+ b) with (String c (a +:+ b)).
    cbn [Str.replace Str.starts_with].
    unfold not_dot in Hc. rewrite Ascii.eqb_sym in Hc.
    destruct (Ascii.eqb "." c); [discriminate|]. cbn [andb].
    rewrite IH by exact H. reflexivity.
Qed.

Lemma base_name_join dir name :
  all_chars not_slash name = true -> base_name (Fs.join dir name) = name.
Proof.
  intros H. unfold base_name, Fs.join.
  change (dir +:+ "/" +:+ name) with (dir +:+ String "/" name).
  apply last_segment_suffix, H.
Qed.

(** X10. How the workspace [cloneRepo] returns is named, for a URL whose
    last segment [seg] is what follows its last slash.  The last
    component of the path is the name of the repository, a [-] and the
    clock.  The name is [seg] when [seg] is not empty and holds no
    [.git]; it is [seg] without its first [.git] when that one is
    preceded by no dot, wherever it stands ([demo.git] gives [demo],
    [my.github.io] gives [myhub.io]); and it is [repo] when [seg] is
    empty or nothing but [.git]. *)
Theorem cloneRepo_names_workspace env self base seg w path w' :
  all_chars not_slash seg = true ->
  cloneRepo env self (base +:+ "/" +:+ seg) w = (Ok path, w') ->
  let stamp := Str.of_N (Date_now env (List.length (trace w))) in
  exists repoName,
    base_name path = repoName +:+ "-" +:+ stamp
    /\ (seg <> EmptyString -> Str.includes ".git" seg = false -> repoName = seg)
    /\ (forall a b,
          seg = a +:+ ".git" +:+ b -> all_chars not_dot a = true ->
          repoName = Str.or_else (a +:+ b) "repo")
    /\ (seg = EmptyString \/ seg = ".git" -> repoName = "repo").
Proof.
  intros Hs Hrun stamp.
  destruct (cloneRepo_run env self (base +:+ "/" +:+ seg) w)
    as (repoName & n & text & _ & Hname & Hfree & E).
  cbv zeta in Hfree, E. rewrite Hrun in E. fold stamp in Hfree, E.
  assert (Hpath : path = Fs.join (tempDir self) (repoName +:+ "-" +:+ stamp)).
  { destruct (exec_git_clone env n _ _); [discriminate E|].
    injection E as -> _. reflexivity. }
  change (base +:+ "/" +:+ seg) with (base +:+ String "/" seg) in Hname.
  rewrite last_segment_suffix in Hname by exact Hs.
  exists repoName. split; [rewrite Hpath; apply base_name_join, Hfree|].
  split; [|split].
  - intros Hne Hg. rewrite Hname, replace_absent by exact Hg.
    destruct seg; [congruence|reflexivity].
  - intros a b -> Hd. rewrite Hname, replace_first_git by exact Hd. reflexivity.
  - intros [->| ->]; rewrite Hname; reflexivity.
Qed.

(** ** What a run removes *)

Lemma cloned_rm_only env self url force path :
  preserves (only (rm_only path))
    (try_catch
       (processRepo_cloned env self url force path)
       (fun error =>
          (if truthy (Some path) then cleanup path else ret tt) ;;;
          throw error)).
Proof.
  autounfold with methods.
  preserves_with
    ltac:(first [ apply only_refl | apply only_trans ])
    ltac:(first [ apply only_set_fs
                | apply only_emit; first [ reflexivity | apply String.eqb_refl ] ]).
Qed.

Lemma not_ingest_no_rm evs p :
  forallb not_ingest evs = true -> In (EvRm p) evs -> False.
Proof.
  intros H Hin. rewrite forallb_forall in H. specialize (H _ Hin). discriminate.
Qed.

(** X11. A run of [processRepo] removes nothing but the workspace it has
    cloned itself: every [fs.rm] of the run is aimed at a direct child
    of [tempDir] that a successful [git clone] of the same run was
    aimed at earlier. *)
Theorem processRepo_removes_only_its_workspace env self repoUrl forceRefresh w out w' :
  processRepo env self repoUrl forceRefresh w = (out, w') ->
  exists evs,
    continues w evs w'
    /\ forall p,
         In (EvRm p) evs ->
         Fs.parent p = tempDir self
         /\ p <> tempDir self
         /\ happens_after (EvGitClone repoUrl p true) (EvRm p) evs.
Proof.
  intros Hrun.
  apply processRepo_prelude in Hrun as [[(evs & Hc & Hq) _]|(w3 & (evp & Hcp & Hqp) & _ & Hrun)].
  { exists evs. split; [exact Hc|]. intros p Hin. destruct (not_ingest_no_rm _ _ Hq Hin). }
  unfold processRepo_fetch in Hrun.
  destruct (cloneRepo env self repoUrl w3) as [r w4] eqn:Ec.
  destruct (cloneRepo_run env self repoUrl w3) as (repoName & n & text & _ & _ & Hname & E).
  cbv zeta in Hname, E. rewrite Ec in E.
  set (name := repoName +:+ "-" +:+ Str.of_N (Date_now env (List.length (trace w3)))) in *.
  set (path := Fs.join (tempDir self) name) in *.
  destruct (exec_git_clone env n repoUrl path) as [e|files]; injection E as -> ->.
  - erewrite bind_err in Hrun by exact Ec. injection Hrun as <- <-.
    exists (EvGitClone repoUrl path false :: EvConsole LogLevel text :: evp).
    split; [unfold continues in *; cbn [trace]; rewrite Hcp; reflexivity|].
    intros p [[=]|[[=]|Hin]]. destruct (not_ingest_no_rm _ _ Hqp Hin).
  - erewrite bind_ok in Hrun by exact Ec.
    pose proof (preserves_run _ _ _ _ _ (cloned_rm_only env self repoUrl forceRefresh path) Hrun)
      as (evc & Hcc & Hqc).
    exists (evc ++ EvGitClone repoUrl path true :: EvConsole LogLevel text :: evp)%list.
    split.
    { unfold continues in *. cbn [trace] in Hcc. rewrite Hcc, Hcp, <- app_assoc. reflexivity. }
    intros p Hin. apply in_app_or in Hin as [Hin|[[=]|[[=]|Hin]]];
      [|destruct (not_ingest_no_rm _ _ Hqp Hin)].
    rewrite forallb_forall in Hqc. pose proof (Hqc _ Hin) as Hp. cbn [rm_only] in Hp.
    apply String.eqb_eq in Hp. subst p.
    split; [apply parent_join, includes_slash_false, Hname|]. split.
    + intros H. apply (f_equal String.length) in H. unfold path, Fs.join in H.
      rewrite length_app in H. change ("/" +:+ name) with (String "/" name) in H.
      cbn [String.length] in H. lia.
    + exists evc, (EvConsole LogLevel text :: evp). split; [reflexivity|exact Hin].
Qed.

(** ** The second look into the cache *)

Lemma getCommitSha_ok env path out w :
  (forall n p, exec_git_rev_parse env n p = Ok out) ->
  getCommitSha env path w
  = (Ok (Str.trim out), {| fs := fs w; trace := EvGitRevParse path true :: trace w |}).
Proof.
  intros H. destruct w as [m tr]. unfold getCommitSha. run. rewrite H. reflexivity.
Qed.

Lemma read_no_pack_no_write e : is_fs_read e = true -> no_pack_no_write e = true.
Proof. destruct e; (discriminate || reflexivity). Qed.

Lemma query_no_pack_no_write e : is_query e = true -> no_pack_no_write e = true.
Proof. destruct e; (discriminate || reflexivity). Qed.

Lemma lookup_entry_miss env self m key now :
  Fs.is_file m (cachePath_of self key) = false ->
  lookup_entry env self m key now = None.
Proof.
  unfold Fs.is_file, lookup_entry.
  destruct (m !! cachePath_of self key) as [[|]|]; (discriminate || reflexivity).
Qed.

(** X12. The cache is looked into a second time, after the clone, under the
    key of the revision read in the workspace.  When the optimistic key
    misses, the clone succeeds and the cache holds an entry under the
    key of the workspace revision, [processRepo] returns that entry
    with [fromCache = true]: it has cloned and then removed the
    workspace, has run no packing tool and written no file, and has
    left every path outside the workspace as [init] left it. *)
Theorem cache_hit_after_clone env self repoUrl w w1 sha0 w2 out data :
  init self w = (Ok tt, w1) ->
  cache_outside_temp self ->
  getLatestCommitShaFromGithub env repoUrl w1 = (Ok sha0, w2) ->
  Fs.is_file (fs w1) (cachePath_of self (generateCacheKey repoUrl (Some sha0))) = false ->
  (forall n p, exists files, exec_git_clone env n repoUrl p = CloneDone files) ->
  (forall n p, exec_git_rev_parse env n p = Ok out) ->
  fs w1 !! cachePath_of self (generateCacheKey repoUrl (Some (Str.trim out)))
    = Some (File data) ->
  exists entry w' path evs,
    processRepo env self repoUrl false w
    = (Ok (result_from_cache (generateCacheKey repoUrl (Some (Str.trim out))) entry), w')
    /\ cached_content entry = data
    /\ continues w evs w'
    /\ happens_after (EvGitClone repoUrl path true) (EvRm path) evs
    /\ forallb no_pack_no_write evs = true
    /\ (forall p, Fs.under path p = true -> fs w' !! p = None)
    /\ (forall p, Fs.under path p = false -> fs w' !! p = fs w1 !! p).
Proof.
  intros Hinit Hsep Hlatest Hmiss Hclone Hrev Hentry.
  pose proof (init_ok_run _ _ _ Hinit) as Htr1.
  destruct (getLatest_run env repoUrl w1) as (sha0' & ev2 & E2 & Q2).
  rewrite Hlatest in E2. injection E2 as <- ->.
  set (w2 := {| fs := fs w1; trace := (ev2 ++ trace w1)%list |}) in *.
  set (key0 := generateCacheKey repoUrl (Some sha0)) in *.
  destruct (loadFromCache_run env self key0 w2) as (ev3 & E3 & Q3 & _).
  rewrite lookup_entry_miss in E3 by exact Hmiss.
  set (w3 := {| fs := fs w2; trace := (ev3 ++ trace w2)%list |}) in *.
  destruct (cloneRepo_ok env self repoUrl w3 Hclone) as (name & files & text & E4).
  set (path := Fs.join (tempDir self) name) in *.
  set (w4 := {| fs := Fs.put_files path files (<[path := Dir]> (fs w3)); trace := _ |}) in *.
  assert (E5 := getCommitSha_ok env path out w4 Hrev).
  set (w5 := {| fs := fs w4; trace := EvGitRevParse path true :: trace w4 |}) in *.
  set (key := generateCacheKey repoUrl (Some (Str.trim out))) in *.
  destruct (loadFromCache_run env self key w5) as (ev6 & E6 & Q6 & _).
  set (w6 := {| fs := fs w5; trace := (ev6 ++ trace w5)%list |}) in *.
  assert (Hout : forall p, Fs.under path p = false -> fs w6 !! p = fs w1 !! p).
  { intros p Hp. cbn [w6 w5 w4 w3 w2 fs].
    rewrite put_files_lookup by exact Hp.
    apply lookup_insert_ne. intros <-. rewrite under_self in Hp. discriminate. }
  assert (Hcp : Fs.under path (cachePath_of self key) = false)
    by (apply Hsep, under_join).
  assert (Hfile : fs w5 !! cachePath_of self key = Some (File data)).
  { change (fs w5) with (fs w6). rewrite (Hout _ Hcp). exact Hentry. }
  unfold lookup_entry in E6. rewrite Hfile in E6.
  eexists _, _, path,
    (EvConsole LogLevel ("Cleaned up " +:+ path) :: EvRm path
       :: EvConsole LogLevel "Using cached version"
       :: ev6 ++ EvGitRevParse path true
       :: EvGitClone repoUrl path true :: EvConsole LogLevel text
       :: ev3 ++ ev2 ++ [EvMkdir (cacheDir self); EvMkdir (tempDir self)])%list.
  split.
  { unfold processRepo, processRepo_fetch, processRepo_cloned.
    erewrite bind_ok by exact Hinit. erewrite bind_ok by exact Hlatest.
    cbv [negb]. fold key0. erewrite bind_ok by exact E3. cbv beta iota.
    erewrite bind_ok by exact E4.
    erewrite try_ok; [reflexivity|].
    erewrite bind_ok by exact E5. cbv [negb]. fold key.
    erewrite bind_ok by exact E6. cbv beta iota.
    erewrite bind_ok by reflexivity.
    erewrite bind_ok by apply cleanup_run. reflexivity. }
  split; [reflexivity|].
  split.
  { unfold continues. cbn [w6 w5 w4 w3 w2 trace fs]. rewrite Htr1.
    repeat (cbn [app]; rewrite <- ?app_assoc). reflexivity. }
  split.
  { exists (EvConsole LogLevel ("Cleaned up " +:+ path) :: EvRm path
              :: EvConsole LogLevel "Using cached version"
              :: ev6 ++ [EvGitRevParse path true])%list.
    eexists. split; [|right; left; reflexivity].
    cbn [app]. rewrite <- app_assoc. reflexivity. }
  split.
  { cbn [forallb no_pack_no_write andb]. rewrite forallb_app.
    rewrite (forallb_weaken _ _ _ read_no_pack_no_write Q6).
    cbn [forallb no_pack_no_write andb]. rewrite !forallb_app.
    rewrite (forallb_weaken _ _ _ read_no_pack_no_write Q3).
    rewrite (forallb_weaken _ _ _ query_no_pack_no_write Q2). reflexivity. }
  cbn [fs]. split.
  - intros p Hp. rewrite remove_tree_lookup, Hp. reflexivity.
  - intros p Hp. rewrite remove_tree_lookup, Hp. apply (Hout p Hp).
Qed.

(** ** What a result stands for *)

Lemma lookup_entry_file env self m key now entry :
  lookup_entry env self m key now = Some entry ->
  m !! cachePath_of self key = Some (File (cached_content entry)).
Proof.
  unfold lookup_entry. destruct (m !! cachePath_of self key) as [[data|]|];
    [|discriminate..].
  intros [= <-]. reflexivity.
Qed.

Lemma loadFromCache_hit env self key w content :
  fs w !! cachePath_of self key = Some (File content) ->
  exists entry w',
    loadFromCache env self key w = (Ok (Some entry), w')
    /\ cached_content entry = content.
Proof.
  intros H. destruct (loadFromCache_run env self key w) as (evs & E & _).
  rewrite E. unfold lookup_entry. rewrite H. eexists _, _. split; reflexivity.
Qed.

(** What a result of the clone-and-pack half of [processRepo] says. *)
Lemma processRepo_fetch_result env self url force w result w' :
  cache_outside_temp self ->
  processRepo_fetch env self url force w = (Ok result, w') ->
  exists content commitSha,
    fs w' !! cachePath_of self (res_cacheKey result) = Some (File content)
    /\ res_cacheKey result = generateCacheKey url (Some commitSha)
    /\ (res_fromCache result = false ->
        res_repoUrl result = Some url
        /\ res_commitSha result = Some commitSha
        /\ res_size result = Some (content_length content)
        /\ res_cachedAt result = None).
Proof.
  intros Hsep Hrun. unfold processRepo_fetch in Hrun.
  destruct (cloneRepo_run env self url w) as (repoName & n & text & _ & _ & _ & E).
  cbv zeta in E.
  set (path := Fs.join (tempDir self) _) in *.
  destruct (exec_git_clone env n url path) as [e|files].
  { erewrite bind_err in Hrun by exact E. discriminate. }
  erewrite bind_ok in Hrun by exact E.
  set (w1 := {| fs := Fs.put_files path files (<[path := Dir]> (fs w)); trace := _ |}) in *.
  unfold try_catch in Hrun.
  destruct (processRepo_cloned env self url force path w1) as [[res|e] w2] eqn:Eb.
  2:{ unfold bind, throw in Hrun.
      match type of Hrun with
      | context [let (_, _) := ?x in _] => destruct x as [[|] ?]
      end; discriminate. }
  injection Hrun as -> ->. clear E.
  unfold processRepo_cloned in Eb.
  destruct (getCommitSha_run env path w1) as (sha & ev2 & E2 & _).
  erewrite bind_ok in Eb by exact E2.
  set (w2 := {| fs := fs w1; trace := (ev2 ++ trace w1)%list |}) in *.
  set (key := generateCacheKey url (Some sha)) in *.
  assert (Hcp : Fs.under path (cachePath_of self key) = false)
    by (apply Hsep, under_join).
  assert (Hhit : forall w3 entry,
             fs w3 !! cachePath_of self key = Some (File (cached_content entry)) ->
             (console LogLevel "Using cached version" ;;;
              cleanup path ;;;
              ret (result_from_cache key entry)) w3 = (Ok result, w') ->
             exists content commitSha,
               fs w' !! cachePath_of self (res_cacheKey result) = Some (File content)
               /\ res_cacheKey result = generateCacheKey url (Some commitSha)
               /\ (res_fromCache result = false ->
                   res_repoUrl result = Some url
                   /\ res_commitSha result = Some commitSha
                   /\ res_size result = Some (content_length content)
                   /\ res_cachedAt result = None)).
  { intros w3 entry Hfs Hk.
    erewrite bind_ok in Hk by reflexivity.
    erewrite bind_ok in Hk by apply cleanup_run.
    injection Hk as <- <-. cbn [res_cacheKey res_fromCache result_from_cache fs].
    exists (cached_content entry), sha.
    split; [|split; [reflexivity|discriminate]].
    rewrite remove_tree_lookup, Hcp. exact Hfs. }
  assert (Hmiss : forall w3,
             (packedPath <- packRepo env path ;;
              content <- readPackedRepo packedPath ;;
              let metadata :=
                {| part_repoUrl := Some url;
                   part_commitSha := Some sha;
                   part_size := Some (content_length content);
                   part_cachedAt := None |} in
              saveToCache env self key content metadata ;;;
              cleanup path ;;;
              ret {| res_cacheKey := key;
                     res_fromCache := false;
                     res_repoUrl := Some url;
                     res_commitSha := Some sha;
                     res_size := Some (content_length content);
                     res_cachedAt := None |}) w3 = (Ok result, w') ->
             exists content commitSha,
               fs w' !! cachePath_of self (res_cacheKey result) = Some (File content)
               /\ res_cacheKey result = generateCacheKey url (Some commitSha)
               /\ (res_fromCache result = false ->
                   res_repoUrl result = Some url
                   /\ res_commitSha result = Some commitSha
                   /\ res_size result = Some (content_length content)
                   /\ res_cachedAt result = None)).
  { intros w3 Hk.
    destruct (packRepo env path w3) as [[pp|e] w4] eqn:E4;
      [erewrite bind_ok in Hk by exact E4
      |erewrite bind_err in Hk by exact E4; discriminate].
    destruct (readPackedRepo pp w4) as [[content|e] w5] eqn:E5;
      [erewrite bind_ok in Hk by exact E5
      |erewrite bind_err in Hk by exact E5; discriminate].
    cbv zeta in Hk.
    match type of Hk with
    | context [saveToCache ?a ?b ?c ?d ?m] =>
        destruct (saveToCache a b c d m w5) as [[p|e] w6] eqn:E6;
          [erewrite bind_ok in Hk by exact E6
          |erewrite bind_err in Hk by exact E6; discriminate]
    end.
    erewrite bind_ok in Hk by apply cleanup_run. injection Hk as <- <-.
    apply saveToCache_inv in E6 as (_ & Hfs & _).
    exists content, sha. cbn [res_cacheKey res_fromCache res_repoUrl res_commitSha
                              res_size res_cachedAt fs].
    split; [|split; [reflexivity|intros _; repeat split]].
    rewrite remove_tree_lookup, Hcp, Hfs.
    rewrite lookup_insert_ne by (apply not_eq_sym, cache_sidecar_differ).
    apply lookup_insert_eq. }
  destruct force; cbv [negb] in Eb.
  - erewrite bind_ok in Eb by reflexivity. eapply Hmiss, Eb.
  - destruct (loadFromCache_run env self key w2) as (ev3 & E3 & _).
    erewrite bind_ok in Eb by exact E3.
    destruct (lookup_entry env self (fs w2) key _) as [entry|] eqn:El.
    + eapply Hhit; [|exact Eb]. eapply lookup_entry_file, El.
    + eapply Hmiss, Eb.
Qed.

Lemma processRepo_result_entry env self url force w result w' :
  cache_outside_temp self ->
  processRepo env self url force w = (Ok result, w') ->
  exists content commitSha,
    fs w' !! cachePath_of self (res_cacheKey result) = Some (File content)
    /\ res_cacheKey result = generateCacheKey url (Some commitSha)
    /\ (res_fromCache result = false ->
        res_repoUrl result = Some url
        /\ res_commitSha result = Some commitSha
        /\ res_size result = Some (content_length content)
        /\ res_cachedAt result = None).
Proof.
  intros Hsep Hrun. unfold processRepo in Hrun.
  destruct (init self w) as [[[]|e] w1] eqn:Ei;
    [erewrite bind_ok in Hrun by exact Ei
    |erewrite bind_err in Hrun by exact Ei; discriminate].
  destruct (getLatest_run env url w1) as (sha0 & ev2 & E2 & _).
  erewrite bind_ok in Hrun by exact E2.
  set (w2 := {| fs := fs w1; trace := (ev2 ++ trace w1)%list |}) in *.
  set (key := generateCacheKey url (Some sha0)) in *.
  destruct force; cbv [negb] in Hrun.
  - erewrite bind_ok in Hrun by reflexivity. cbv beta iota in Hrun.
    eapply processRepo_fetch_result; eassumption.
  - destruct (loadFromCache_run env self key w2) as (ev3 & E3 & _).
    erewrite bind_ok in Hrun by exact E3.
    destruct (lookup_entry env self (fs w2) key _) as [entry|] eqn:El.
    + erewrite bind_ok in Hrun by reflexivity. injection Hrun as <- <-.
      exists (cached_content entry), sha0.
      cbn [res_cacheKey res_fromCache result_from_cache fs].
      split; [eapply lookup_entry_file, El|]. split; [reflexivity|discriminate].
    + cbv beta iota in Hrun. eapply processRepo_fetch_result; eassumption.
Qed.

(** X13. The key a successful [processRepo] returns is the key of an entry
    that exists when the run ends, so that [loadFromCache] finds it:
    the key is derived from the URL and from some revision, and the
    content file is there.  For a fresh result ([fromCache = false])
    the result names the URL and that revision, and its size is the
    length of the content stored.  The cache directory is assumed to
    lie outside the workspaces. *)
Theorem processRepo_result_is_cached env self repoUrl forceRefresh w result w' :
  cache_outside_temp self ->
  processRepo env self repoUrl forceRefresh w = (Ok result, w') ->
  exists content commitSha,
    fs w' !! cachePath_of self (res_cacheKey result) = Some (File content)
    /\ res_cacheKey result = generateCacheKey repoUrl (Some commitSha)
    /\ (exists entry w'',
          loadFromCache env self (res_cacheKey result) w' = (Ok (Some entry), w'')
          /\ cached_content entry = content)
    /\ (res_fromCache result = false ->
        res_repoUrl result = Some repoUrl
        /\ res_commitSha result = Some commitSha
        /\ res_size result = Some (content_length content)
        /\ res_cachedAt result = None).
Proof.
  intros Hsep Hrun.
  destruct (processRepo_result_entry _ _ _ _ _ _ _ Hsep Hrun)
    as (content & commitSha & Hfile & Hkey & Hfresh).
  exists content, commitSha. split; [exact Hfile|]. split; [exact Hkey|].
  split; [apply loadFromCache_hit, Hfile|exact Hfresh].
Qed.

(** ** A clone that fails *)

Lemma not_ingest_no_pack_no_write e : not_ingest e = true -> no_pack_no_write e = true.
Proof. destruct e; cbn; intros H; first [reflexivity | discriminate H]. Qed.

(** X14. When [git clone] fails, [processRepo] either had served the
    request from the cache before it came to cloning, or it throws: the
    error [init] threw, or that of the clone under the prefix of
    [cloneRepo].  In the whole run the packing tool is not started,
    nothing is written and nothing is removed: a failed clone is not
    followed by a cleanup. *)
Theorem clone_failure_stops_the_run env self repoUrl forceRefresh msg w out w' :
  (forall n p, exec_git_clone env n repoUrl p = CloneFailed msg) ->
  processRepo env self repoUrl forceRefresh w = (out, w') ->
  (exists evs,
     continues w evs w'
     /\ forallb no_pack_no_write evs = true
     /\ forall p, ~ In (EvRm p) evs)
  /\ match out with
     | Ok result => res_fromCache result = true /\ forceRefresh = false
     | Err e =>
         e = "Failed to clone repository: " +:+ msg
         \/ init self w = (Err e, w')
     end.
Proof.
  intros Hclone Hrun.
  unfold processRepo in Hrun.
  destruct (init self w) as [[[]|e] w1] eqn:Ei.
  2:{ erewrite bind_err in Hrun by exact Ei. injection Hrun as <- <-.
      pose proof (init_inv _ _ _ _ Ei) as (Hf & (evs & Hc & Hq) & _).
      split.
      - exists evs. split; [exact Hc|]. split.
        + eapply forallb_weaken; [|exact Hq]. apply not_ingest_no_pack_no_write.
        + intros p Hin. eapply not_ingest_no_rm; eassumption.
      - right. reflexivity. }
  erewrite bind_ok in Hrun by exact Ei.
  pose proof (init_inv _ _ _ _ Ei) as (Hf & (ev1 & Hc1 & Hq1) & _).
  destruct (getLatest_run env repoUrl w1) as (sha0 & ev2 & E2 & Q2).
  erewrite bind_ok in Hrun by exact E2.
  set (w2 := {| fs := fs w1; trace := (ev2 ++ trace w1)%list |}) in *.
  set (key := generateCacheKey repoUrl (Some sha0)) in *.
  assert (Hfetch : forall ev3,
             forallb is_fs_read ev3 = true ->
             processRepo_fetch env self repoUrl forceRefresh
               {| fs := fs w2; trace := (ev3 ++ trace w2)%list |} = (out, w') ->
             (exists evs,
                continues w evs w'
                /\ forallb no_pack_no_write evs = true
                /\ forall p, ~ In (EvRm p) evs)
             /\ out = Err ("Failed to clone repository: " +:+ msg)).
  { intros ev3 Q3 Hk. unfold processRepo_fetch in Hk.
    destruct (cloneRepo_run env self repoUrl
                {| fs := fs w2; trace := (ev3 ++ trace w2)%list |})
      as (repoName & n & text & _ & _ & _ & E).
    cbv zeta in E. rewrite Hclone in E.
    erewrite bind_err in Hk by exact E. injection Hk as <- <-. cbn [fs w2].
    split; [|reflexivity].
    eexists (_ :: _ :: ev3 ++ ev2 ++ ev1)%list. split; [|split].
    - unfold continues in *. cbn [trace w2]. rewrite Hc1.
      repeat (cbn [app]; rewrite <- ?app_assoc). reflexivity.
    - cbn [forallb no_pack_no_write andb]. rewrite !forallb_app.
      rewrite (forallb_weaken _ _ _ read_no_pack_no_write Q3).
      rewrite (forallb_weaken _ _ _ query_no_pack_no_write Q2). cbn [andb].
      eapply forallb_weaken; [|exact Hq1]. apply not_ingest_no_pack_no_write.
    - intros p [[=]|[[=]|Hin]]. apply in_app_or in Hin as [Hin|Hin].
      + rewrite forallb_forall in Q3. specialize (Q3 _ Hin). discriminate.
      + apply in_app_or in Hin as [Hin|Hin].
        * rewrite forallb_forall in Q2. specialize (Q2 _ Hin). discriminate.
        * eapply not_ingest_no_rm; eassumption. }
  destruct forceRefresh; cbv [negb] in Hrun.
  - erewrite bind_ok in Hrun by reflexivity. cbv beta iota in Hrun.
    destruct (Hfetch [] eq_refl Hrun) as (H2 & ->).
    split; [exact H2|]. left. reflexivity.
  - destruct (loadFromCache_run env self key w2) as (ev3 & E3 & Q3 & _).
    erewrite bind_ok in Hrun by exact E3.
    destruct (lookup_entry env self (fs w2) key _) as [entry|] eqn:El.
    + erewrite bind_ok in Hrun by reflexivity. injection Hrun as <- <-. cbn [fs w2].
      split; [|split; reflexivity].
      eexists (_ :: ev3 ++ ev2 ++ ev1)%list. split; [|split].
      * unfold continues in *. cbn [trace w2]. rewrite Hc1.
        repeat (cbn [app]; rewrite <- ?app_assoc). reflexivity.
      * cbn [forallb no_pack_no_write andb]. rewrite !forallb_app.
        rewrite (forallb_weaken _ _ _ read_no_pack_no_write Q3).
        rewrite (forallb_weaken _ _ _ query_no_pack_no_write Q2). cbn [andb].
        eapply forallb_weaken; [|exact Hq1]. apply not_ingest_no_pack_no_write.
      * intros p [[=]|Hin]. apply in_app_or in Hin as [Hin|Hin].
        -- rewrite forallb_forall in Q3. specialize (Q3 _ Hin). discriminate.
        -- apply in_app_or in Hin as [Hin|Hin].
           ++ rewrite forallb_forall in Q2. specialize (Q2 _ Hin). discriminate.
           ++ eapply not_ingest_no_rm; eassumption.
    + cbv beta iota in Hrun. destruct (Hfetch ev3 Q3 Hrun) as (H2 & ->).
      split; [exact H2|]. left. reflexivity.
Qed.

(** ** The pack route *)

Lemma pack_handler_run env body c rest w :
  pack_repoUrl body = String c rest ->
  Str.includes "github.com" (pack_repoUrl body) = true ->
  pack_handler env body w
  = match processRepo env (new_RepomixService env) (pack_repoUrl body)
            (default false (pack_forceRefresh body)) w with
    | (Ok result, w1) =>
        (Ok {| pack_status := 200;
               pack_body :=
                 inl {| pr_success := true;
                        pr_cacheKey := Some (res_cacheKey result);
                        pr_fromCache := Some (res_fromCache result);
                        pr_metadata :=
                          Some {| meta_repoUrl := string_or (res_repoUrl result) EmptyString;
                                  meta_commitSha :=
                                    string_or (res_commitSha result) EmptyString;
                                  meta_size := default 0%Z (res_size result);
                                  meta_cachedAt :=
                                    string_or (res_cachedAt result)
                                      (Date_toISOString env (List.length (trace w1))) |};
                        pr_error := None |} |}, w1)
    | (Err e, w1) =>
        (Ok {| pack_status := 500;
               pack_body := inl {| pr_success := false; pr_cacheKey := None;
                                   pr_fromCache := None; pr_metadata := None;
                                   pr_error := Some e |} |},
         {| fs := fs w1;
            trace := EvConsole ErrorLevel ("Pack error: " +:+ e) :: trace w1 |})
    end.
Proof.
  intros Hurl Hgh. unfold pack_handler. rewrite Hgh. rewrite Hurl at 1.
  cbv [negb]. unfold try_catch at 1, bind at 1.
  destruct (processRepo _ _ _ _ w) as [[result|e] w1]; reflexivity.
Qed.

(** X15. The pack route never throws: it answers 200, 400 or 500.  It
    answers 400 exactly when the URL is empty or does not contain
    [github.com], and then nothing at all has happened, not even
    [init].  It answers 500 exactly when [processRepo] throws, with the
    message of that error, and 200 with the key and the [fromCache] of
    the result otherwise. *)
Theorem pack_handler_never_throws env body w :
  let url := pack_repoUrl body in
  let run := processRepo env (new_RepomixService env) url
               (default false (pack_forceRefresh body)) w in
  exists http w',
    pack_handler env body w = (Ok http, w')
    /\ (pack_status http = 400 <->
        url = EmptyString \/ Str.includes "github.com" url = false)
    /\ (pack_status http = 400 -> w' = w /\ exists error, pack_body http = inr error)
    /\ (pack_status http <> 400 ->
        match fst run with
        | Ok result =>
            pack_status http = 200
            /\ w' = snd run
            /\ exists metadata,
                 pack_body http
                 = inl {| pr_success := true;
                          pr_cacheKey := Some (res_cacheKey result);
                          pr_fromCache := Some (res_fromCache result);
                          pr_metadata := Some metadata;
                          pr_error := None |}
        | Err e =>
            http = {| pack_status := 500;
                      pack_body := inl {| pr_success := false; pr_cacheKey := None;
                                          pr_fromCache := None; pr_metadata := None;
                                          pr_error := Some e |} |}
            /\ fs w' = fs (snd run)
            /\ trace w' = EvConsole ErrorLevel ("Pack error: " +:+ e) :: trace (snd run)
        end).
Proof.
  intros url run.
  destruct (pack_repoUrl body) as [|c rest] eqn:Hurl.
  { eexists _, _. split; [unfold pack_handler; rewrite Hurl; reflexivity|].
    subst url. cbn [pack_status pack_body].
    split; [split; [left; reflexivity|reflexivity]|].
    split; [intros _; split; [reflexivity|eauto]|congruence]. }
  destruct (Str.includes "github.com" (String c rest)) eqn:Hgh.
  - rewrite (pack_handler_run env body c rest w Hurl) by (rewrite Hurl; exact Hgh).
    subst url run. rewrite Hurl.
    destruct (processRepo _ _ _ _ w) as [[result|e] w1]; eexists _, _;
      (split; [reflexivity|]); cbn [pack_status pack_body fst snd fs trace].
    + split; [split; [discriminate|intros [?|?]; congruence]|].
      split; [discriminate|]. intros _. split; [reflexivity|]. split; [reflexivity|eauto].
    + split; [split; [discriminate|intros [?|?]; congruence]|].
      split; [discriminate|]. intros _. repeat split.
  - rewrite <- Hurl in Hgh.
    rewrite (pack_handler_rejects env body w) by (rewrite ?Hurl; congruence).
    eexists _, _. split; [reflexivity|]. subst url. cbn [pack_status pack_body].
    rewrite <- Hurl.
    split; [split; [right; exact Hgh|reflexivity]|].
    split; [intros _; split; [reflexivity|eauto]|congruence].
Qed.

(** X16. After the pack route answered 200 with a key, the status route
    answers 200 for that key: the entry exists.  The cache directory is
    assumed to lie outside the workspaces. *)
Theorem pack_then_status env body w http w' :
  cache_outside_temp (new_RepomixService env) ->
  pack_handler env body w = (Ok http, w') ->
  pack_status http = 200 ->
  exists key response metadata w'',
    pack_body http = inl response
    /\ pr_cacheKey response = Some key
    /\ status_handler env key w'
       = (Ok {| status_status := 200;
                status_body := inl {| st_exists := true; st_cacheKey := key;
                                      st_metadata := Some metadata |} |}, w'').
Proof.
  intros Hsep Hrun Hok.
  destruct (pack_repoUrl body) as [|c rest] eqn:Hurl.
  { unfold pack_handler in Hrun. rewrite Hurl in Hrun. injection Hrun as <- _.
    discriminate. }
  destruct (Str.includes "github.com" (pack_repoUrl body)) eqn:Hgh.
  2:{ rewrite (pack_handler_rejects env body w) in Hrun by congruence.
      injection Hrun as <- _. discriminate. }
  rewrite (pack_handler_run env body c rest w Hurl Hgh) in Hrun.
  destruct (processRepo _ _ _ _ w) as [[result|e] w1] eqn:Ep;
    injection Hrun as <- <-; [|discriminate].
  destruct (processRepo_result_entry env _ _ _ _ _ _ Hsep Ep) as (content & _ & Hfile & _).
  destruct (status_handler_run env (res_cacheKey result) w1) as (evs & E & _).
  unfold lookup_entry in E. rewrite Hfile in E.
  eexists _, _, _, _. split; [reflexivity|]. split; [reflexivity|]. exact E.
Qed.

(** ** The chat route *)

Lemma new_GroqService_run {S} env apiKey (s : S) :
  new_GroqService env apiKey s
  = match match apiKey with
          | Some k => k
          | None => string_or (env_GROQ_API_KEY env) EmptyString
          end with
    | EmptyString => (Err "Groq API key is required", s)
    | String c k =>
        (Ok {| groq_apiKey := String c k; groq_model := "llama-3.3-70b-versatile" |}, s)
    end.
Proof.
  unfold new_GroqService.
  destruct (match apiKey with Some k => k | None => _ end); reflexivity.
Qed.

Lemma chat_tools_and_reply_status env g svc s http s' :
  chat_tools_and_reply env g svc s = (Ok http, s') ->
  exists reply, http = {| chat_status := 200; chat_body := ChatJson reply |}.
Proof.
  unfold chat_tools_and_reply, bind, read, gets, ret. cbn [fst snd].
  destruct (hasToolCalls _).
  - destruct (parseToolCalls _ _ _) as [[calls|e] s1]; [|discriminate].
    destruct (for_each _ _ _) as [[[]|e] s2]; [|discriminate].
    intros [= <- _]. eauto.
  - intros [= <- _]. eauto.
Qed.

(** The chat handler from its first model call on. *)
Lemma chat_handler_run env body c m w :
  req_message body = String c m ->
  chat_handler env body w
  = match effective_apiKey env body with
    | EmptyString =>
        (Ok (chat_failure "Groq API key is required"),
         {| fs := fs w;
            trace := EvConsole ErrorLevel "Chat error: Groq API key is required"
                       :: trace w |})
    | String _ _ =>
        let g := chat_service env body in
        let svc := new_RepomixService env in
        let start := preload_start env body w in
        match chat env g (first_messages body) (Some toolDefinitions) (fst start)
                (preload_world env body w) with
        | (Ok first, w2) =>
            match chat_tools_and_reply env g svc
                    (first_locals body first (snd start), w2) with
            | (Ok http, s) => (Ok http, snd s)
            | (Err e, s) =>
                (Ok (chat_failure e),
                 {| fs := fs (snd s);
                    trace := EvConsole ErrorLevel ("Chat error: " +:+ e)
                               :: trace (snd s) |})
            end
        | (Err e, w2) =>
            (Ok (chat_failure e),
             {| fs := fs w2;
                trace := EvConsole ErrorLevel ("Chat error: " +:+ e) :: trace w2 |})
        end
    end.
Proof.
  intros Hm.
  destruct (loadFromCache_run env (new_RepomixService env)
              (default EmptyString (req_cacheKey body)) w) as (evl & El & _).
  unfold chat_handler, chat_service, preload_start, preload_world, first_locals,
    first_messages, preloaded.
  rewrite Hm. unfold try_catch at 1, bind at 1. rewrite new_GroqService_run.
  fold (effective_apiKey env body).
  destruct (effective_apiKey env body) as [|kc k]; [reflexivity|].
  cbv zeta.
  destruct (truthy (req_cacheKey body)).
  - unfold bind at 1. unfold bind at 1. rewrite El. cbn [fst snd].
    destruct (lookup_entry _ _ _ _ _) as [entry|]; cbn [ret fst snd];
      unfold bind at 1;
      (destruct (chat _ _ _ _ _ _) as [[first|e] w2]; [|reflexivity]);
      unfold with_locals;
      (destruct (chat_tools_and_reply _ _ _ _) as [[http|e] [l2 w3]]; reflexivity).
  - unfold bind at 1. cbn [ret fst snd].
    unfold bind at 1.
    (destruct (chat _ _ _ _ _ _) as [[first|e] w2]; [|reflexivity]);
      unfold with_locals;
      (destruct (chat_tools_and_reply _ _ _ _) as [[http|e] [l2 w3]]; reflexivity).
Qed.

Lemma preload_world_run env body w :
  fs (preload_world env body w) = fs w /\ only is_fs_read w (preload_world env body w).
Proof.
  unfold preload_world. destruct (truthy _).
  - destruct (loadFromCache_run env (new_RepomixService env)
                (default EmptyString (req_cacheKey body)) w) as (evl & El & Ql & _).
    rewrite El. split; [reflexivity|]. exists evl. split; [reflexivity|exact Ql].
  - split; [reflexivity|apply only_refl].
Qed.

(** X17. The chat route never throws: it answers 200, 400 or 500.  It
    answers 400 exactly when the message is empty, before anything
    else has happened.  Without an API key, in the request or in the
    environment, it answers 500 with the message of the constructor,
    and has made no model call and looked at no file.  A 200 carries a
    reply, every other answer an error text. *)
Theorem chat_handler_never_throws env body w :
  exists http w',
    chat_handler env body w = (Ok http, w')
    /\ (chat_status http = 200 \/ chat_status http = 400 \/ chat_status http = 500)
    /\ (chat_status http = 400 <-> req_message body = EmptyString)
    /\ (chat_status http = 400 ->
        w' = w /\ chat_body http = ChatError "Message is required")
    /\ (chat_status http = 200 <-> exists reply, chat_body http = ChatJson reply)
    /\ (req_message body <> EmptyString ->
        effective_apiKey env body = EmptyString ->
        http = chat_failure "Groq API key is required"
        /\ fs w' = fs w
        /\ trace w'
           = EvConsole ErrorLevel "Chat error: Groq API key is required" :: trace w).
Proof.
  destruct (req_message body) as [|c m] eqn:Hm.
  { eexists _, _. split; [unfold chat_handler; rewrite Hm; reflexivity|].
    cbn [chat_status chat_body].
    split; [right; left; reflexivity|]. split; [tauto|].
    split; [intros _; split; reflexivity|].
    split; [split; [discriminate|intros [? [=]]]|congruence]. }
  rewrite (chat_handler_run env body c m w Hm).
  destruct (effective_apiKey env body) as [|kc k] eqn:Hk.
  { eexists _, _. split; [reflexivity|]. cbn [chat_status chat_body chat_failure fs trace].
    split; [right; right; reflexivity|]. split; [split; discriminate|].
    split; [discriminate|]. split; [split; [discriminate|intros [? [=]]]|].
    intros _ _. repeat split. }
  cbv zeta.
  destruct (chat _ _ _ _ _ _) as [[first|e] w2].
  2:{ eexists _, _. split; [reflexivity|]. cbn [chat_status chat_body chat_failure].
      split; [right; right; reflexivity|]. split; [split; discriminate|].
      split; [discriminate|]. split; [split; [discriminate|intros [? [=]]]|].
      intros _ [=]. }
  destruct (chat_tools_and_reply _ _ _ _) as [[http|e] s] eqn:Er.
  - apply chat_tools_and_reply_status in Er as [reply ->].
    eexists _, _. split; [reflexivity|]. cbn [chat_status chat_body].
    split; [left; reflexivity|]. split; [split; discriminate|].
    split; [discriminate|]. split; [split; [eauto|reflexivity]|].
    intros _ [=].
  - eexists _, _. split; [reflexivity|]. cbn [chat_status chat_body chat_failure].
    split; [right; right; reflexivity|]. split; [split; discriminate|].
    split; [discriminate|]. split; [split; [discriminate|intros [? [=]]]|].
    intros _ [=].
Qed.

Lemma parse_calls_malformed {S} env calls call (s : S) :
  In call calls ->
  JSON_parse_arguments env (tc_function_arguments call) = None ->
  exists e, parse_calls env calls s = (Err e, s).
Proof.
  intros Hin Hbad. induction calls as [|x calls IH]; [destruct Hin|].
  cbn [parse_calls]. destruct Hin as [->|Hin].
  - rewrite Hbad. eexists. reflexivity.
  - destruct (JSON_parse_arguments env (tc_function_arguments x)); [|eexists; reflexivity].
    destruct (IH Hin) as [e E]. exists e. unfold bind. rewrite E. reflexivity.
Qed.

Lemma chat_tools_and_reply_malformed env g svc l w call :
  In call (default [] (msg_tool_calls (gr_message (response l)))) ->
  JSON_parse_arguments env (tc_function_arguments call) = None ->
  exists e, chat_tools_and_reply env g svc (l, w) = (Err e, (l, w)).
Proof.
  intros Hin Hbad.
  destruct (parse_calls_malformed env _ call (l, w) Hin Hbad) as [e E].
  exists e. unfold chat_tools_and_reply, read, gets. unfold bind at 1. cbn [fst snd].
  assert (Hh : hasToolCalls (gr_message (response l)) = true).
  { unfold hasToolCalls. destruct (msg_tool_calls _) as [[|]|]; (reflexivity || destruct Hin). }
  rewrite Hh. unfold bind at 1. unfold bind at 1. unfold parseToolCalls.
  rewrite Hh. cbn [negb]. rewrite E. reflexivity.
Qed.

(** X18. One tool call whose arguments [JSON.parse] rejects aborts the
    turn.  All calls are parsed before the first is run, so when the
    first model call returns such a call among its tool calls, no call
    is run, well-formed or not: the route answers 500, and after the
    model call the line on the console is all that has happened. *)
Theorem malformed_arguments_abort_turn env body c m w first w2 call :
  req_message body = String c m ->
  effective_apiKey env body <> EmptyString ->
  chat env (chat_service env body) (first_messages body) (Some toolDefinitions)
    (fst (preload_start env body w)) (preload_world env body w)
  = (Ok first, w2) ->
  In call (default [] (msg_tool_calls (gr_message first))) ->
  JSON_parse_arguments env (tc_function_arguments call) = None ->
  exists e,
    chat_handler env body w
    = (Ok (chat_failure e),
       {| fs := fs w2;
          trace := EvConsole ErrorLevel ("Chat error: " +:+ e) :: trace w2 |}).
Proof.
  intros Hm Hkey Hchat Hin Hbad.
  rewrite (chat_handler_run env body c m w Hm).
  destruct (effective_apiKey env body) as [|kc k] eqn:Hk; [congruence|]. cbv zeta.
  rewrite Hchat.
  edestruct (chat_tools_and_reply_malformed env) as [e Er];
    [| exact Hbad | rewrite Er; exists e; reflexivity].
  exact Hin.
Qed.

(** ** One model call *)

Lemma chat_run env self msgs tools ctx w :
  exists params,
    param_messages params = system_message ctx :: msgs
    /\ param_model params = groq_model self
    /\ param_tools params = match tools with Some (_ :: _) => tools | _ => None end
    /\ param_tool_choice params
       = match tools with Some (_ :: _) => Some "auto" | _ => None end
    /\ chat env self msgs tools ctx w
       = match groq_create env (List.length (trace w)) (groq_apiKey self) params with
         | Ok completion =>
             match comp_choices completion with
             | choice :: _ =>
                 (Ok {| gr_message := choice_message choice;
                        gr_usage := usage_of (comp_usage completion);
                        gr_finishReason :=
                          string_or (choice_finish_reason choice) "stop" |},
                  {| fs := fs w; trace := EvGroq params :: trace w |})
             | [] =>
                 (Err ("Groq API failed: "
                         +:+ "Cannot read properties of undefined (reading 'message')"),
                  {| fs := fs w;
                     trace := EvConsole ErrorLevel
                                ("Groq API error: "
                                   +:+ "Cannot read properties of undefined (reading 'message')")
                                :: EvGroq params :: trace w |})
             end
         | Err e =>
             (Err ("Groq API failed: " +:+ e),
              {| fs := fs w;
                 trace := EvConsole ErrorLevel ("Groq API error: " +:+ e)
                            :: EvGroq params :: trace w |})
         end.
Proof.
  exists {| param_model := groq_model self;
            param_messages := system_message ctx :: msgs;
            param_temperature := "0.7";
            param_max_tokens := 8000;
            param_tools := match tools with Some (_ :: _) => tools | _ => None end;
            param_tool_choice :=
              match tools with Some (_ :: _) => Some "auto" | _ => None end |}.
  split; [reflexivity|]. split; [reflexivity|]. split; [reflexivity|].
  split; [reflexivity|].
  destruct w as [m tr]. unfold chat, completions_create. run.
  destruct tools as [[|t ts]|];
    (destruct (groq_create _ _ _ _) as [c|e]; run; [|reflexivity]);
    destruct (comp_choices c); reflexivity.
Qed.

(** X19. [chat] makes exactly one request and touches no file.  The request
    starts with one system message, followed by the messages as given;
    it offers tools, with [tool_choice] set, only for a list of tools
    that is not empty.  An empty context counts as none.  Whatever goes
    wrong, an error of the API or a completion without a choice,
    surfaces under the prefix of [chat], after a line on the console. *)
Theorem chat_sends_one_request env self messages tools repoContext w r w' :
  chat env self messages tools repoContext w = (r, w') ->
  exists params,
    fs w' = fs w
    /\ param_messages params = system_message repoContext :: messages
    /\ (param_tools params = None <-> tools = None \/ tools = Some [])
    /\ (param_tool_choice params = None <-> param_tools params = None)
    /\ system_message (Some EmptyString) = system_message None
    /\ match r with
       | Ok _ => trace w' = EvGroq params :: trace w
       | Err e =>
           exists e',
             e = "Groq API failed: " +:+ e'
             /\ trace w' = EvConsole ErrorLevel ("Groq API error: " +:+ e')
                             :: EvGroq params :: trace w
       end.
Proof.
  intros Hrun.
  destruct (chat_run env self messages tools repoContext w)
    as (params & Hm & _ & Ht & Hc & E).
  rewrite Hrun in E. exists params.
  assert (Hfs : fs w' = fs w /\ match r with
       | Ok _ => trace w' = EvGroq params :: trace w
       | Err e =>
           exists e',
             e = "Groq API failed: " +:+ e'
             /\ trace w' = EvConsole ErrorLevel ("Groq API error: " +:+ e')
                             :: EvGroq params :: trace w
       end).
  { destruct (groq_create _ _ _ _) as [completion|e].
    - destruct (comp_choices completion); injection E as -> ->;
        (split; [reflexivity|]); [eexists; split; reflexivity|reflexivity].
    - injection E as -> ->. split; [reflexivity|]. eexists. split; reflexivity. }
  destruct Hfs as [Hfs Htr].
  split; [exact Hfs|]. split; [exact Hm|].
  split.
  { rewrite Ht. destruct tools as [[|t ts]|];
      (split; [intros H; first [discriminate H | tauto]
              |intros [H|H]; first [discriminate H | reflexivity]]). }
  split.
  { rewrite Ht, Hc. destruct tools as [[|t ts]|]; split; (reflexivity || discriminate). }
  split; [reflexivity|exact Htr].
Qed.

(** ** The context of a turn *)

Lemma chat_tools_and_reply_plain env g svc l w :
  hasToolCalls (gr_message (response l)) = false ->
  chat_tools_and_reply env g svc (l, w)
  = (Ok {| chat_status := 200; chat_body := ChatJson (reply_of l) |}, (l, w)).
Proof.
  intros Hh. unfold chat_tools_and_reply, read, gets. unfold bind at 1. cbn [fst snd].
  rewrite Hh. reflexivity.
Qed.

(** X20. A turn that carries the key of an entry gives the model the
    content of that entry as context and answers under the same key.
    A key without an entry is dropped: the model gets no context and,
    unless a tool call brings a new key, the reply carries none.  In
    both cases the first request is the system message for that
    context, then the history, then the message of the user. *)
Theorem chat_context_follows_cache env body c m kc krest w :
  req_message body = String c m ->
  effective_apiKey env body <> EmptyString ->
  req_cacheKey body = Some (String kc krest) ->
  let key := String kc krest in
  let svc := new_RepomixService env in
  (forall content,
     fs w !! cachePath_of svc key = Some (File content) ->
     preload_start env body w = (Some content, Some key))
  /\ (Fs.is_file (fs w) (cachePath_of svc key) = false ->
      preload_start env body w = (None, None))
  /\ forall first w2,
       chat env (chat_service env body) (first_messages body) (Some toolDefinitions)
         (fst (preload_start env body w)) (preload_world env body w)
       = (Ok first, w2) ->
       (exists params,
          trace w2 = EvGroq params :: trace (preload_world env body w)
          /\ param_messages params
             = system_message (fst (preload_start env body w)) :: first_messages body)
       /\ (hasToolCalls (gr_message first) = false ->
           chat_handler env body w
           = (Ok {| chat_status := 200;
                    chat_body :=
                      ChatJson
                        {| resp_response :=
                             string_or (msg_content (gr_message first)) EmptyString;
                           resp_toolCalls := None;
                           resp_usage := Some (gr_usage first);
                           resp_cacheKey := snd (preload_start env body w) |} |},
              w2)).
Proof.
  intros Hm Hkey Hck key svc.
  destruct (loadFromCache_run env svc key w) as (evl & El & _).
  split; [|split].
  - intros content Hfile. unfold preload_start, preloaded. rewrite Hck.
    cbv [truthy default from_option id]. fold svc key. rewrite El. cbn [fst].
    unfold lookup_entry. rewrite Hfile. reflexivity.
  - intros Hmiss. unfold preload_start, preloaded. rewrite Hck.
    cbv [truthy default from_option id]. fold svc key. rewrite El. cbn [fst].
    rewrite lookup_entry_miss by exact Hmiss. reflexivity.
  - intros first w2 Hchat. split.
    + destruct (chat_run env (chat_service env body) (first_messages body)
                  (Some toolDefinitions) (fst (preload_start env body w))
                  (preload_world env body w)) as (params & Hp & _ & _ & _ & E).
      rewrite Hchat in E. exists params. split; [|exact Hp].
      destruct (groq_create _ _ _ _) as [completion|e]; [|discriminate].
      destruct (comp_choices completion); [discriminate|].
      injection E as _ ->. reflexivity.
    + intros Hh. rewrite (chat_handler_run env body c m w Hm).
      destruct (effective_apiKey env body) as [|k0 k] eqn:Hk; [congruence|]. cbv zeta.
      rewrite Hchat. rewrite chat_tools_and_reply_plain by exact Hh. reflexivity.
Qed.

(** ** An invocation that succeeds *)

Lemma handle_call_returned env g svc call l w result w1 :
  call_name call = "pack_repository" ->
  processRepo env svc (arg_repoUrl (call_arguments call))
    (default false (arg_forceRefresh (call_arguments call))) w = (Ok result, w1) ->
  let msgs := (messages l ++ [gr_message (response l); tool_message env call result])%list in
  let recorded_ more :=
    {| messages := msgs; response := response l;
       toolCalls := (toolCalls l ++ result_record call result :: more)%list;
       finalCacheKey := finalCacheKey l |} in
  handle_call env g svc call (l, w)
  = match loadFromCache env svc (res_cacheKey result) w1 with
    | (Ok (Some entry), w2) =>
        match chat env g msgs None (Some (cached_content entry)) w2 with
        | (Ok second, w3) =>
            (Ok tt,
             ({| messages := msgs;
                 response := second;
                 toolCalls := (toolCalls l ++ [result_record call result])%list;
                 finalCacheKey := Some (res_cacheKey result) |}, w3))
        | (Err e, w3) => (Ok tt, (recorded_ [error_record call e], w3))
        end
    | (Ok None, w2) => (Ok tt, (recorded_ [], w2))
    | (Err e, w2) => (Ok tt, (recorded_ [error_record call e], w2))
    end.
Proof.
  intros Hname Hrun msgs recorded_.
  rewrite handle_call_pack by exact Hname.
  unfold try_catch, bind at 1, await at 1. cbn [fst snd]. rewrite Hrun.
  unfold after_result, after_record, assign, read, modify, gets, bind, await, ret.
  destruct l as [ms rs ts fk].
  cbv [push_toolCall push_message messages response toolCalls finalCacheKey fst snd]
    in msgs, recorded_ |- *.
  destruct (loadFromCache env svc (res_cacheKey result) w1) as [[[entry|]|e] w2];
    cbv [set_response set_finalCacheKey push_toolCall push_message messages response
         toolCalls finalCacheKey fst snd].
  - rewrite <- !app_assoc. cbn [app]. fold msgs.
    destruct (chat env g msgs None (Some (cached_content entry)) w2) as [[second|e] w3];
      [reflexivity|].
    unfold recorded_. rewrite <- app_assoc. reflexivity.
  - unfold recorded_. rewrite <- !app_assoc. reflexivity.
  - unfold recorded_. rewrite <- !app_assoc. reflexivity.
Qed.

(** X21. When the pipeline of a [pack_repository] invocation returns, the
    entry under the key of the result is always found, so the second
    model call is always made: without tools, with the content of the
    entry as context, on the messages so far followed by the response
    so far and by the tool message.  When that call returns, its
    response replaces the response and the key of the result becomes
    the key of the turn.  When it throws, the response and the key
    stay, and the invocation is on record twice: once with its result
    and once with the error.  The cache directory is assumed to lie
    outside the workspaces. *)
Theorem successful_invocation_makes_second_call env g svc call l w result w1 :
  cache_outside_temp svc ->
  call_name call = "pack_repository" ->
  processRepo env svc (arg_repoUrl (call_arguments call))
    (default false (arg_forceRefresh (call_arguments call))) w = (Ok result, w1) ->
  let msgs := (messages l ++ [gr_message (response l); tool_message env call result])%list in
  exists entry w2,
    loadFromCache env svc (res_cacheKey result) w1 = (Ok (Some entry), w2)
    /\ fs w1 !! cachePath_of svc (res_cacheKey result)
       = Some (File (cached_content entry))
    /\ handle_call env g svc call (l, w)
       = match chat env g msgs None (Some (cached_content entry)) w2 with
         | (Ok second, w3) =>
             (Ok tt,
              ({| messages := msgs;
                  response := second;
                  toolCalls := (toolCalls l ++ [result_record call result])%list;
                  finalCacheKey := Some (res_cacheKey result) |}, w3))
         | (Err e, w3) =>
             (Ok tt,
              ({| messages := msgs;
                  response := response l;
                  toolCalls := (toolCalls l ++ [result_record call result;
                                                error_record call e])%list;
                  finalCacheKey := finalCacheKey l |}, w3))
         end.
Proof.
  intros Hsep Hname Hrun msgs.
  destruct (processRepo_result_entry _ _ _ _ _ _ _ Hsep Hrun)
    as (content & _ & Hfile & _).
  destruct (loadFromCache_hit env svc _ w1 content Hfile) as (entry & w2 & El & <-).
  exists entry, w2. split; [exact El|]. split; [exact Hfile|].
  rewrite (handle_call_returned env g svc call l w result w1 Hname Hrun). cbv zeta.
  rewrite El. fold msgs.
  destruct (chat env g msgs None (Some (cached_content entry)) w2) as [[second|e] w3];
    reflexivity.
Qed.

(** ** How many model calls a turn makes *)

Lemma count_groq_app a b : count_groq (a ++ b) = count_groq a + count_groq b.
Proof. unfold count_groq. rewrite List.filter_app, List.length_app. reflexivity. Qed.

Lemma count_results_app a b : count_results (a ++ b) = count_results a + count_results b.
Proof. unfold count_results. rewrite List.filter_app, List.length_app. reflexivity. Qed.

Lemma count_groq_none evs : forallb not_groq evs = true -> count_groq evs = 0.
Proof.
  induction evs as [|e evs IH]; [reflexivity|]. cbn [forallb]. intros H.
  apply andb_true_iff in H as [He H]. unfold count_groq in *. cbn [List.filter].
  unfold not_groq in He. apply negb_true_iff in He. rewrite He. apply IH, H.
Qed.

Lemma read_not_groq e : is_fs_read e = true -> not_groq e = true.
Proof. destruct e; (discriminate || reflexivity). Qed.

Lemma handle_call_counts env g svc call s :
  exists s' evs new,
    handle_call env g svc call s = (Ok tt, s')
    /\ continues (snd s) evs (snd s')
    /\ toolCalls (fst s') = (toolCalls (fst s) ++ new)%list
    /\ count_groq evs <= count_results new
    /\ count_results new <= (if is_pack_call call then 1 else 0)
    /\ (cache_outside_temp svc -> count_groq evs = count_results new).
Proof.
  destruct s as [l w]. cbn [fst snd].
  destruct (is_pack_call call) eqn:En; unfold is_pack_call in En.
  2:{ exists (l, w), [], []. unfold handle_call. rewrite En.
      split; [reflexivity|]. split; [reflexivity|].
      split; [symmetry; apply app_nil_r|]. repeat split; reflexivity. }
  apply String.eqb_eq in En.
  destruct (processRepo env svc (arg_repoUrl (call_arguments call))
              (default false (arg_forceRefresh (call_arguments call))) w)
    as [[result|e] w1] eqn:Ep.
  2:{ rewrite (handle_call_failed env g svc call l w e w1 En Ep).
      pose proof (preserves_run _ _ _ _ _ (processRepo_not_groq env svc _ _) Ep)
        as (evs & Hc & Hq).
      eexists _, evs, [error_record call e]. split; [reflexivity|]. cbn [fst snd].
      split; [exact Hc|]. split; [reflexivity|].
      rewrite (count_groq_none _ Hq). repeat split; (reflexivity || lia || cbn; lia). }
  pose proof (preserves_run _ _ _ _ _ (processRepo_not_groq env svc _ _) Ep)
    as (evs1 & Hc1 & Hq1).
  rewrite (handle_call_returned env g svc call l w result w1 En Ep). cbv zeta.
  destruct (loadFromCache_run env svc (res_cacheKey result) w1) as (evl & El & Ql & _).
  rewrite El.
  assert (Hreads : count_groq evl = 0)
    by (apply count_groq_none; eapply forallb_weaken; [apply read_not_groq|exact Ql]).
  assert (Hpipe : count_groq evs1 = 0) by (apply count_groq_none, Hq1).
  unfold continues in Hc1.
  destruct (lookup_entry env svc (fs w1) (res_cacheKey result) _) as [entry|] eqn:Ee.
  - match goal with
    | |- context [chat env g ?msgs None ?ctx ?w2] =>
        destruct (chat_run env g msgs None ctx w2) as (params & _ & _ & _ & _ & E);
        rewrite E; clear E
    end.
    cbn [trace fs].
    destruct (groq_create _ _ _ _) as [completion|e]; [destruct (comp_choices completion)|].
    + eexists _, (_ :: EvGroq params :: evl ++ evs1)%list, [_; _].
      split; [reflexivity|]. cbn [fst snd trace toolCalls].
      split; [unfold continues; cbn [trace app]; rewrite Hc1, <- app_assoc; reflexivity|].
      split; [reflexivity|].
      change (?a :: EvGroq params :: evl ++ evs1)%list
        with ([a; EvGroq params] ++ evl ++ evs1)%list.
      rewrite !count_groq_app, Hreads, Hpipe. cbn. repeat split; lia.
    + eexists _, (EvGroq params :: evl ++ evs1)%list, [_].
      split; [reflexivity|]. cbn [fst snd trace toolCalls].
      split; [unfold continues; cbn [trace app]; rewrite Hc1, <- app_assoc; reflexivity|].
      split; [reflexivity|].
      change (EvGroq params :: evl ++ evs1)%list
        with ([EvGroq params] ++ evl ++ evs1)%list.
      rewrite !count_groq_app, Hreads, Hpipe. cbn. repeat split; lia.
    + eexists _, (_ :: EvGroq params :: evl ++ evs1)%list, [_; _].
      split; [reflexivity|]. cbn [fst snd trace toolCalls].
      split; [unfold continues; cbn [trace app]; rewrite Hc1, <- app_assoc; reflexivity|].
      split; [reflexivity|].
      change (?a :: EvGroq params :: evl ++ evs1)%list
        with ([a; EvGroq params] ++ evl ++ evs1)%list.
      rewrite !count_groq_app, Hreads, Hpipe. cbn. repeat split; lia.
  - eexists _, (evl ++ evs1)%list, [_].
    split; [reflexivity|]. cbn [fst snd trace toolCalls].
    split; [unfold continues; cbn [trace app]; rewrite Hc1, <- app_assoc; reflexivity|].
    split; [reflexivity|].
    rewrite !count_groq_app, Hreads, Hpipe. cbn.
    split; [lia|]. split; [lia|]. intros Hsep. exfalso.
    destruct (processRepo_result_entry _ _ _ _ _ _ _ Hsep Ep) as (content & _ & Hfile & _).
    unfold lookup_entry in Ee. rewrite Hfile in Ee. discriminate.
Qed.

(** X22. The tool loop never throws, and it makes at most one model call
    for each [pack_repository] invocation: no more model calls than it
    puts results on record, and no more results than there are such
    invocations.  When the cache directory lies outside the
    workspaces, every result on record has had its model call. *)
Theorem tool_loop_model_calls env g svc calls s :
  exists s' evs new,
    for_each calls (handle_call env g svc) s = (Ok tt, s')
    /\ continues (snd s) evs (snd s')
    /\ toolCalls (fst s') = (toolCalls (fst s) ++ new)%list
    /\ count_groq evs <= count_results new
    /\ count_results new <= List.length (List.filter is_pack_call calls)
    /\ (cache_outside_temp svc -> count_groq evs = count_results new).
Proof.
  revert s. induction calls as [|call calls IH]; intros s.
  { exists s, [], []. split; [reflexivity|]. split; [reflexivity|].
    split; [symmetry; apply app_nil_r|]. repeat split; reflexivity. }
  destruct (handle_call_counts env g svc call s)
    as (s1 & evs1 & new1 & E1 & Hc1 & Ht1 & Hle1 & Hp1 & Heq1).
  destruct (IH s1) as (s2 & evs2 & new2 & E2 & Hc2 & Ht2 & Hle2 & Hp2 & Heq2).
  exists s2, (evs2 ++ evs1)%list, (new1 ++ new2)%list.
  split; [cbn [for_each]; erewrite bind_ok by exact E1; exact E2|].
  split; [unfold continues in *; rewrite Hc2, Hc1, app_assoc; reflexivity|].
  split; [rewrite Ht2, Ht1, app_assoc; reflexivity|].
  rewrite count_groq_app, count_results_app. cbn [List.filter].
  split; [lia|]. split.
  - destruct (is_pack_call call); cbn [List.length]; lia.
  - intros Hsep. rewrite (Heq1 Hsep), (Heq2 Hsep). lia.
Qed.

(** ** Reading the owner and the repository off a URL *)

Lemma span_not_all sep s :
  all_chars (fun c => negb (Ascii.eqb c sep)) s = true ->
  Str.span_not sep s = (s, EmptyString).
Proof.
  induction s as [|c s IH]; [reflexivity|]. cbn [all_chars]. intros H.
  apply andb_true_iff in H as [Hc Hs]. cbn [Str.span_not].
  apply negb_true_iff in Hc. rewrite Hc, IH by exact Hs. reflexivity.
Qed.

Lemma github_groups_canonical owner repo rest :
  owner <> EmptyString -> repo <> EmptyString ->
  all_chars not_slash owner = true -> all_chars not_slash repo = true ->
  rest = EmptyString \/ (exists r, rest = String "/" r) ->
  github_groups_here ("github.com/" +:+ owner +:+ "/" +:+ repo +:+ rest)
  = Some (owner, repo).
Proof.
  intros Ho Hr Hso Hsr Hrest. unfold github_groups_here.
  change (Str.starts_with "github.com/" ("github.com/" +:+ ?x)) with true.
  change (Str.drop 11 ("github.com/" +:+ ?x)) with x. cbv iota.
  change (owner +:+ "/" +:+ repo +:+ rest) with (owner +:+ String "/" (repo +:+ rest)).
  rewrite span_not_app by exact Hso.
  destruct owner as [|oc owner]; [congruence|].
  assert (Hspan : Str.span_not "/" (repo +:+ rest) = (repo, rest)).
  { destruct Hrest as [->|[r ->]].
    - replace (repo +:+ EmptyString) with repo; [apply span_not_all, Hsr|].
      clear. induction repo as [|c s IH]; [reflexivity|]. rewrite app_cons, <- IH.
      reflexivity.
    - apply span_not_app, Hsr. }
  rewrite Hspan. destruct repo; [congruence|reflexivity].
Qed.

Lemma match_github_skips pre s :
  all_chars not_g pre = true ->
  match_github (pre +:+ s) = match_github s.
Proof.
  induction pre as [|c pre IH]; [rewrite app_nil; reflexivity|].
  cbn [all_chars]. intros H. apply andb_true_iff in H as [Hc H].
  rewrite app_cons. cbn [match_github]. unfold github_groups_here at 1.
  cbn [Str.starts_with]. unfold not_g in Hc. rewrite Ascii.eqb_sym in Hc.
  destruct (Ascii.eqb "g" c); [discriminate|]. cbn [andb]. apply IH, H.
Qed.

Lemma match_github_absent s :
  Str.includes "github.com/" s = false -> match_github s = None.
Proof.
  induction s as [|c s IH].
  - reflexivity.
  - cbn [Str.includes]. destruct (Str.starts_with "github.com/" (String c s)) eqn:E;
      [discriminate|].
    intros H. cbn [match_github]. unfold github_groups_here. rewrite E. apply IH, H.
Qed.

(** X23. What the pattern of [getLatestCommitShaFromGithub] reads off a
    URL.  After a scheme and host prefix without the letter g (as
    [https://] or [http://www.]), [github.com/owner/repo] gives the
    owner and the repository, and whatever follows a further slash is
    ignored.  A URL in which [github.com/] does not occur gives
    nothing. *)
Theorem match_github_reads_owner_and_repo pre owner repo rest :
  all_chars not_g pre = true ->
  owner <> EmptyString -> repo <> EmptyString ->
  all_chars not_slash owner = true -> all_chars not_slash repo = true ->
  match_github (pre +:+ "github.com/" +:+ owner +:+ "/" +:+ repo) = Some (owner, repo)
  /\ match_github (pre +:+ "github.com/" +:+ owner +:+ "/" +:+ repo +:+ "/" +:+ rest)
     = Some (owner, repo)
  /\ (forall url, Str.includes "github.com/" url = false -> match_github url = None).
Proof.
  intros Hpre Ho Hr Hso Hsr.
  assert (Hhere : forall s, github_groups_here s = Some (owner, repo) ->
                            match_github s = Some (owner, repo)).
  { intros s H. destruct s; cbn [match_github]; rewrite H; reflexivity. }
  split; [|split].
  - rewrite match_github_skips by exact Hpre. apply Hhere.
    replace repo with (repo +:+ EmptyString) at 1.
    + apply github_groups_canonical; auto.
    + clear. induction repo as [|c s IH]; [reflexivity|]. rewrite app_cons, IH.
      reflexivity.
  - rewrite match_github_skips by exact Hpre. apply Hhere.
    apply github_groups_canonical; eauto.
  - apply match_github_absent.
Qed.

(** ** The revision of a workspace *)

Lemma trim_end_newline s :
  all_chars not_space s = true ->
  Str.trim_end (s +:+ String Sample.newline EmptyString) = s.
Proof.
  induction s as [|c s IH]; [reflexivity|]. cbn [all_chars]. intros H.
  apply andb_true_iff in H as [Hc Hs]. rewrite app_cons. cbn [Str.trim_end].
  rewrite IH by exact Hs. unfold not_space in Hc. apply negb_true_iff in Hc.
  rewrite Hc. destruct s; reflexivity.
Qed.

Lemma trim_newline s :
  all_chars not_space s = true ->
  Str.trim (s +:+ String Sample.newline EmptyString) = s.
Proof.
  intros H. unfold Str.trim.
  destruct s as [|c s]; [reflexivity|].
  rewrite app_cons. cbn [Str.trim_start].
  cbn [all_chars] in H. apply andb_true_iff in H as [Hc Hs].
  unfold not_space in Hc. apply negb_true_iff in Hc. rewrite Hc.
  rewrite <- app_cons. apply trim_end_newline. cbn [all_chars].
  unfold not_space at 1. rewrite Hc. exact Hs.
Qed.

(** X24. [getCommitSha] never throws and touches no file.  The revision it
    returns is what [git rev-parse] printed without the newline that
    ends it; when the command fails it is the unresolved revision,
    after a warning. *)
Theorem getCommitSha_reads_revision env repoPath w :
  let n := List.length (trace w) in
  (exists commitSha w', getCommitSha env repoPath w = (Ok commitSha, w') /\ fs w' = fs w)
  /\ (forall sha,
        all_chars not_space sha = true ->
        exec_git_rev_parse env n repoPath = Ok (sha +:+ String Sample.newline EmptyString) ->
        getCommitSha env repoPath w
        = (Ok sha, {| fs := fs w; trace := EvGitRevParse repoPath true :: trace w |}))
  /\ (forall e,
        exec_git_rev_parse env n repoPath = Err e ->
        getCommitSha env repoPath w
        = (Ok "latest",
           {| fs := fs w;
              trace := EvConsole WarnLevel ("Could not get commit SHA: " +:+ e)
                         :: EvGitRevParse repoPath false :: trace w |})).
Proof.
  intros n. split; [|split].
  - destruct (getCommitSha_run env repoPath w) as (sha & evs & E & _).
    eexists _, _. split; [exact E|reflexivity].
  - intros sha Hs Hout. subst n. destruct w as [m tr]. unfold getCommitSha. run.
    cbn [trace] in Hout. rewrite Hout. run. rewrite trim_newline by exact Hs. reflexivity.
  - intros e Hout. subst n. destruct w as [m tr]. unfold getCommitSha. run.
    cbn [trace] in Hout. rewrite Hout. reflexivity.
Qed.

(** ** Parsing the tool calls *)

Lemma parse_calls_ok {S} env tcs (s : S) r s' :
  parse_calls env tcs s = (r, s') ->
  s' = s
  /\ match r with
     | Ok calls =>
         map call_id calls = map tc_id tcs
         /\ map call_name calls = map tc_function_name tcs
         /\ map (fun call => Some (call_arguments call)) calls
            = map (fun tc => JSON_parse_arguments env (tc_function_arguments tc)) tcs
     | Err _ =>
         exists tc, In tc tcs /\ JSON_parse_arguments env (tc_function_arguments tc) = None
     end.
Proof.
  revert r s'. induction tcs as [|tc tcs IH]; intros r s'.
  - intros [= <- <-]. repeat split.
  - cbn [parse_calls].
    destruct (JSON_parse_arguments env (tc_function_arguments tc)) as [args|] eqn:Ea.
    + unfold bind. destruct (parse_calls env tcs s) as [[calls|e] s1] eqn:E.
      * destruct (IH _ _ eq_refl) as (-> & Hi & Hn & Ha).
        intros [= <- <-]. split; [reflexivity|]. cbn [map call_id call_name call_arguments].
        rewrite Hi, Hn, Ha, Ea. repeat split.
      * destruct (IH _ _ eq_refl) as (-> & tc' & Hin & Hbad).
        intros [= <- <-]. split; [reflexivity|]. exists tc'. split; [right; exact Hin|exact Hbad].
    + intros [= <- <-]. split; [reflexivity|]. exists tc. split; [left; reflexivity|exact Ea].
Qed.

(** X25. [parseToolCalls] parses every call or none.  It returns, with one
    parsed call for each tool call of the message, in their order and
    with their ids and names, exactly when [JSON.parse] accepts the
    arguments of every one of them; a message without tool calls gives
    the empty list.  It throws as soon as one call is malformed. *)
Theorem parseToolCalls_all_or_nothing {S} env message (s : S) :
  let tcs := default [] (msg_tool_calls message) in
  exists r,
    parseToolCalls env message s = (r, s)
    /\ match r with
       | Ok calls =>
           map call_id calls = map tc_id tcs
           /\ map call_name calls = map tc_function_name tcs
           /\ map (fun call => Some (call_arguments call)) calls
              = map (fun tc => JSON_parse_arguments env (tc_function_arguments tc)) tcs
       | Err _ =>
           exists tc, In tc tcs /\ JSON_parse_arguments env (tc_function_arguments tc) = None
       end.
Proof.
  intros tcs. unfold parseToolCalls.
  destruct (hasToolCalls message) eqn:Hh; cbn [negb].
  - destruct (parse_calls env tcs s) as [r s'] eqn:E. fold tcs. rewrite E.
    destruct (parse_calls_ok env tcs s r s' E) as (-> & H). exists r. split; [reflexivity|exact H].
  - exists (Ok []). split; [reflexivity|].
    unfold hasToolCalls in Hh. subst tcs.
    destruct (msg_tool_calls message) as [[|]|]; first [discriminate | repeat split].
Qed.

(** ** The output of the packing tool *)

(** X26. [packRepo] returns only a path that exists: the output path, after
    the tool has exited normally.  A tool that exits normally without
    having written its output makes it throw like a tool that fails,
    under the prefix of [packRepo].  No path but the output path
    changes. *)
Theorem packRepo_returns_existing_output env repoPath w r w' :
  packRepo env repoPath w = (r, w') ->
  let output := Fs.join repoPath "repomix-output.txt" in
  (forall q, q <> output -> fs w' !! q = fs w !! q)
  /\ match r with
     | Ok p =>
         p = output
         /\ (exists node, fs w' !! output = Some node)
         /\ exists n written, exec_repomix env n repoPath output = RepomixDone written
     | Err e =>
         exists e',
           e = "Failed to pack repository: " +:+ e'
           /\ ((exists n, exec_repomix env n repoPath output = RepomixFailed e')
               \/ e' = "ENOENT: no such file or directory, access '" +:+ output +:+ "'"
                  /\ fs w' !! output = None
                  /\ exists n, exec_repomix env n repoPath output = RepomixDone None)
     end.
Proof.
  intros Hrun output. destruct w as [m tr]. unfold packRepo in Hrun.
  fold output in Hrun. run_in Hrun.
  match type of Hrun with
  | context [exec_repomix env ?n repoPath output] =>
      destruct (exec_repomix env n repoPath output) as [e|[data|]] eqn:E; run_in Hrun
  end.
  - injection Hrun as <- <-. cbn [fs]. split; [reflexivity|].
    eexists. split; [reflexivity|]. left. eexists. exact E.
  - rewrite lookup_insert_eq in Hrun. injection Hrun as <- <-. cbn [fs].
    split; [intros q Hq; apply lookup_insert_ne; congruence|].
    split; [reflexivity|]. split; [rewrite lookup_insert_eq; eauto|eauto].
  - destruct (m !! output) as [node|] eqn:El; injection Hrun as <- <-; cbn [fs].
    + split; [reflexivity|]. split; [reflexivity|]. split; [eauto|eauto].
    + split; [reflexivity|]. eexists. split; [reflexivity|]. right.
      split; [reflexivity|]. split; [exact El|eauto].
Qed.

Lemma packRepo_returns_existing_output_witness :
  let env := Sample.env silent_pack in
  let run := packRepo env "./temp/demo-1" Sample.ready_world in
  fst run
  = Err ("Failed to pack repository: "
           +:+ "ENOENT: no such file or directory, access './temp/demo-1/repomix-output.txt'")
  /\ forall q, q <> "./temp/demo-1/repomix-output.txt" ->
               fs (snd run) !! q = fs Sample.ready_world !! q.
Proof.
  intros env run.
  destruct (packRepo_returns_existing_output env "./temp/demo-1" Sample.ready_world
              (fst run) (snd run)) as (Hframe & _).
  - vm_compute. reflexivity.
  - split; [vm_compute; reflexivity|exact Hframe].
Defined.

(** ** More of the properties at work in the sample environment *)

Lemma delete_handler_outcomes_witness :
  let env := Sample.env Sample.all_good in
  let blocked_sidecar :=
    {| fs := <["./cache/0a1b.json" := Dir]>
               (<["./cache/0a1b.txt" := File "packed text"]> (<["./cache" := Dir]> ∅));
       trace := [] |} in
  let cache_is_a_file := {| fs := <["./cache" := File "not a directory"]> ∅; trace := [] |} in
  (exists http w',
     delete_handler env "0a1b" blocked_sidecar = (Ok http, w')
     /\ delete_status http = 500
     /\ fs w' !! "./cache/0a1b.txt" = None
     /\ fs w' !! "./cache/0a1b.json" = Some Dir)
  /\ (exists http w',
        delete_handler env "0a1b" cache_is_a_file = (Ok http, w')
        /\ delete_status http = 500)
  /\ (exists http w',
        delete_handler env "0a1b" Sample.ready_world = (Ok http, w')
        /\ delete_status http = 200).
Proof.
  intros env blocked_sidecar cache_is_a_file. split; [|split].
  - destruct (delete_handler_outcomes env "0a1b" blocked_sidecar eq_refl)
      as (http & w' & E & _ & _ & H500 & _ & Hpart).
    exists http, w'. split; [exact E|].
    split; [apply H500; right; right; vm_compute; reflexivity|].
    apply Hpart; vm_compute; reflexivity.
  - destruct (delete_handler_outcomes env "0a1b" cache_is_a_file eq_refl)
      as (http & w' & E & _ & _ & H500 & _).
    exists http, w'. split; [exact E|].
    apply H500. left. vm_compute. reflexivity.
  - destruct (delete_handler_outcomes env "0a1b" Sample.ready_world eq_refl)
      as (http & w' & E & _ & [H200|H500'] & H500 & _).
    + exists http, w'. split; [exact E|exact H200].
    + apply H500 in H500'. exfalso.
      destruct H500' as [H|[H|H]]; vm_compute in H; discriminate H.
Defined.

Lemma delete_then_miss_witness :
  let env := Sample.env Sample.all_good in
  let w := Sample.truncated_world "0a1b" in
  let w' := snd (delete_handler env "0a1b" w) in
  (exists w'', loadFromCache env (new_RepomixService env) "0a1b" w' = (Ok None, w''))
  /\ (exists w'',
        status_handler env "0a1b" w'
        = (Ok {| status_status := 404;
                 status_body := inl {| st_exists := false; st_cacheKey := "0a1b";
                                       st_metadata := None |} |}, w''))
  /\ (forall key now,
        all_chars is_hex_char key = true ->
        key <> "0a1b" ->
        lookup_entry env (new_RepomixService env) (fs w') key now
        = lookup_entry env (new_RepomixService env) (fs w) key now).
Proof.
  intros env w w'.
  apply (delete_then_miss env "0a1b" w
           {| delete_status := 200; delete_body := DeleteDone true "Cache deleted" |} w').
  - reflexivity.
  - vm_compute. reflexivity.
  - reflexivity.
Defined.

Lemma saveToCache_keeps_other_entries_witness :
  let env := Sample.env Sample.all_good in
  let w := Sample.truncated_world "0a1b" in
  let run := saveToCache env Sample.service "77ff" "other text"
               demo_partial w in
  lookup_entry env Sample.service (fs (snd run)) "0a1b" "now"
  = lookup_entry env Sample.service (fs w) "0a1b" "now".
Proof.
  intros env w run.
  apply (saveToCache_keeps_other_entries env Sample.service "77ff" "other text" demo_partial w
           (fst run) (snd run) "0a1b" "now").
  - reflexivity.
  - reflexivity.
  - vm_compute. reflexivity.
  - discriminate.
Defined.

Lemma saveToCache_failure_leaves_content_witness :
  let env := Sample.env Sample.all_good in
  let w := blocked_sidecar_world "0a1b" in
  let run := saveToCache env Sample.service "0a1b" "packed text"
               demo_partial w in
  fst run = Err (thrown (fst run))
  /\ (exists e', thrown (fst run) = "Failed to save to cache: " +:+ e')
  /\ fs (snd run) !! metadataPath_of Sample.service "0a1b" = Some Dir
  /\ fs (snd run) !! cachePath_of Sample.service "0a1b" = Some (File "packed text").
Proof.
  intros env w run.
  destruct (saveToCache_failure_leaves_content env Sample.service "0a1b" "packed text"
              demo_partial w
              (thrown (fst run)) (snd run)) as (Hpre & Hmeta & _).
  - vm_compute. reflexivity.
  - split; [vm_compute; reflexivity|]. split; [exact Hpre|].
    split; [rewrite Hmeta|]; vm_compute; reflexivity.
Defined.

Lemma init_is_idempotent_witness :
  let w := Sample.truncated_world "0a1b" in
  let w1 := snd (init Sample.service w) in
  fs w1 !! "./temp" = Some Dir
  /\ fs w1 !! "./cache" = Some Dir
  /\ exists w2, init Sample.service w1 = (Ok tt, w2) /\ fs w2 = fs w1.
Proof.
  intros w w1.
  destruct (init_is_idempotent Sample.service w (Ok tt) w1) as (_ & _ & _ & H).
  - vm_compute. reflexivity.
  - apply H. reflexivity.
Defined.

Lemma cloneRepo_names_workspace_witness :
  let env := Sample.env Sample.all_good in
  exists path w',
    cloneRepo env Sample.service "https://github.com/octo/my.github.io" Sample.empty_world
    = (Ok path, w')
    /\ base_name path = "myhub.io-1700000000000".
Proof.
  intros env.
  set (run := cloneRepo env Sample.service "https://github.com/octo/my.github.io"
                Sample.empty_world).
  exists (default EmptyString (match fst run with Ok p => Some p | Err _ => None end)),
    (snd run).
  assert (Hrun : run = (Ok (default EmptyString
                              (match fst run with Ok p => Some p | Err _ => None end)),
                        snd run)) by (vm_compute; reflexivity).
  split; [exact Hrun|].
  destruct (cloneRepo_names_workspace env Sample.service "https://github.com/octo"
              "my.github.io" Sample.empty_world _ _ eq_refl Hrun)
    as (repoName & Hbase & _ & Hgit & _).
  rewrite Hbase, (Hgit "my" "hub.io" eq_refl eq_refl). vm_compute. reflexivity.
Defined.

Lemma processRepo_removes_only_its_workspace_witness :
  let run := processRepo (Sample.env Sample.pack_fails) Sample.service
               Sample.repo false Sample.empty_world in
  exists evs,
    continues Sample.empty_world evs (snd run)
    /\ forall p,
         In (EvRm p) evs ->
         Fs.parent p = "./temp"
         /\ p <> "./temp"
         /\ happens_after (EvGitClone Sample.repo p true) (EvRm p) evs.
Proof.
  intros run.
  apply (processRepo_removes_only_its_workspace (Sample.env Sample.pack_fails)
           Sample.service Sample.repo false Sample.empty_world (fst run) (snd run)).
  vm_compute. reflexivity.
Defined.

Lemma cache_hit_after_clone_witness :
  let env := Sample.env Sample.all_good in
  let w := revision_cached_world Sample.repo "4f2a9c1e" "cached text" in
  let w1 := snd (init Sample.service w) in
  exists entry w' path evs,
    processRepo env Sample.service Sample.repo false w
    = (Ok (result_from_cache (generateCacheKey Sample.repo (Some "4f2a9c1e")) entry), w')
    /\ cached_content entry = "cached text"
    /\ continues w evs w'
    /\ happens_after (EvGitClone Sample.repo path true) (EvRm path) evs
    /\ forallb no_pack_no_write evs = true
    /\ (forall p, Fs.under path p = true -> fs w' !! p = None)
    /\ (forall p, Fs.under path p = false -> fs w' !! p = fs w1 !! p).
Proof.
  intros env w w1.
  apply (cache_hit_after_clone env Sample.service Sample.repo w w1 "latest"
           (snd (getLatestCommitShaFromGithub env Sample.repo w1))
           ("4f2a9c1e" +:+ String Sample.newline EmptyString) "cached text").
  - vm_compute. reflexivity.
  - apply sample_cache_outside_temp.
  - vm_compute. reflexivity.
  - vm_compute. reflexivity.
  - intros n p. eexists. reflexivity.
  - intros n p. reflexivity.
  - vm_compute. reflexivity.
Defined.

Lemma processRepo_result_is_cached_witness :
  let env := Sample.env Sample.all_good in
  let w' := snd (processRepo env Sample.service Sample.repo false Sample.empty_world) in
  exists content commitSha,
    fs w' !! cachePath_of Sample.service (res_cacheKey demo_result) = Some (File content)
    /\ res_cacheKey demo_result = generateCacheKey Sample.repo (Some commitSha)
    /\ (exists entry w'',
          loadFromCache env Sample.service (res_cacheKey demo_result) w'
          = (Ok (Some entry), w'')
          /\ cached_content entry = content)
    /\ (res_fromCache demo_result = false ->
        res_repoUrl demo_result = Some Sample.repo
        /\ res_commitSha demo_result = Some commitSha
        /\ res_size demo_result = Some (content_length content)
        /\ res_cachedAt demo_result = None).
Proof.
  intros env w'.
  apply (processRepo_result_is_cached env Sample.service Sample.repo false
           Sample.empty_world demo_result w').
  - apply sample_cache_outside_temp.
  - vm_compute. reflexivity.
Defined.

Lemma clone_failure_stops_the_run_witness :
  let env := Sample.env Sample.one_failing_call in
  let run := processRepo env Sample.service Sample.missing_repo false Sample.empty_world in
  fst run = Err "Failed to clone repository: Command failed: git clone"
  /\ exists evs,
       continues Sample.empty_world evs (snd run)
       /\ forallb no_pack_no_write evs = true
       /\ forall p, ~ In (EvRm p) evs.
Proof.
  intros env run.
  destruct (clone_failure_stops_the_run env Sample.service Sample.missing_repo false
              "Command failed: git clone" Sample.empty_world (fst run) (snd run))
    as (Hevs & _).
  - intros n p. reflexivity.
  - vm_compute. reflexivity.
  - split; [vm_compute; reflexivity|exact Hevs].
Defined.

Lemma pack_then_status_witness :
  let env := Sample.env Sample.all_good in
  let run := pack_handler env {| pack_repoUrl := Sample.repo; pack_forceRefresh := None |}
               Sample.empty_world in
  exists key response metadata w'',
    pack_body (returned {| pack_status := 0; pack_body := inr EmptyString |} (fst run))
    = inl response
    /\ pr_cacheKey response = Some key
    /\ status_handler env key (snd run)
       = (Ok {| status_status := 200;
                status_body := inl {| st_exists := true; st_cacheKey := key;
                                      st_metadata := Some metadata |} |}, w'').
Proof.
  intros env run.
  apply (pack_then_status env {| pack_repoUrl := Sample.repo; pack_forceRefresh := None |}
           Sample.empty_world _ (snd run)).
  - apply sample_cache_outside_temp.
  - vm_compute. reflexivity.
  - vm_compute. reflexivity.
Defined.

Lemma malformed_arguments_abort_turn_witness :
  let env := Sample.env malformed_call in
  let body := Sample.request "What is in there?" in
  let w2 := snd (chat env (chat_service env body) (first_messages body)
                   (Some toolDefinitions) None Sample.empty_world) in
  exists e,
    chat_handler env body Sample.empty_world
    = (Ok (chat_failure e),
       {| fs := fs w2;
          trace := EvConsole ErrorLevel ("Chat error: " +:+ e) :: trace w2 |}).
Proof.
  intros env body w2.
  apply (malformed_arguments_abort_turn env body "W" "hat is in there?"
           Sample.empty_world (sample_first malformed_call) w2 malformed_tool_call).
  - reflexivity.
  - discriminate.
  - vm_compute. reflexivity.
  - right. left. reflexivity.
  - reflexivity.
Defined.

Lemma chat_sends_one_request_witness :
  let env := Sample.env Sample.all_good in
  let run := chat env Sample.groq [] (Some []) (Some "packed text") Sample.empty_world in
  exists params,
    fs (snd run) = fs Sample.empty_world
    /\ param_messages params = [system_message (Some "packed text")]
    /\ param_tools params = None
    /\ param_tool_choice params = None
    /\ match fst run with
       | Ok _ => trace (snd run) = EvGroq params :: trace Sample.empty_world
       | Err e =>
           exists e',
             e = "Groq API failed: " +:+ e'
             /\ trace (snd run) = EvConsole ErrorLevel ("Groq API error: " +:+ e')
                                    :: EvGroq params :: trace Sample.empty_world
       end.
Proof.
  intros env run.
  destruct (chat_sends_one_request env Sample.groq [] (Some []) (Some "packed text")
              Sample.empty_world (fst run) (snd run))
    as (params & Hfs & Hm & Ht & Hc & _ & Htr).
  - vm_compute. reflexivity.
  - exists params. split; [exact Hfs|]. split; [exact Hm|].
    assert (Hnone : param_tools params = None) by (apply Ht; right; reflexivity).
    split; [exact Hnone|]. split; [apply Hc, Hnone|exact Htr].
Defined.

Lemma chat_context_follows_cache_witness :
  let env := Sample.env Sample.all_good in
  let body := keyed_request "What is in there?" "0a1b" in
  let w := Sample.truncated_world "0a1b" in
  preload_start env body w = (Some "packed text", Some "0a1b")
  /\ preload_start env body Sample.empty_world = (None, None).
Proof.
  intros env body w.
  destruct (chat_context_follows_cache env body "W" "hat is in there?" "0" "a1b" w)
    as (Hhit & _ & _); [reflexivity|discriminate|reflexivity|].
  destruct (chat_context_follows_cache env body "W" "hat is in there?" "0" "a1b"
              Sample.empty_world)
    as (_ & Hmiss & _); [reflexivity|discriminate|reflexivity|].
  split; [apply Hhit; vm_compute; reflexivity|apply Hmiss; vm_compute; reflexivity].
Defined.

Lemma successful_invocation_makes_second_call_witness :
  let sc := Sample.all_good in
  let env := Sample.env sc in
  let l := Sample.after_first_call sc in
  let w1 := snd (processRepo env Sample.service Sample.repo false Sample.empty_world) in
  exists entry w2,
    loadFromCache env Sample.service (res_cacheKey demo_result) w1 = (Ok (Some entry), w2)
    /\ fs w1 !! cachePath_of Sample.service (res_cacheKey demo_result)
       = Some (File (cached_content entry))
    /\ handle_call env Sample.groq Sample.service demo_call (l, Sample.empty_world)
       = match chat env Sample.groq
                 (messages l ++ [gr_message (response l);
                                 tool_message env demo_call demo_result])%list
                 None (Some (cached_content entry)) w2 with
         | (Ok second, w3) =>
             (Ok tt,
              ({| messages := (messages l ++ [gr_message (response l);
                                              tool_message env demo_call demo_result])%list;
                  response := second;
                  toolCalls := (toolCalls l ++ [result_record demo_call demo_result])%list;
                  finalCacheKey := Some (res_cacheKey demo_result) |}, w3))
         | (Err e, w3) =>
             (Ok tt,
              ({| messages := (messages l ++ [gr_message (response l);
                                              tool_message env demo_call demo_result])%list;
                  response := response l;
                  toolCalls := (toolCalls l ++ [result_record demo_call demo_result;
                                                error_record demo_call e])%list;
                  finalCacheKey := finalCacheKey l |}, w3))
         end.
Proof.
  intros sc env l w1.
  apply (successful_invocation_makes_second_call env Sample.groq Sample.service demo_call
           l Sample.empty_world demo_result w1).
  - apply sample_cache_outside_temp.
  - reflexivity.
  - vm_compute. reflexivity.
Defined.

Lemma match_github_reads_owner_and_repo_witness :
  match_github "https://github.com/octo/demo" = Some ("octo", "demo")
  /\ match_github "https://github.com/octo/demo/tree/main" = Some ("octo", "demo")
  /\ match_github "git@example.org:octo/demo" = None.
Proof.
  destruct (match_github_reads_owner_and_repo "https://" "octo" "demo" "tree/main")
    as (H1 & H2 & H3); [reflexivity|discriminate|discriminate|reflexivity|reflexivity|].
  split; [exact H1|]. split; [exact H2|]. apply H3. reflexivity.
Defined.
